(** * freecad.workbench_ros: the Ros::Joint and Ros::Robot objects

    A shallow embedding of [joint.py] and [robot.py].  Python objects are
    attribute dictionaries, FreeCAD document objects live in a store indexed
    by object identity, and every method is a function in a state and
    exception monad over that store. *)

From Stdlib Require Import ZArith QArith.
From stdpp Require Import base option list strings gmap fin_maps.

Local Open Scope string_scope.
Set Warnings "-register-all,-clear-no-such-hyp".

(** ** Python values, exceptions and results *)

(** Identity of a FreeCAD document object (what Python's [is] compares). *)
Abbreviation oid := positive.

(** [FreeCAD.Placement]: a translation and a rotation quaternion. *)
Record Placement := mkPlacement {
  Base : Q * Q * Q;
  Rotation : Q * Q * Q * Q
}.

(** [fc.Placement()] *)
Definition Placement_identity : Placement :=
  mkPlacement (0, 0, 0)%Q (0, 0, 0, 1)%Q.

Inductive value :=
| VNone
| VBool (b : bool)
| VInt (n : Z)
| VStr (s : string)
| VTuple (items : list value)
| VObj (o : oid)
| VPlacement (p : Placement).

Inductive exn :=
| AttributeError (attr : string)
| NameError (name : string)
| ReferenceError (o : oid)
| TypeError
| ValueError.

(** The class name of an exception, as [type(e).__name__] gives it. *)
Definition exn_class (e : exn) : string :=
  match e with
  | AttributeError _ => "AttributeError"
  | NameError _ => "NameError"
  | ReferenceError _ => "ReferenceError"
  | TypeError => "TypeError"
  | ValueError => "ValueError"
  end.

Inductive result (A : Type) :=
| Ok (a : A)
| Raise (e : exn).
Arguments Ok {A} a.
Arguments Raise {A} e.

Definition result_bind {A B} (r : result A) (f : A → result B) : result B :=
  match r with
  | Ok a => f a
  | Raise e => Raise e
  end.

(** Python truthiness, [if state:]. *)
Definition truthy (v : value) : bool :=
  match v with
  | VNone => false
  | VBool b => b
  | VInt n => negb (n =? 0)%Z
  | VStr s => negb (String.eqb s "")
  | VTuple items => match items with [] => false | _ => true end
  | VObj _ => true
  | VPlacement _ => true
  end.

(** The characters of a string, which Python counts where the bytes of its
    UTF-8 form are stored: a character is a byte that continues no other
    (not of the form 10xxxxxx) with the continuation bytes that follow. *)
Definition is_continuation (a : Ascii.ascii) : bool :=
  match a with Ascii.Ascii _ _ _ _ _ _ b6 b7 => b7 && negb b6 end.

Fixpoint characters (s : string) : list string :=
  match s with
  | EmptyString => []
  | String a rest =>
      let cs := characters rest in
      match rest with
      | String b _ =>
          if is_continuation b
          then match cs with
               | c :: cs' => String a c :: cs'
               | [] => [String a EmptyString]
               end
          else String a EmptyString :: cs
      | EmptyString => [String a EmptyString]
      end
  end.

(** The right-hand side of [a, b = state]: a tuple of two items, or a
    string of two characters. *)
Definition unpack2 (v : value) : result (value * value) :=
  match v with
  | VTuple [a; b] => Ok (a, b)
  | VTuple _ => Raise ValueError
  | VStr s =>
      match characters s with
      | [a; b] => Ok (VStr a, VStr b)
      | _ => Raise ValueError
      end
  | _ => Raise TypeError
  end.

(** An instance of a Python class: its [__dict__]. *)
Abbreviation instance := (gmap string value).

(** Attribute lookup: the instance dictionary first, then the data
    attributes of the class. *)
Definition getattr (cls : gmap string value) (self : instance) (a : string)
  : result value :=
  match self !! a with
  | Some v => Ok v
  | None =>
      match cls !! a with
      | Some v => Ok v
      | None => Raise (AttributeError a)
      end
  end.

(** ** xml.etree.ElementTree elements *)

Inductive Element :=
| Elem (tag : string) (attrib : list (string * string)) (children : list Element).

Definition tag_of (e : Element) : string :=
  match e with Elem t _ _ => t end.

Definition attrib_of (e : Element) : list (string * string) :=
  match e with Elem _ a _ => a end.

Definition children_of (e : Element) : list Element :=
  match e with Elem _ _ c => c end.

(** [e.attrib[k] = v] on an insertion-ordered dictionary. *)
Fixpoint dict_set (k v : string) (d : list (string * string))
  : list (string * string) :=
  match d with
  | [] => [(k, v)]
  | (k', v') :: rest =>
      if String.eqb k k' then (k, v) :: rest else (k', v') :: dict_set k v rest
  end.

Definition set_attrib (k v : string) (e : Element) : Element :=
  match e with Elem t a c => Elem t (dict_set k v a) c end.

(** [e.append(c)] *)
Definition append (c : Element) (e : Element) : Element :=
  match e with Elem t a cs => Elem t a (cs ++ [c]) end.

(** ** The FreeCAD document *)

(** What a document object is, with the properties the two modules read
    and write.  [Feature] stands for every other kind of object (a part,
    an assembly, ...). *)
Inductive ObjectData :=
| Feature
| AppLink (LinkedObject : option oid) (LinkPlacement : Placement)
| RosLink (Group Real Visual Collision : list oid)
| RosRobot (Group : list oid) (ShowReal ShowVisual ShowCollision : option bool)
| RosJoint (Type_ : nat) (Parent Child : option oid) (Origin : Placement).

Record DocumentObject := mkObject {
  Name : string;
  Label : string;
  Parents : list (oid * string);
  data : ObjectData
}.

(** The store, the messages handed to [warn], and the property changes the
    host has to notify ([onChanged]) in the order they happened. *)
Record Document := mkDocument {
  objects : gmap positive DocumentObject;
  warnings : list string;
  touched : list (oid * string)
}.

Definition with_objects (f : gmap positive DocumentObject → gmap positive DocumentObject)
  (d : Document) : Document :=
  mkDocument (f (objects d)) (warnings d) (touched d).

(** The state and exception monad of the methods: a raised exception keeps
    the mutations done so far. *)
Definition M (A : Type) : Type := Document → result A * Document.

Definition ret {A} (a : A) : M A := λ d, (Ok a, d).

Definition raise {A} (e : exn) : M A := λ d, (Raise e, d).

Definition bind {A B} (m : M A) (f : A → M B) : M B :=
  λ d, match m d with
       | (Ok a, d') => f a d'
       | (Raise e, d') => (Raise e, d')
       end.

Declare Scope py_scope.
Delimit Scope py_scope with py.
Notation "'let!' x ':=' m 'in' k" := (bind m (λ x, k))
  (at level 10, x name, m at level 200, k at level 200) : py_scope.
Notation "m ;;; k" := (bind m (λ _, k))
  (at level 100, right associativity) : py_scope.
Local Open Scope list_scope.
Local Open Scope py_scope.

Definition lift {A} (r : result A) : M A := λ d, (r, d).

(** Reading an attribute of a deleted object is a [ReferenceError]. *)
Definition get_object (o : oid) : M DocumentObject :=
  λ d, match objects d !! o with
       | Some obj => (Ok obj, d)
       | None => (Raise (ReferenceError o), d)
       end.

Definition get_Name (o : oid) : M string :=
  let! obj := get_object o in ret (Name obj).

Definition get_Parents (o : oid) : M (list (oid * string)) :=
  let! obj := get_object o in ret (Parents obj).

(** [o.LinkedObject], a property of [App::Link] objects only. *)
Definition get_LinkedObject (o : oid) : M (option oid) :=
  let! obj := get_object o in
  match data obj with
  | AppLink lo _ => ret lo
  | _ => raise (AttributeError "LinkedObject")
  end.

(** [o.Group], a property of the group objects. *)
Definition get_Group (o : oid) : M (list oid) :=
  let! obj := get_object o in
  match data obj with
  | RosLink g _ _ _ => ret g
  | RosRobot g _ _ _ => ret g
  | _ => raise (AttributeError "Group")
  end.

Definition get_Real (o : oid) : M (list oid) :=
  let! obj := get_object o in
  match data obj with
  | RosLink _ r _ _ => ret r
  | _ => raise (AttributeError "Real")
  end.

Definition get_Visual (o : oid) : M (list oid) :=
  let! obj := get_object o in
  match data obj with
  | RosLink _ _ v _ => ret v
  | _ => raise (AttributeError "Visual")
  end.

Definition get_Collision (o : oid) : M (list oid) :=
  let! obj := get_object o in
  match data obj with
  | RosLink _ _ _ c => ret c
  | _ => raise (AttributeError "Collision")
  end.

(** ** joint.py *)

Module Joint.

(** [Joint.type] *)
Definition type : string := "Ros::Joint".

(** [Joint.type_enum]: "The names can be changed but not the order.  Names
    can be added." *)
Definition type_enum : list string := ["fixed"; "revolute"; "prismatic"].

(** The ordinal a document stores for a kinematic type. *)
Fixpoint ordinal_in (names : list string) (name : string) : option nat :=
  match names with
  | [] => None
  | n :: rest =>
      if String.eqb n name then Some 0 else S <$> ordinal_in rest name
  end.

Definition ordinal (name : string) : option nat := ordinal_in type_enum name.

(** The data attributes of the class; its methods are never read as
    attributes by the code below. *)
Definition class_dict : gmap string value :=
  {[ "type" := VStr type; "type_enum" := VTuple (VStr <$> type_enum) ]}.

(** [Joint.__init__]: [self.joint = obj]. *)
Definition __init__ (obj : oid) : instance := {[ "joint" := VObj obj ]}.

(** [self.joint.Type]: the enumeration property reads as the name at the
    stored ordinal. *)
Definition get_Type (j : value) : M string :=
  match j with
  | VObj o =>
      let! obj := get_object o in
      match data obj with
      | RosJoint t _ _ _ =>
          match type_enum !! t with
          | Some s => ret s
          | None => raise ValueError
          end
      | _ => raise (AttributeError "Type")
      end
  | _ => raise (AttributeError "Type")
  end.

Definition as_str (v : value) : M string :=
  match v with
  | VStr s => ret s
  | _ => raise TypeError
  end.

Definition as_placement (v : value) : M Placement :=
  match v with
  | VPlacement p => ret p
  | _ => raise TypeError
  end.

(** [__getstate__] and [__setstate__] of [Joint]. *)
Definition __getstate__ (self : instance) : value := VNone.

Definition __setstate__ (self : instance) (state : value) : instance := self.

Section export.

(** [utils.valid_urdf_name] and [export_urdf.urdf_origin_from_placement]
    are imported from modules outside these sources. *)
Variable valid_urdf_name : string → string.
Variable urdf_origin_from_placement : Placement → Element.

(** The argument of [et.fromstring] for the parent: the string is not an
    f-string, so the braces reach the XML parser as they are. *)
Definition parent_xml : Element :=
  Elem "parent" [("joint", "{valid_urdf_name(self.parent.Label)}")] [].

Definition child_xml : Element :=
  Elem "child" [("joint", "{valid_urdf_name(self.child.Label)}")] [].

Definition axis_xml : Element := Elem "axis" [("xyz", "0 0 1")] [].

Definition export_urdf (self : instance) : M Element :=
  let joint_xml := Elem "joint" [] [] in
  let! name := lift (getattr class_dict self "name") in
  let! name := as_str name in
  let joint_xml := set_attrib "name" (valid_urdf_name name) joint_xml in
  let! joint := lift (getattr class_dict self "joint") in
  let! type := get_Type joint in
  let joint_xml := set_attrib "type" type joint_xml in
  let joint_xml := append parent_xml joint_xml in
  let joint_xml := append child_xml joint_xml in
  let! origin := lift (getattr class_dict self "origin") in
  let! origin := as_placement origin in
  let joint_xml := append (urdf_origin_from_placement origin) joint_xml in
  let joint_xml := append axis_xml joint_xml in
  ret joint_xml.

End export.

End Joint.

(** ** robot.py *)

Module Robot.

(** The data attributes of the class [Robot]: none. *)
Definition class_dict : gmap string value := ∅.

(** Modelled from the spec: [utils.get_links], which is not part of these
    sources, keeps the Link-typed members of a group, in order. *)
Definition is_link (m : gmap positive DocumentObject) (o : oid) : bool :=
  match m !! o with
  | Some obj => match data obj with RosLink _ _ _ _ => true | _ => false end
  | None => false
  end.

Definition get_links (group : list oid) : M (list oid) :=
  λ d, (Ok (filter (λ o, is_link (objects d) o = true) group), d).

(** The names in use in the document. *)
Definition names (d : Document) : gset string :=
  map_img (Name <$> objects d).

(** A property of [o] is assigned: the object is replaced in the store and
    the change is queued for notification. *)
Definition update (o : oid) (prop : string) (obj : DocumentObject) : M unit :=
  λ d, (Ok tt, mkDocument (<[o := obj]> (objects d)) (warnings d)
                          (touched d ++ [(o, prop)])).

(** [lod_link.Label = name] *)
Definition set_Label (o : oid) (name : string) : M unit :=
  let! obj := get_object o in
  update o "Label" (mkObject (Name obj) name (Parents obj) (data obj)).

(** [lod_link.LinkPlacement = link_placement] *)
Definition set_LinkPlacement (o : oid) (p : Placement) : M unit :=
  let! obj := get_object o in
  match data obj with
  | AppLink lo _ =>
      update o "LinkPlacement"
        (mkObject (Name obj) (Label obj) (Parents obj) (AppLink lo p))
  | _ => raise (AttributeError "LinkPlacement")
  end.

(** [lod_link.setLink(o)] *)
Definition setLink (lod_link o : oid) : M unit :=
  let! obj := get_object lod_link in
  match data obj with
  | AppLink _ p =>
      update lod_link "LinkedObject"
        (mkObject (Name obj) (Label obj) (Parents obj) (AppLink (Some o) p))
  | _ => raise (AttributeError "setLink")
  end.

(** [lod_link.adjustRelativeLinks(link)] rewrites sub-element paths, of
    which the store keeps none. *)
Definition adjustRelativeLinks (lod_link link : oid) : M unit := ret tt.

(** [link.addObject(lod_link)]: the group gains the object at its end,
    unless it has it already. *)
Definition addObject (link o : oid) : M unit :=
  let! obj := get_object link in
  match data obj with
  | RosLink g r v c =>
      if bool_decide (o ∈ g) then ret tt
      else update link "Group"
             (mkObject (Name obj) (Label obj) (Parents obj) (RosLink (g ++ [o]) r v c))
  | RosRobot g a b c =>
      if bool_decide (o ∈ g) then ret tt
      else update link "Group"
             (mkObject (Name obj) (Label obj) (Parents obj) (RosRobot (g ++ [o]) a b c))
  | _ => raise (AttributeError "addObject")
  end.

(** What the removal of the objects [gone] does to the references another
    object holds: the host drops them. *)
Definition keep (gone : gset positive) (l : list oid) : list oid :=
  filter (λ o, o ∉ gone) l.

Definition keep_ref (gone : gset positive) (r : option oid) : option oid :=
  match r with
  | Some o => if bool_decide (o ∈ gone) then None else Some o
  | None => None
  end.

Definition scrub_data (gone : gset positive) (dt : ObjectData) : ObjectData :=
  match dt with
  | Feature => Feature
  | AppLink lo p => AppLink (keep_ref gone lo) p
  | RosLink g r v c => RosLink (keep gone g) (keep gone r) (keep gone v) (keep gone c)
  | RosRobot g a b c => RosRobot (keep gone g) a b c
  | RosJoint t p c o => RosJoint t (keep_ref gone p) (keep_ref gone c) o
  end.

Definition scrub (gone : gset positive) (obj : DocumentObject) : DocumentObject :=
  mkObject (Name obj) (Label obj)
    (filter (λ ps, ps.1 ∉ gone) (Parents obj)) (scrub_data gone (data obj)).

(** The properties of an object that referred to a removed object, each
    of which is notified as changed. *)
Definition scrubbed_props (gone : gset positive) (dt : ObjectData) : list string :=
  let list_prop (name : string) (l : list oid) :=
    if bool_decide (keep gone l = l) then [] else [name] in
  let ref_prop (name : string) (r : option oid) :=
    if bool_decide (keep_ref gone r = r) then [] else [name] in
  match dt with
  | Feature => []
  | AppLink lo _ => ref_prop "LinkedObject" lo
  | RosLink g r v c =>
      list_prop "Group" g ++ list_prop "Real" r ++ list_prop "Visual" v
      ++ list_prop "Collision" c
  | RosRobot g _ _ _ => list_prop "Group" g
  | RosJoint _ p c _ => ref_prop "Parent" p ++ ref_prop "Child" c
  end.

Definition scrub_notifications (gone : gset positive)
  (m : gmap positive DocumentObject) : list (oid * string) :=
  '(o, obj) ← map_to_list m; (λ prop, (o, prop)) <$> scrubbed_props gone (data obj).

(** [Document.removeObject(name)]: the object of that name leaves the
    document, and every reference to it with it. *)
Definition removeObject (name : string) : M unit :=
  λ d,
    let gone := dom (filter (λ kv, Name kv.2 = name) (objects d)) in
    let rest := filter (λ kv, Name kv.2 ≠ name) (objects d) in
    (Ok tt, mkDocument (scrub gone <$> rest) (warnings d)
                       (touched d ++ scrub_notifications gone rest)).

Section host.

(** The host's choice of a name for a new object, from the names in use
    and the name asked for. *)
Variable getUniqueObjectName : gset string → string → string.

(** [parent.getSubObject(subname, retType=3)]: the placement of a
    sub-object. *)
Variable getSubObject : oid → string → Placement.

(** Whether the global name [warn] is bound in the module.  robot.py
    imports [ICON_PATH], [add_property], [error] and [get_links] only, so
    the module as it stands has [warn_bound = false]. *)
Variable warn_bound : bool.

(** Modelled from the spec: [utils.warn], which is not part of these
    sources, emits a non-fatal warning. *)
Definition warn (text : string) : M unit :=
  if warn_bound
  then λ d, (Ok tt, mkDocument (objects d) (warnings d ++ [text]) (touched d))
  else raise (NameError "warn").

(** [doc.addObject('App::Link', name)] *)
Definition addObject_AppLink (name : string) : M oid :=
  λ d,
    let o := fresh (dom (objects d)) in
    let n := getUniqueObjectName (names d) name in
    (Ok o, with_objects (insert o (mkObject n n [] (AppLink None Placement_identity))) d).

Fixpoint _existing_link_in (group : list oid) (o : oid) : M (option oid) :=
  match group with
  | [] => ret None
  | linked_lod :: group' =>
      let! lo := get_LinkedObject linked_lod in
      if bool_decide (lo = Some o) then ret (Some linked_lod)
      else _existing_link_in group' o
  end.

(** [_existing_link(link, o)] *)
Definition _existing_link (link o : oid) : M (option oid) :=
  let! group := get_Group link in
  _existing_link_in group o.

(** The name asked for a new proxy, [f'{lod}_{link.Name}000']. *)
Definition lod_name (lod link_name : string) : string :=
  lod +:+ "_" +:+ link_name +:+ "000".

(** The body of the loop of [_add_links_lod] for an object without proxy. *)
Definition new_lod_link (link o : oid) (lod : string) : M oid :=
  let! link_name := get_Name link in
  let name := lod_name lod link_name in
  let! lod_link := addObject_AppLink name in
  set_Label lod_link name ;;;
  let! parents := get_Parents o in
  (if bool_decide (length parents ≠ 1)
   then let! o_name := get_Name o in
        warn ("Wrong object type. " +:+ o_name +:+ ".Parents has more than one entry")
   else ret tt) ;;;
  let link_placement :=
    match parents with
    | (parent, subname) :: _ => getSubObject parent subname
    | [] => Placement_identity
    end in
  set_LinkPlacement lod_link link_placement ;;;
  setLink lod_link o ;;;
  adjustRelativeLinks lod_link link ;;;
  addObject link lod_link ;;;
  ret lod_link.

Fixpoint _add_links_lod_from (link : oid) (objects : list oid) (lod : string)
  (old_and_new_objects : list oid) : M (list oid) :=
  match objects with
  | [] => ret old_and_new_objects
  | o :: objects' =>
      let! link_to_o := _existing_link link o in
      match link_to_o with
      | Some l => _add_links_lod_from link objects' lod (old_and_new_objects ++ [l])
      | None =>
          let! lod_link := new_lod_link link o lod in
          _add_links_lod_from link objects' lod (old_and_new_objects ++ [lod_link])
      end
  end.

(** [_add_links_lod(link, objects, lod)] *)
Definition _add_links_lod (link : oid) (objects : list oid) (lod : string)
  : M (list oid) :=
  let! doc := get_object link in
  _add_links_lod_from link objects lod [].

(** [hasattr(o, name)] and [o.name] for the three flags of a robot. *)
Definition flag (name : string) (dt : ObjectData) : option bool :=
  match dt with
  | RosRobot _ show_real show_visual show_collision =>
      if String.eqb name "ShowReal" then show_real
      else if String.eqb name "ShowVisual" then show_visual
      else if String.eqb name "ShowCollision" then show_collision
      else None
  | _ => None
  end.

Definition hasattr (o : oid) (name : string) : M bool :=
  let! obj := get_object o in
  ret (match flag name (data obj) with Some _ => true | None => false end).

Definition get_flag (o : oid) (name : string) : M bool :=
  let! obj := get_object o in
  match flag name (data obj) with
  | Some b => ret b
  | None => raise (AttributeError name)
  end.

(** [Robot.__init__]: the three attributes of a new instance. *)
Definition __init__ (obj : oid) : instance :=
  {[ "robot" := VObj obj; "type" := VStr "Ros::Robot";
     "previous_link_count" := VInt 0 ]}.

(** [for l in links: for o in l.Group: current_linked_objects.append(o)] *)
Fixpoint linked_objects (links : list oid) (current_linked_objects : list oid)
  : M (list oid) :=
  match links with
  | [] => ret current_linked_objects
  | l :: links' =>
      let! group := get_Group l in
      linked_objects links' (current_linked_objects ++ group)
  end.

(** [for l in links: all_linked_objects += _add_links_lod(l, l.<lod>, lod)] *)
Fixpoint add_links (get : oid → M (list oid)) (lod : string)
  (links : list oid) (all_linked_objects : list oid) : M (list oid) :=
  match links with
  | [] => ret all_linked_objects
  | l :: links' =>
      let! objects := get l in
      let! added := _add_links_lod l objects lod in
      add_links get lod links' (all_linked_objects ++ added)
  end.

(** [for o in objects_to_remove: self.robot.Document.removeObject(o.Name)] *)
Fixpoint remove_objects (objects_to_remove : list oid) : M unit :=
  match objects_to_remove with
  | [] => ret tt
  | o :: rest =>
      let! name := get_Name o in
      removeObject name ;;;
      remove_objects rest
  end.

(** The body of [Robot.reset_group], with [robot] for [self.robot]. *)
Definition reset_group_of (robot : oid) : M unit :=
  let! has_real := hasattr robot "ShowReal" in
  let! has_visual := hasattr robot "ShowVisual" in
  let! has_collision := hasattr robot "ShowCollision" in
  if negb has_real || negb has_visual || negb has_collision then ret tt
  else
    let! group := get_Group robot in
    let! links := get_links group in
    let rest := filter (λ o, o ∉ links) group in
    let! current_linked_objects := linked_objects links [] in
    let all_linked_objects := [] in
    let! show_real := get_flag robot "ShowReal" in
    let! all_linked_objects :=
      if show_real then add_links get_Real "real" links all_linked_objects
      else ret all_linked_objects in
    let! show_visual := get_flag robot "ShowVisual" in
    let! all_linked_objects :=
      if show_visual then add_links get_Visual "visual" links all_linked_objects
      else ret all_linked_objects in
    let! show_collision := get_flag robot "ShowCollision" in
    let! all_linked_objects :=
      if show_collision
      then add_links get_Collision "collision" links all_linked_objects
      else ret all_linked_objects in
    let objects_to_remove :=
      remove_dups (list_difference current_linked_objects all_linked_objects) in
    remove_objects objects_to_remove.

(** [Robot.reset_group].  On a [self.robot] that is no document object
    [hasattr] is false and the method returns. *)
Definition reset_group (self : instance) : M unit :=
  let! robot := lift (getattr class_dict self "robot") in
  match robot with
  | VObj robot => reset_group_of robot
  | _ => ret tt
  end.

(** [Robot.execute] *)
Definition execute (self : instance) (obj : oid) : M unit := reset_group self.

(** [Robot.onChanged] *)
Definition onChanged (self : instance) (feature : oid) (prop : string) : M unit :=
  let! feature_name := get_Name feature in
  match getattr class_dict self "robot" with
  | Raise _ => ret tt
  | Ok _ =>
      if bool_decide (prop ∈ ["Group"; "ShowReal"; "ShowVisual"; "ShowCollision"])
      then reset_group self
      else ret tt
  end.

(** [Robot.__getstate__] *)
Definition __getstate__ (self : instance) : result value :=
  result_bind (getattr class_dict self "type") (λ type,
  result_bind (getattr class_dict self "previous_link_count") (λ previous_link_count,
  Ok (VTuple [type; previous_link_count]))).

(** [Robot.__setstate__] *)
Definition __setstate__ (self : instance) (state : value) : result instance :=
  if truthy state
  then result_bind (unpack2 state) (λ '(type, previous_link_count),
         Ok (<["previous_link_count" := previous_link_count]> (<["type" := type]> self)))
  else Ok self.

(** [try: ... except AttributeError: pass] around the assignments to the
    instance: a statement that raises [AttributeError] ends the block with
    the instance as the statements before it left it. *)
Definition try_AttributeError (body : M instance) (so_far : instance)
  (rest : instance → M instance) : M instance :=
  λ d, match body d with
       | (Ok self, d') => rest self d'
       | (Raise (AttributeError _), d') => (Ok so_far, d')
       | (Raise e, d') => (Raise e, d')
       end.

(** [self.robot.<name>] for one of the three flags. *)
Definition get_robot_flag (robot : value) (name : string) : M bool :=
  match robot with
  | VObj o => get_flag o name
  | _ => raise (AttributeError name)
  end.

(** [Robot.onBeforeChange]: the instance after the call. *)
Definition onBeforeChange (self : instance) (feature : oid) (prop : string)
  : M instance :=
  let! feature_name := get_Name feature in
  match getattr class_dict self "robot" with
  | Raise _ => ret self
  | Ok robot =>
      try_AttributeError
        (let! show_real := get_robot_flag robot "ShowReal" in
         ret (<["previous_show_real" := VBool show_real]> self)) self (λ self,
      try_AttributeError
        (let! show_visual := get_robot_flag robot "ShowVisual" in
         ret (<["previous_show_visual" := VBool show_visual]> self)) self (λ self,
      try_AttributeError
        (let! show_collision := get_robot_flag robot "ShowCollision" in
         ret (<["previous_show_collision" := VBool show_collision]> self)) self
        ret))
  end.

(** The host calls [onChanged] on the proxy of an object for each change
    of one of its properties.  The proxy of a robot object is the [Robot]
    instance bound to it; the proxies of the other objects are not part of
    these sources and are taken not to react.  [deliver] works off the
    queue of pending changes and counts the calls of [reset_group]. *)
Definition is_robot (m : gmap positive DocumentObject) (o : oid) : bool :=
  match m !! o with
  | Some obj => match data obj with RosRobot _ _ _ _ => true | _ => false end
  | None => false
  end.

Definition triggers (prop : string) : bool :=
  bool_decide (prop ∈ ["Group"; "ShowReal"; "ShowVisual"; "ShowCollision"]).

Fixpoint deliver (fuel : nat) (resets : nat) (d : Document)
  : option (result nat * Document) :=
  match fuel with
  | 0 => None
  | S fuel' =>
      match touched d with
      | [] => Some (Ok resets, d)
      | (o, prop) :: queue =>
          let d1 := mkDocument (objects d) (warnings d) queue in
          if is_robot (objects d) o
          then match onChanged (__init__ o) o prop d1 with
               | (Ok _, d2) =>
                   deliver fuel' (if triggers prop then S resets else resets) d2
               | (Raise e, d2) => Some (Raise e, d2)
               end
          else deliver fuel' resets d1
      end
  end.

End host.

End Robot.

(** ** Reading a document *)

(** The objects a group holds, the proxies a link owns, and the source
    objects a link names. *)
Definition group_refs (dt : ObjectData) : list oid :=
  match dt with
  | RosLink g _ _ _ => g
  | RosRobot g _ _ _ => g
  | _ => []
  end.

Definition link_refs (dt : ObjectData) : list oid :=
  match dt with
  | RosLink g _ _ _ => g
  | _ => []
  end.

Definition source_refs (dt : ObjectData) : list oid :=
  match dt with
  | RosLink _ r v c => r ++ v ++ c
  | _ => []
  end.


Definition Group_of (m : gmap positive DocumentObject) (x : oid) : list oid :=
  match m !! x with
  | Some obj => group_refs (data obj)
  | None => []
  end.

Definition LinkedObject_of (m : gmap positive DocumentObject) (p : oid) : option oid :=
  match m !! p with
  | Some obj => match data obj with AppLink lo _ => lo | _ => None end
  | None => None
  end.

Definition LinkPlacement_of (m : gmap positive DocumentObject) (p : oid)
  : option Placement :=
  match m !! p with
  | Some obj => match data obj with AppLink _ pl => Some pl | _ => None end
  | None => None
  end.

(** The links of a robot, [get_links(robot.Group)]. *)
Definition links_of (m : gmap positive DocumentObject) (robot : oid) : list oid :=
  filter (λ x, Robot.is_link m x = true) (Group_of m robot).

(** The flags of a robot, when all three are there. *)
Definition flags_of (m : gmap positive DocumentObject) (robot : oid)
  : option (bool * bool * bool) :=
  match m !! robot with
  | Some obj =>
      match data obj with
      | RosRobot _ (Some a) (Some b) (Some c) => Some (a, b, c)
      | _ => None
      end
  | None => None
  end.

(** The sources of a link that the flags ask a proxy for. *)
Definition demanded_sources (flags : bool * bool * bool) (dt : ObjectData)
  : list oid :=
  match dt with
  | RosLink _ r v c =>
      (if flags.1.1 then r else []) ++ (if flags.1.2 then v else [])
      ++ (if flags.2 then c else [])
  | _ => []
  end.

Definition demanded (m : gmap positive DocumentObject) (flags : bool * bool * bool)
  (link o : oid) : Prop :=
  ∃ obj, m !! link = Some obj ∧ o ∈ demanded_sources flags (data obj).

(** The first proxy of a group that refers to [o], as [_existing_link]
    finds it. *)
Fixpoint find_link (m : gmap positive DocumentObject) (group : list oid) (o : oid)
  : option oid :=
  match group with
  | [] => None
  | p :: group' =>
      if bool_decide (LinkedObject_of m p = Some o) then Some p
      else find_link m group' o
  end.

(** A document that needs no pass: the robot has its flags, every proxy of its links is the one found for
    a source the flags ask for, and every such source has one. *)
Definition settled (m : gmap positive DocumentObject) (robot : oid)
  (flags : bool * bool * bool) : Prop :=
  flags_of m robot = Some flags
  ∧ (∀ L p, L ∈ links_of m robot → p ∈ Group_of m L →
       is_Some (LinkPlacement_of m p)
       ∧ ∃ o, demanded m flags L o ∧ find_link m (Group_of m L) o = Some p)
  ∧ (∀ L o, L ∈ links_of m robot → demanded m flags L o →
       is_Some (find_link m (Group_of m L) o)).

(** ** Well-formed documents *)

(** What the host guarantees of a document: names are unique, references
    resolve, and an object is a member of one group at most. *)
Definition unique_names (m : gmap positive DocumentObject) : Prop :=
  map_Forall (λ x ox, map_Forall (λ y oy, Name ox = Name oy → x = y) m) m.

Definition closed (m : gmap positive DocumentObject) : Prop :=
  map_Forall (λ _ ox,
    Forall (λ p, is_Some (m !! p)) (group_refs (data ox) ++ source_refs (data ox))) m.

Definition one_owner (m : gmap positive DocumentObject) : Prop :=
  map_Forall (λ x ox, map_Forall (λ y oy,
    Forall (λ p, p ∈ group_refs (data oy) → x = y) (group_refs (data ox))) m) m.

(** What the data model asks of a link: its group holds proxies, which
    are [App::Link] objects, and its sources are owned elsewhere, none is a
    proxy in the group of a link. *)
Definition proxies_only (m : gmap positive DocumentObject) : Prop :=
  map_Forall (λ _ ox,
    Forall (λ p, is_Some (LinkPlacement_of m p)) (link_refs (data ox))) m.

Definition sources_external (m : gmap positive DocumentObject) : Prop :=
  map_Forall (λ _ ox, map_Forall (λ _ oy,
    Forall (λ p, p ∉ link_refs (data oy)) (source_refs (data ox))) m) m.

Definition wf (m : gmap positive DocumentObject) : Prop :=
  unique_names m ∧ closed m ∧ one_owner m ∧ proxies_only m ∧ sources_external m.

#[global] Instance wf_dec m : Decision (wf m).
Proof. unfold wf, unique_names, closed, one_owner, proxies_only, sources_external. apply _. Defined.

(** The host hands out names that are not in use. *)
Definition fresh_names (getUniqueObjectName : gset string → string → string) : Prop :=
  ∀ used name, getUniqueObjectName used name ∉ used.

(** ** Outcomes *)


(** ** The joint of the export scenario *)

(** Links "base" and "arm", and the revolute joint "shoulder" from base to
    arm with its origin 0.5 up the z axis. *)
Definition shoulder_origin : Placement := mkPlacement (0, 0, 1 # 2)%Q (0, 0, 0, 1)%Q.

Definition shoulder_document (parent : option oid) : Document :=
  mkDocument
    (list_to_map
       [ (1%positive, mkObject "base" "base" [] (RosLink [] [] [] []));
         (2%positive, mkObject "arm" "arm" [] (RosLink [] [] [] []));
         (3%positive, mkObject "shoulder" "shoulder" []
                        (RosJoint 1 parent (Some 2%positive) shoulder_origin)) ])
    [] [].

(** An instance that, unlike the ones [Joint.__init__] makes, has the
    attributes [name] and [origin] that [export_urdf] reads. *)
Definition with_name_and_origin (name : string) (origin : Placement)
  (self : instance) : instance :=
  <["origin" := VPlacement origin]> (<["name" := VStr name]> self).


(** * Notions used in the proofs *)

Import Robot.

Definition with_group (g : list oid) (obj : DocumentObject) : DocumentObject :=
  mkObject (Name obj) (Label obj) (Parents obj)
    match data obj with
    | RosLink _ r v c => RosLink g r v c
    | RosRobot _ a b c => RosRobot g a b c
    | dt => dt
    end.

Definition placement_for (getSubObject : oid → string → Placement)
  (parents : list (oid * string)) : Placement :=
  match parents with
  | (parent, subname) :: _ => getSubObject parent subname
  | [] => Placement_identity
  end.

(** An object of the document before the pass, as it is during the pass:
    the same but for the proxies a link has gained. *)
Definition grown (m0 : gmap positive DocumentObject) (obj0 obj : DocumentObject)
  : Prop :=
  Name obj = Name obj0 ∧ Label obj = Label obj0 ∧ Parents obj = Parents obj0
  ∧ match data obj0 with
    | RosLink g r v c =>
        ∃ n, data obj = RosLink (g ++ n) r v c ∧ Forall (λ q, m0 !! q = None) n
    | dt => data obj = dt
    end.

(** What is found in a group stays found. *)
Definition stable (m m' : gmap positive DocumentObject) : Prop :=
  ∀ L o a, find_link m (Group_of m L) o = Some a →
           find_link m' (Group_of m' L) o = Some a.

(** The changes a run queues for notification all concern objects with
    the property [P]. *)
Definition touched_by (d d' : Document) (P : oid → Prop) : Prop :=
  ∃ new, touched d' = touched d ++ new ∧ ∀ x prop, (x, prop) ∈ new → P x.

(** The document without the objects [gone]. *)
Definition remove_ids (gone : gset positive) (m : gmap positive DocumentObject)
  : gmap positive DocumentObject :=
  scrub gone <$> filter (λ kv, kv.1 ∉ gone) m.

Definition Real_of (dt : ObjectData) : list oid :=
  match dt with RosLink _ r _ _ => r | _ => [] end.

Definition Visual_of (dt : ObjectData) : list oid :=
  match dt with RosLink _ _ v _ => v | _ => [] end.

Definition Collision_of (dt : ObjectData) : list oid :=
  match dt with RosLink _ _ _ c => c | _ => [] end.

(** The proxies the flags ask for: those of the demanded sources of the
    links of the robot. *)
Definition asked (m : gmap positive DocumentObject) (robot : oid)
  (flags : bool * bool * bool) (L o : oid) : Prop :=
  L ∈ links_of m robot ∧ demanded m flags L o.


(** * A worked robot *)

(** A host that gives the name asked for when it is free, and a free one
    otherwise. *)
Definition example_name (used : gset string) (name : string) : string :=
  if bool_decide (name ∈ used) then fresh used else name.

Definition example_placement (parent : oid) (subname : string) : Placement :=
  mkPlacement (inject_Z (Z.pos parent), 0, 0)%Q (0, 0, 0, 1)%Q.

(** A robot with the links "base" and "arm", showing the real and the
    visual parts.  "base" owns a proxy of the box, which its [Real] and its
    [Visual] name, and a proxy of the cone, which it names nowhere. *)
Definition example_document : Document :=
  mkDocument
    (list_to_map
       [ (1%positive, mkObject "Robot" "Robot" []
                        (RosRobot [2; 3]%positive (Some true) (Some true) (Some false)));
         (2%positive, mkObject "base" "base" [(1%positive, "base.")]
                        (RosLink [30; 31]%positive [10; 11]%positive [10]%positive []));
         (3%positive, mkObject "arm" "arm" [(1%positive, "arm.")]
                        (RosLink [] [12]%positive [] [11]%positive));
         (10%positive, mkObject "Box" "Box" [(20%positive, "Box.")] Feature);
         (11%positive, mkObject "Cylinder" "Cylinder" [(20%positive, "Cylinder.")] Feature);
         (12%positive, mkObject "Cone" "Cone" [(20%positive, "Cone.")] Feature);
         (20%positive, mkObject "Assembly" "Assembly" [] Feature);
         (30%positive, mkObject "real_base000" "real_base000" []
                         (AppLink (Some 10%positive) (example_placement 20 "Box.")));
         (31%positive, mkObject "collision_base000" "collision_base000" []
                         (AppLink (Some 12%positive) (example_placement 20 "Cone."))) ])
    [] [].

(** The same robot when one of its flags has just been changed. *)
Definition example_changed : Document :=
  mkDocument (objects example_document) [] [(1%positive, "ShowVisual")].

(** A link "base" that names a box with two structural parents. *)
Definition ambiguous_document : Document :=
  mkDocument
    (list_to_map
       [ (1%positive, mkObject "Robot" "Robot" []
                        (RosRobot [2]%positive (Some true) (Some false) (Some false)));
         (2%positive, mkObject "base" "base" [(1%positive, "base.")]
                        (RosLink [] [10]%positive [] []));
         (10%positive, mkObject "Box" "Box"
                         [(20%positive, "Box."); (21%positive, "Box.")] Feature);
         (20%positive, mkObject "Assembly" "Assembly" [] Feature);
         (21%positive, mkObject "Assembly001" "Assembly001" [] Feature) ])
    [] [].

Definition example_pass : result unit * Document :=
  Robot.reset_group example_name example_placement false (Robot.__init__ 1)
    example_document.

Definition example_after : Document := example_pass.2.

(** The worked robot with its three flags off, and before it has its
    flags. *)
Definition with_flags (show_real show_visual show_collision : option bool)
  (d : Document) : Document :=
  mkDocument
    (<[1%positive := mkObject "Robot" "Robot" []
                       (RosRobot [2; 3]%positive show_real show_visual
                          show_collision)]> (objects d))
    (warnings d) (touched d).

Definition example_off : Document :=
  with_flags (Some false) (Some false) (Some false) example_document.

Definition example_off_pass : result unit * Document :=
  Robot.reset_group example_name example_placement false (Robot.__init__ 1)
    example_off.

Definition example_unset : Document :=
  with_flags (Some true) None None example_document.




(** The two calls in a row on the box with two parents. *)
Definition ambiguous_pass : result unit * Document :=
  Robot.reset_group example_name example_placement false (Robot.__init__ 1)
    ambiguous_document.

Definition ambiguous_pass_again : result unit * Document :=
  Robot.reset_group example_name example_placement false (Robot.__init__ 1)
    ambiguous_pass.2.

(** * Reasoning about the methods *)

(** ** Running the monad *)

Lemma bind_run {A B} (m : M A) (f : A → M B) d r d' :
  bind m f d = (r, d') →
  (∃ a d1, m d = (Ok a, d1) ∧ f a d1 = (r, d'))
  ∨ (∃ e, m d = (Raise e, d') ∧ r = Raise e).
Proof.
  unfold bind. destruct (m d) as [[a|e] d1]; intros H.
  - left. eauto.
  - right. injection H as <- <-. eauto.
Qed.

Lemma bind_Ok {A B} (m : M A) (f : A → M B) d b d' :
  bind m f d = (Ok b, d') →
  ∃ a d1, m d = (Ok a, d1) ∧ f a d1 = (Ok b, d').
Proof.
  intros H. apply bind_run in H as [H|(e & _ & H)]; [done|discriminate].
Qed.

Lemma bind_eq {A B} (m : M A) (f : A → M B) d a d1 :
  m d = (Ok a, d1) → bind m f d = f a d1.
Proof. unfold bind. by intros ->. Qed.

Lemma get_object_run o d r d' :
  get_object o d = (r, d') →
  d' = d ∧ match r with
           | Ok obj => objects d !! o = Some obj
           | Raise _ => objects d !! o = None
           end.
Proof.
  unfold get_object. destruct (objects d !! o); intros [= <- <-]; done.
Qed.

Lemma get_object_Ok o d obj :
  objects d !! o = Some obj → get_object o d = (Ok obj, d).
Proof. unfold get_object. by intros ->. Qed.

Lemma get_Name_run o d name d' :
  get_Name o d = (Ok name, d') →
  d' = d ∧ ∃ obj, objects d !! o = Some obj ∧ Name obj = name.
Proof.
  unfold get_Name. intros H. apply bind_Ok in H as (obj & d1 & H1 & H).
  apply get_object_run in H1 as [-> H1]. injection H as <- <-. eauto.
Qed.

Lemma get_object_raise o d e d' :
  get_object o d = (Raise e, d') →
  d' = d ∧ e = ReferenceError o ∧ objects d !! o = None.
Proof.
  unfold get_object. destruct (objects d !! o); [done|]. by intros [= <- <-].
Qed.

Lemma get_Name_raise o d e d' :
  get_Name o d = (Raise e, d') →
  d' = d ∧ e = ReferenceError o ∧ objects d !! o = None.
Proof.
  unfold get_Name. intros H.
  apply bind_run in H as [(? & ? & _ & H)|(e' & H & [= ->])]; [done|].
  by apply get_object_raise.
Qed.

Lemma get_Parents_raise o d e d' :
  get_Parents o d = (Raise e, d') →
  d' = d ∧ e = ReferenceError o ∧ objects d !! o = None.
Proof.
  unfold get_Parents. intros H.
  apply bind_run in H as [(? & ? & _ & H)|(e' & H & [= ->])]; [done|].
  by apply get_object_raise.
Qed.

Lemma get_Parents_run o d ps d' :
  get_Parents o d = (Ok ps, d') →
  d' = d ∧ ∃ obj, objects d !! o = Some obj ∧ Parents obj = ps.
Proof.
  unfold get_Parents. intros H. apply bind_Ok in H as (obj & d1 & H1 & H).
  apply get_object_run in H1 as [-> H1]. injection H as <- <-. eauto.
Qed.

Lemma get_LinkedObject_run p d r d' :
  get_LinkedObject p d = (r, d') →
  d' = d ∧ ∀ lo, r = Ok lo → LinkedObject_of (objects d) p = lo
                             ∧ is_Some (LinkPlacement_of (objects d) p).
Proof.
  unfold get_LinkedObject, LinkedObject_of, LinkPlacement_of. intros H.
  apply bind_run in H as [(obj & d1 & H1 & H)|(e & H1 & ->)];
    apply get_object_run in H1 as [-> H1]; [|done].
  rewrite H1. cbv beta delta [ret raise] in H.
  destruct (data obj); simplify_eq/=; split; try done.
  intros lo [= <-]. eauto.
Qed.

Lemma get_LinkedObject_Ok p d pl :
  LinkPlacement_of (objects d) p = Some pl →
  get_LinkedObject p d = (Ok (LinkedObject_of (objects d) p), d).
Proof.
  unfold get_LinkedObject, LinkedObject_of, LinkPlacement_of, bind, get_object.
  destruct (objects d !! p) as [obj|]; [|done]. by destruct (data obj).
Qed.

Lemma get_Group_run x d g d' :
  get_Group x d = (Ok g, d') → d' = d ∧ Group_of (objects d) x = g
                               ∧ is_Some (objects d !! x).
Proof.
  unfold get_Group, Group_of. intros H.
  apply bind_Ok in H as (obj & d1 & H1 & H).
  apply get_object_run in H1 as [-> H1]. rewrite H1. cbv beta delta [ret raise] in H.
  destruct (data obj); simplify_eq/=; eauto.
Qed.

(** ** The first proxy of a group for an object *)

Lemma find_link_Some m g o a :
  find_link m g o = Some a → a ∈ g ∧ LinkedObject_of m a = Some o.
Proof.
  induction g as [|p g IH]; simpl; [done|].
  case_bool_decide as Hp.
  - intros [= <-]. split; [left|done].
  - intros H. destruct (IH H). split; [by right|done].
Qed.

Lemma find_link_None m g o p :
  find_link m g o = None → p ∈ g → LinkedObject_of m p ≠ Some o.
Proof.
  induction g as [|q g IH]; simpl; [by intros _ ?%elem_of_nil|].
  case_bool_decide as Hq; [done|].
  intros H [->|Hp]%elem_of_cons; auto.
Qed.

Lemma find_link_is_Some m g o p :
  p ∈ g → LinkedObject_of m p = Some o → is_Some (find_link m g o).
Proof.
  intros Hp Ho. destruct (find_link m g o) eqn:E; [eauto|].
  by destruct (find_link_None _ _ _ _ E Hp).
Qed.

(** What is found stays found when the group grows at its end and the
    proxies of the group keep their links. *)
Lemma find_link_stable m m' g n o a :
  (∀ p, p ∈ g → LinkedObject_of m' p = LinkedObject_of m p) →
  find_link m g o = Some a → find_link m' (g ++ n) o = Some a.
Proof.
  induction g as [|p g IH]; simpl; [done|]. intros Hsame.
  rewrite (Hsame p) by left.
  case_bool_decide; [done|]. apply IH. intros q Hq. apply Hsame. by right.
Qed.

Lemma find_link_snoc m m' g p o :
  (∀ q, q ∈ g → LinkedObject_of m' q = LinkedObject_of m q) →
  find_link m g o = None → LinkedObject_of m' p = Some o →
  find_link m' (g ++ [p]) o = Some p.
Proof.
  induction g as [|q g IH]; simpl; intros Hsame.
  - intros _ ->. by rewrite bool_decide_eq_true_2.
  - rewrite (Hsame q) by left. case_bool_decide; [done|].
    apply IH. intros q' Hq'. apply Hsame. by right.
Qed.

Lemma existing_link_in_run g o d r d' :
  _existing_link_in g o d = (r, d') →
  d' = d ∧ ∀ res, r = Ok res → res = find_link (objects d) g o.
Proof.
  revert r d'. induction g as [|p g IH]; simpl; intros r d'.
  - cbv beta delta [ret]. intros ?; simplify_eq. naive_solver.
  - intros H. apply bind_run in H as [(lo & d1 & H1 & H)|(e & H1 & ->)];
      apply get_LinkedObject_run in H1 as [-> H1]; [|done].
    destruct (H1 lo eq_refl) as [<- _]. cbv beta delta [ret raise] in H.
    case_bool_decide; [simplify_eq; naive_solver|]. by apply IH.
Qed.

Lemma existing_link_in_Ok g o d :
  Forall (λ p, is_Some (LinkPlacement_of (objects d) p)) g →
  _existing_link_in g o d = (Ok (find_link (objects d) g o), d).
Proof.
  induction 1 as [|p g [pl Hp] _ IH]; simpl; [done|].
  rewrite (bind_eq _ _ _ _ _ (get_LinkedObject_Ok _ _ _ Hp)).
  by case_bool_decide.
Qed.

Lemma existing_link_run link o d r d' :
  _existing_link link o d = (r, d') →
  d' = d ∧ ∀ res, r = Ok res →
    res = find_link (objects d) (Group_of (objects d) link) o
    ∧ is_Some (objects d !! link).
Proof.
  unfold _existing_link. intros H.
  apply bind_run in H as [(g & d1 & H1 & H)|(e & H1 & ->)].
  - apply get_Group_run in H1 as (-> & <- & Hl).
    apply existing_link_in_run in H as [-> H]. split; [done|].
    intros res Hr. split; [by apply H|done].
  - split; [|done]. unfold get_Group in H1.
    apply bind_run in H1 as [(obj & d1 & H1 & H)|(e' & H1 & _)];
      apply get_object_run in H1 as [-> _]; [|done].
    cbv beta delta [ret raise] in H. by destruct (data obj); simplify_eq/=.
Qed.

(** ** One new proxy *)

Section step.

Variable getUniqueObjectName : gset string → string → string.
Variable getSubObject : oid → string → Placement.
Variable warn_bound : bool.

Abbreviation new_lod_link := (new_lod_link getUniqueObjectName getSubObject warn_bound).

Lemma set_Label_run p name d r d' :
  set_Label p name d = (r, d') →
  match objects d !! p with
  | Some obj =>
      r = Ok tt
      ∧ d' = mkDocument (<[p := mkObject (Name obj) name (Parents obj) (data obj)]> (objects d))
                        (warnings d) (touched d ++ [(p, "Label")])
  | None => d' = d ∧ r = Raise (ReferenceError p)
  end.
Proof.
  unfold set_Label, bind, get_object.
  destruct (objects d !! p); cbv beta delta [update]; by intros [= <- <-].
Qed.

Lemma new_lod_link_run link o lod d p d' :
  fresh (dom (objects d)) ∉ Group_of (objects d) link →
  fresh (dom (objects d)) ≠ o →
  new_lod_link link o lod d = (Ok p, d') →
  ∃ lobj oobj,
    objects d !! link = Some lobj
    ∧ objects d !! o = Some oobj
    ∧ p = fresh (dom (objects d))
    ∧ ((∃ g r v c, data lobj = RosLink g r v c)
       ∨ (∃ g a b c, data lobj = RosRobot g a b c))
    ∧ (length (Parents oobj) = 1 ∨ warn_bound = true)
    ∧ objects d' =
        <[link := with_group (Group_of (objects d) link ++ [p]) lobj]>
          (<[p := mkObject
                    (getUniqueObjectName (names d) (lod_name lod (Name lobj)))
                    (lod_name lod (Name lobj)) []
                    (AppLink (Some o) (placement_for getSubObject (Parents oobj)))]>
             (objects d))
    ∧ warnings d' =
        (warnings d ++
          (if bool_decide (length (Parents oobj) ≠ 1)
           then ["Wrong object type. " +:+ Name oobj +:+ ".Parents has more than one entry"]
           else []))%list
    ∧ touched d' =
        (touched d ++ [(p, "Label"); (p, "LinkPlacement"); (p, "LinkedObject");
                       (link, "Group")])%list.
Proof.
  intros Hfresh Hpo H. unfold Robot.new_lod_link in H.
  apply bind_Ok in H as (link_name & d1 & H1 & H).
  apply get_Name_run in H1 as (-> & lobj & Hl & <-).
  apply bind_Ok in H as (p' & d1 & H1 & H).
  injection H1 as <- <-.
  set (q := fresh (dom (objects d))) in *.
  assert (Hq : objects d !! q = None).
  { apply not_elem_of_dom. apply is_fresh. }
  assert (Hlq : link ≠ q) by (intros ->; congruence).
  apply bind_Ok in H as ([] & d1 & H1 & H).
  apply set_Label_run in H1. cbn [objects with_objects] in H1.
  rewrite lookup_insert_eq in H1. destruct H1 as [_ ->].
  cbn [Name Parents data] in H. rewrite insert_insert_eq in H.
  apply bind_Ok in H as (parents & d1 & H1 & H).
  apply get_Parents_run in H1 as (-> & oobj & Ho & <-).
  cbn [objects] in Ho. rewrite lookup_insert_ne in Ho by done.
  apply bind_Ok in H as ([] & d1 & H1 & H).
  set (pobj0 := mkObject _ _ _ (AppLink None _)) in *.
  assert (Hw : (length (Parents oobj) = 1 ∨ warn_bound = true)
               ∧ d1 = mkDocument (<[q := pobj0]> (objects d))
                        (warnings d ++
                           (if bool_decide (length (Parents oobj) ≠ 1)
                            then ["Wrong object type. " +:+ Name oobj
                                  +:+ ".Parents has more than one entry"]
                            else []))%list
                        (touched d ++ [(q, "Label")])%list).
  { case_bool_decide as Hlen.
    - apply bind_Ok in H1 as (o_name & d2 & H2 & H1).
      apply get_Name_run in H2 as (-> & oobj' & Ho' & <-).
      cbn [objects] in Ho'. rewrite lookup_insert_ne in Ho' by done.
      simplify_eq. unfold warn in H1.
      destruct warn_bound; [|discriminate]. injection H1 as <-. auto.
    - injection H1 as <-. split; [left; lia|]. by rewrite app_nil_r. }
  destruct Hw as [Hw ->]. clear H1.
  apply bind_Ok in H as ([] & d1 & H1 & H).
  unfold set_LinkPlacement, bind, get_object in H1. cbn [objects] in H1.
  rewrite lookup_insert_eq in H1. cbn [data pobj0 update] in H1.
  injection H1 as <-. rewrite insert_insert_eq in H.
  apply bind_Ok in H as ([] & d1 & H1 & H).
  unfold setLink, bind, get_object in H1. cbn [objects] in H1.
  rewrite lookup_insert_eq in H1. cbn [data update] in H1.
  injection H1 as <-. rewrite insert_insert_eq in H.
  apply bind_Ok in H as ([] & d1 & H1 & H). injection H1 as <-.
  apply bind_Ok in H as ([] & d1 & H1 & H). injection H as <- <-.
  unfold addObject, bind, get_object in H1. cbn [objects] in H1.
  rewrite lookup_insert_ne, Hl in H1 by done.
  unfold Group_of in Hfresh |- *. rewrite Hl in Hfresh |- *.
  exists lobj, oobj. do 3 (split; [done|]).
  destruct (data lobj) eqn:Hd; try discriminate; cbn [group_refs] in *;
    rewrite bool_decide_eq_false_2 in H1 by done; injection H1 as <-;
    (split; [eauto 10|]); (split; [done|]); unfold with_group; rewrite Hd;
    cbn [objects warnings touched Name Label Parents]; rewrite <- !(assoc_L (++));
    done.
Qed.


(** Whatever its outcome, the step has changed nothing, or has added the
    new object under the label asked for and at most written the link. *)
Lemma new_lod_link_outcome link o lod d r d' :
  new_lod_link link o lod d = (r, d') →
  match objects d !! link with
  | None => d' = d ∧ r = Raise (ReferenceError link)
  | Some lobj =>
      ∃ pobj,
        Label pobj = lod_name lod (Name lobj)
        ∧ Name pobj = getUniqueObjectName (names d) (lod_name lod (Name lobj))
        ∧ ((∃ lobj', r = Ok (fresh (dom (objects d))) ∧ Name lobj' = Name lobj
              ∧ objects d' = <[link := lobj']>
                               (<[fresh (dom (objects d)) := pobj]> (objects d)))
           ∨ (objects d' = <[fresh (dom (objects d)) := pobj]> (objects d)
              ∧ ∃ e, r = Raise e
                  ∧ ((e = ReferenceError o ∧ objects d !! o = None)
                     ∨ (e = NameError "warn" ∧ warn_bound = false
                        ∧ ∀ oobj, objects d !! o = Some oobj →
                                  length (Parents oobj) ≠ 1)
                     ∨ (e = AttributeError "addObject"
                        ∧ ∀ g r v c, data lobj ≠ RosLink g r v c))))
  end.
Proof.
  intros H. unfold Robot.new_lod_link in H.
  apply bind_run in H as [(link_name & d1 & H1 & H)|(e & H1 & ->)].
  2:{ apply get_Name_raise in H1 as (-> & -> & H1). by rewrite H1. }
  apply get_Name_run in H1 as (-> & lobj & Hl & <-). rewrite Hl.
  apply bind_run in H as [(p' & d1 & H1 & H)|(e & H1 & ->)]; [|discriminate].
  injection H1 as <- <-.
  set (q := fresh (dom (objects d))) in *.
  assert (Hq : objects d !! q = None).
  { apply not_elem_of_dom. apply is_fresh. }
  assert (Hlq : link ≠ q) by (intros ->; congruence).
  apply bind_run in H as [([] & d1 & H1 & H)|(e & H1 & ->)];
    apply set_Label_run in H1; cbn [objects with_objects] in H1;
    rewrite lookup_insert_eq in H1; destruct H1 as [? ->]; [|done].
  cbn [Name Parents data] in H. rewrite insert_insert_eq in H.
  set (pobj0 := mkObject _ _ _ (AppLink None _)) in *.
  apply bind_run in H as [(parents & d1 & H1 & H)|(e & H1 & ->)].
  2:{ exists pobj0. split; [done|]. split; [done|]. right.
      apply get_Parents_raise in H1 as (-> & -> & H1).
      split; [done|]. exists (ReferenceError o). split; [done|]. left.
      split; [done|]. cbn [objects] in H1.
      by apply lookup_insert_None in H1 as [? _]. }
  apply get_Parents_run in H1 as (-> & oobj & Ho & <-). cbn [objects] in Ho.
  apply bind_run in H as [([] & d1 & H1 & H)|(e & H1 & ->)].
  2:{ exists pobj0. split; [done|]. split; [done|]. right.
      case_bool_decide as Hlen; [|discriminate].
      apply bind_run in H1 as [(o_name & d2 & H2 & H1)|(e' & H2 & [= ->])].
      - apply get_Name_run in H2 as (-> & oobj' & Ho' & <-).
        unfold warn in H1. destruct warn_bound; [discriminate|].
        injection H1 as <- <-. split; [done|]. eexists. split; [done|].
        right. left. split; [done|]. split; [done|].
        intros oobj2 Ho2. destruct (decide (o = q)) as [->|Hne]; [congruence|].
        rewrite lookup_insert_ne in Ho by done. congruence.
      - apply get_Name_raise in H2 as (-> & -> & H2).
        cbn [objects] in H2. congruence. }
  assert (Hd1 : objects d1 = <[q := pobj0]> (objects d)).
  { case_bool_decide as Hlen.
    - apply bind_Ok in H1 as (o_name & d2 & H2 & H1).
      apply get_Name_run in H2 as (-> & _). unfold warn in H1.
      destruct warn_bound; [|discriminate]. by injection H1 as <-.
    - by injection H1 as <-. }
  clear H1.
  apply bind_run in H as [([] & d2 & H1 & H)|(e & H1 & ->)].
  2:{ unfold set_LinkPlacement, bind, get_object in H1. rewrite Hd1 in H1.
      rewrite lookup_insert_eq in H1. discriminate. }
  unfold set_LinkPlacement, bind, get_object in H1. rewrite Hd1 in H1.
  rewrite lookup_insert_eq in H1. cbn [data pobj0 update] in H1.
  injection H1 as <-. rewrite Hd1, insert_insert_eq in H.
  apply bind_run in H as [([] & d2 & H1 & H)|(e & H1 & ->)].
  2:{ unfold setLink, bind, get_object in H1. cbn [objects] in H1.
      rewrite lookup_insert_eq in H1. discriminate. }
  unfold setLink, bind, get_object in H1. cbn [objects] in H1.
  rewrite lookup_insert_eq in H1. cbn [data update] in H1.
  injection H1 as <-. rewrite insert_insert_eq in H.
  set (pobj := mkObject _ _ _ (AppLink (Some o) _)) in *.
  exists pobj. split; [done|]. split; [done|].
  apply bind_run in H as [([] & d2 & H1 & H)|(e & H1 & ->)]; [|discriminate].
  injection H1 as <-.
  apply bind_run in H as [([] & d2 & H1 & H)|(e & H1 & ->)].
  - injection H as <- <-. unfold addObject, bind, get_object in H1.
    cbn [objects] in H1. rewrite lookup_insert_ne, Hl in H1 by done.
    cbv beta delta [ret raise update] in H1.
    destruct (data lobj) eqn:Hd; try discriminate;
      case_bool_decide; injection H1 as <-; cbn [objects]; left.
    + exists lobj. split; [done|]. split; [done|].
      by rewrite (insert_id _ link lobj) by (by rewrite lookup_insert_ne).
    + eexists. split; [done|]. split; [|done]. done.
    + exists lobj. split; [done|]. split; [done|].
      by rewrite (insert_id _ link lobj) by (by rewrite lookup_insert_ne).
    + eexists. split; [done|]. split; [|done]. done.
  - right. unfold addObject, bind, get_object in H1.
    cbn [objects] in H1. rewrite lookup_insert_ne, Hl in H1 by done.
    cbv beta delta [ret raise update] in H1.
    destruct (data lobj) eqn:Hd; try (case_bool_decide; discriminate);
      injection H1 as <- <-; (split; [done|]); eexists; (split; [done|]);
      right; right; (split; [done|]); intros; discriminate.
Qed.

End step.

(** The step as the module stands, [warn] not being bound, on an object
    whose parents are not one: the new object is made and labelled, then
    the call of [warn] raises. *)
Section unbound.

Variable getUniqueObjectName : gset string → string → string.
Variable getSubObject : oid → string → Placement.

Lemma new_lod_link_unbound link o lod d lobj oobj :
  objects d !! link = Some lobj → objects d !! o = Some oobj →
  length (Parents oobj) ≠ 1 →
  Robot.new_lod_link getUniqueObjectName getSubObject false link o lod d
  = (Raise (NameError "warn"),
     mkDocument
       (<[fresh (dom (objects d)) :=
            mkObject (getUniqueObjectName (names d) (lod_name lod (Name lobj)))
              (lod_name lod (Name lobj)) [] (AppLink None Placement_identity)]>
          (objects d))
       (warnings d) (touched d ++ [(fresh (dom (objects d)), "Label")])).
Proof.
  intros Hl Ho Hlen.
  assert (Hq : objects d !! fresh (dom (objects d)) = None).
  { apply not_elem_of_dom, is_fresh. }
  assert (Hoq : o ≠ fresh (dom (objects d))) by congruence.
  cbv beta delta [Robot.new_lod_link bind get_Name get_object ret].
  rewrite Hl. cbv beta iota zeta delta [addObject_AppLink set_Label bind get_object update with_objects].
  cbn [objects]. rewrite lookup_insert_eq. cbn [Name Parents data warnings touched objects].
  rewrite insert_insert_eq.
  cbv beta iota zeta delta [get_Parents bind get_object ret].
  cbn [objects]. rewrite lookup_insert_ne, Ho by done.
  rewrite bool_decide_eq_true_2 by done.
  cbv beta iota zeta delta [get_Name bind get_object ret].
  cbn [objects]. rewrite lookup_insert_ne, Ho by done. reflexivity.
Qed.

End unbound.


(** ** Well-formedness, pointwise *)

Lemma unique_names_spec m :
  unique_names m ↔
  ∀ x y ox oy, m !! x = Some ox → m !! y = Some oy → Name ox = Name oy → x = y.
Proof.
  unfold unique_names. split.
  - intros H x y ox oy Hx Hy. exact (H x ox Hx y oy Hy).
  - intros H x ox Hx y oy Hy. eauto.
Qed.

Lemma closed_spec m :
  closed m ↔
  ∀ x ox p, m !! x = Some ox →
    p ∈ group_refs (data ox) ∨ p ∈ source_refs (data ox) → is_Some (m !! p).
Proof.
  unfold closed. split.
  - intros H x ox p Hx Hp. specialize (H x ox Hx). cbv beta in H.
    rewrite Forall_forall in H. apply H. by apply elem_of_app.
  - intros H x ox Hx. cbv beta. apply Forall_forall. intros p Hp.
    apply elem_of_app in Hp. eauto.
Qed.

Lemma one_owner_spec m :
  one_owner m ↔
  ∀ x y ox oy p, m !! x = Some ox → m !! y = Some oy →
    p ∈ group_refs (data ox) → p ∈ group_refs (data oy) → x = y.
Proof.
  unfold one_owner. split.
  - intros H x y ox oy p Hx Hy Hpx Hpy. specialize (H x ox Hx y oy Hy).
    cbv beta in H. rewrite Forall_forall in H. by apply (H p).
  - intros H x ox Hx y oy Hy. cbv beta. apply Forall_forall. eauto.
Qed.

Lemma sources_external_spec m :
  sources_external m ↔
  ∀ x y ox oy p, m !! x = Some ox → m !! y = Some oy →
    p ∈ source_refs (data ox) → p ∉ link_refs (data oy).
Proof.
  unfold sources_external. split.
  - intros H x y ox oy p Hx Hy Hp. specialize (H x ox Hx y oy Hy).
    cbv beta in H. rewrite Forall_forall in H. by apply (H p).
  - intros H x ox Hx y oy Hy. cbv beta. apply Forall_forall. eauto.
Qed.

Lemma proxies_only_spec m :
  proxies_only m ↔
  ∀ x ox p, m !! x = Some ox → p ∈ link_refs (data ox) →
    is_Some (LinkPlacement_of m p).
Proof.
  unfold proxies_only. split.
  - intros H x ox p Hx Hp. specialize (H x ox Hx). cbv beta in H.
    rewrite Forall_forall in H. by apply H.
  - intros H x ox Hx. cbv beta. apply Forall_forall. eauto.
Qed.

Lemma elem_of_names d name :
  name ∈ names d ↔ ∃ x obj, objects d !! x = Some obj ∧ Name obj = name.
Proof.
  unfold names. rewrite elem_of_map_img. split.
  - intros (x & Hx). rewrite lookup_fmap in Hx.
    destruct (objects d !! x) as [obj|] eqn:E; simplify_eq/=. eauto.
  - intros (x & obj & Hx & <-). exists x. by rewrite lookup_fmap, Hx.
Qed.

Lemma link_refs_group dt p : p ∈ link_refs dt → p ∈ group_refs dt.
Proof. destruct dt; simpl; set_solver. Qed.

(** ** The document with one more proxy *)

Section add_proxy.

Context (m : gmap positive DocumentObject) (link p : oid)
  (lobj pobj : DocumentObject) (g r v c : list oid) (o : oid) (pl : Placement).
Hypothesis Hlink : m !! link = Some lobj.
Hypothesis Hdata : data lobj = RosLink g r v c.
Hypothesis Hp : m !! p = None.
Hypothesis Hpobj : data pobj = AppLink (Some o) pl.

Definition add_proxy : gmap positive DocumentObject :=
  <[link := with_group (g ++ [p]) lobj]> (<[p := pobj]> m).

Lemma add_proxy_link_ne : link ≠ p.
Proof using All. intros ->. congruence. Qed.

Lemma add_proxy_lookup x obj :
  add_proxy !! x = Some obj ↔
  (x = link ∧ obj = with_group (g ++ [p]) lobj)
  ∨ (x = p ∧ obj = pobj)
  ∨ (x ≠ link ∧ x ≠ p ∧ m !! x = Some obj).
Proof using All.
  pose proof add_proxy_link_ne. unfold add_proxy.
  destruct (decide (x = link)) as [->|]; [rewrite lookup_insert_eq; naive_solver|].
  rewrite lookup_insert_ne by done.
  destruct (decide (x = p)) as [->|]; [rewrite lookup_insert_eq; naive_solver|].
  rewrite lookup_insert_ne by done. naive_solver.
Qed.

Lemma add_proxy_old x obj :
  m !! x = Some obj → ∃ obj', add_proxy !! x = Some obj'
    ∧ Name obj' = Name obj ∧ Label obj' = Label obj ∧ Parents obj' = Parents obj
    ∧ source_refs (data obj') = source_refs (data obj)
    ∧ (x ≠ link → obj' = obj).
Proof using All.
  intros Hx. destruct (decide (x = link)) as [->|Hne].
  - exists (with_group (g ++ [p]) lobj). split.
    + apply add_proxy_lookup. auto.
    + simplify_eq. unfold with_group. rewrite Hdata. done.
  - exists obj. split; [|done]. apply add_proxy_lookup.
    right. right. split; [done|]. split; [|done]. intros ->. congruence.
Qed.

Lemma add_proxy_Group_link : Group_of add_proxy link = g ++ [p].
Proof using All.
  unfold Group_of, add_proxy. rewrite lookup_insert_eq.
  unfold with_group. by rewrite Hdata.
Qed.

Lemma add_proxy_Group_other x : x ≠ link → Group_of add_proxy x = Group_of m x.
Proof using All.
  intros Hx. unfold Group_of, add_proxy. rewrite lookup_insert_ne by done.
  destruct (decide (x = p)) as [->|].
  - rewrite lookup_insert_eq, Hp, Hpobj. done.
  - by rewrite lookup_insert_ne.
Qed.

Lemma add_proxy_LinkedObject_new : LinkedObject_of add_proxy p = Some o.
Proof using All.
  pose proof add_proxy_link_ne.
  unfold LinkedObject_of, add_proxy.
  rewrite lookup_insert_ne, lookup_insert_eq, Hpobj by done. done.
Qed.

Lemma add_proxy_LinkedObject_old x :
  x ≠ p → LinkedObject_of add_proxy x = LinkedObject_of m x.
Proof using All.
  intros Hx. unfold LinkedObject_of, add_proxy.
  destruct (decide (x = link)) as [->|].
  - rewrite lookup_insert_eq, Hlink. unfold with_group. by rewrite Hdata.
  - by rewrite !lookup_insert_ne.
Qed.

Lemma add_proxy_wf :
  (∀ x obj, m !! x = Some obj → Name obj ≠ Name pobj) →
  wf m → wf add_proxy.
Proof using All.
  intros Hname (Hn & Hc & Ho & Hpx & Hs).
  rewrite unique_names_spec in Hn. rewrite closed_spec in Hc.
  rewrite one_owner_spec in Ho. rewrite proxies_only_spec in Hpx.
  rewrite sources_external_spec in Hs.
  pose proof add_proxy_link_ne as Hlp.
  assert (Hdom : ∀ x, is_Some (m !! x) → is_Some (add_proxy !! x)).
  { intros x [obj Hx]. destruct (add_proxy_old x obj Hx) as (? & ? & _). eauto. }
  assert (Hgrp : ∀ x obj q, add_proxy !! x = Some obj → q ∈ group_refs (data obj) →
            (x = link ∧ q = p) ∨
            (q ≠ p ∧ ∃ obj0, m !! x = Some obj0 ∧ q ∈ group_refs (data obj0)
                             ∧ Name obj0 = Name obj
                             ∧ (q ∈ link_refs (data obj) → q ∈ link_refs (data obj0)))).
  { intros x obj q Hx Hq. apply add_proxy_lookup in Hx as [[-> ->]|[[-> ->]|(?&?&Hx)]].
    - unfold with_group in Hq. rewrite Hdata in Hq. cbn in Hq.
      apply elem_of_app in Hq as [Hq|Hq%list_elem_of_singleton]; [|by left].
      right. split.
      + intros ->. destruct (Hc link lobj p Hlink) as [? ?]; [|congruence].
        left. by rewrite Hdata.
      + exists lobj. rewrite Hdata. cbn. unfold with_group. rewrite Hdata. cbn.
        done.
    - rewrite Hpobj in Hq. by apply elem_of_nil in Hq.
    - right. split; [|by eauto].
      intros ->. destruct (Hc x obj p Hx) as [? ?]; [by left|congruence]. }
  assert (Hsrc : ∀ x obj q, add_proxy !! x = Some obj → q ∈ source_refs (data obj) →
            q ≠ p ∧ ∃ obj0, m !! x = Some obj0 ∧ q ∈ source_refs (data obj0)).
  { intros x obj q Hx Hq. apply add_proxy_lookup in Hx as [[-> ->]|[[-> ->]|(?&?&Hx)]].
    - unfold with_group in Hq. rewrite Hdata in Hq. cbn in Hq. split.
      + intros ->. destruct (Hc link lobj p Hlink) as [? ?]; [|congruence].
        right. by rewrite Hdata.
      + exists lobj. by rewrite Hdata.
    - rewrite Hpobj in Hq. by apply elem_of_nil in Hq.
    - split; [|by eauto].
      intros ->. destruct (Hc x obj p Hx) as [? ?]; [by right|congruence]. }
  split; [|split; [|split; [|split]]].
  - apply unique_names_spec. intros x y ox oy Hx Hy Hxy.
    apply add_proxy_lookup in Hx as [[-> ->]|[[-> ->]|(?&?&Hx)]];
    apply add_proxy_lookup in Hy as [[-> ->]|[[-> ->]|(?&?&Hy)]];
      try done; try (by destruct (Hname _ _ Hlink));
      try (by edestruct Hname; [eassumption|]).
    + apply (Hn _ _ _ _ Hlink Hy). done.
    + apply (Hn _ _ _ _ Hx Hlink). done.
    + by apply (Hn _ _ _ _ Hx Hy).
  - apply closed_spec. intros x ox q Hx [Hq|Hq].
    + destruct (Hgrp _ _ _ Hx Hq) as [[-> ->]|(_ & obj0 & Hx0 & Hq0 & _)].
      * exists pobj. apply add_proxy_lookup. auto.
      * apply Hdom. apply (Hc _ _ _ Hx0). by left.
    + destruct (Hsrc _ _ _ Hx Hq) as (_ & obj0 & Hx0 & Hq0).
      apply Hdom. apply (Hc _ _ _ Hx0). by right.
  - apply one_owner_spec. intros x y ox oy q Hx Hy Hqx Hqy.
    destruct (Hgrp _ _ _ Hx Hqx) as [[-> ->]|(Hne & ox0 & Hx0 & Hqx0 & _)];
    destruct (Hgrp _ _ _ Hy Hqy) as [[-> ?]|(Hne' & oy0 & Hy0 & Hqy0 & _)];
      try done. by apply (Ho _ _ _ _ q Hx0 Hy0).
  - apply proxies_only_spec. intros x ox q Hx Hq.
    destruct (Hgrp _ _ _ Hx (link_refs_group _ _ Hq))
      as [[-> ->]|(Hne & ox0 & Hx0 & _ & _ & Hq0)].
    + unfold LinkPlacement_of, add_proxy.
      rewrite lookup_insert_ne, lookup_insert_eq, Hpobj by done. eauto.
    + destruct (Hpx _ _ _ Hx0 (Hq0 Hq)) as [pl' Hpl]. exists pl'.
      unfold LinkPlacement_of in Hpl |- *.
      destruct (m !! q) as [qobj|] eqn:Eq; [|done].
      assert (q ≠ link).
      { intros ->. rewrite Hlink in Eq. injection Eq as <-.
        by rewrite Hdata in Hpl. }
      unfold add_proxy. by rewrite !lookup_insert_ne, Eq.
  - apply sources_external_spec. intros x y ox oy q Hx Hy Hqx Hqy.
    destruct (Hsrc _ _ _ Hx Hqx) as (Hne & ox0 & Hx0 & Hqx0).
    destruct (Hgrp _ _ _ Hy (link_refs_group _ _ Hqy))
      as [[-> ->]|(_ & oy0 & Hy0 & Hqy0 & _)]; [done|].
    apply add_proxy_lookup in Hy as [[-> ->]|[[-> ->]|(?&?&Hy)]].
    + unfold with_group in Hqy. rewrite Hdata in Hqy. cbn in Hqy.
      apply elem_of_app in Hqy as [Hqy|Hqy%list_elem_of_singleton]; [|done].
      apply (Hs _ _ _ _ q Hx0 Hlink Hqx0). by rewrite Hdata.
    + rewrite Hpobj in Hqy. by apply elem_of_nil in Hqy.
    + by apply (Hs _ _ _ _ q Hx0 Hy Hqx0).
Qed.

End add_proxy.

(** ** The creation of proxies *)

Lemma stable_refl m : stable m m.
Proof. by intros L o a. Qed.

Lemma stable_trans m1 m2 m3 : stable m1 m2 → stable m2 m3 → stable m1 m3.
Proof. intros H1 H2 L o a H. by apply H2, H1. Qed.

Lemma is_link_true m x :
  is_link m x = true ↔ ∃ obj g r v c, m !! x = Some obj ∧ data obj = RosLink g r v c.
Proof.
  unfold is_link. split.
  - destruct (m !! x) as [obj|]; [|done].
    destruct (data obj) eqn:E; try done. intros _. eauto 10.
  - by intros (obj & g & r & v & c & -> & ->).
Qed.

Section creation.

Variable getUniqueObjectName : gset string → string → string.
Variable getSubObject : oid → string → Placement.
Variable warn_bound : bool.
Hypothesis host_fresh : fresh_names getUniqueObjectName.

Variable m0 : gmap positive DocumentObject.
Variable dem : oid → oid → Prop.
Hypothesis dem_link : ∀ L o, dem L o → is_link m0 L = true.
Hypothesis dem_source :
  ∀ L o, dem L o → ∃ obj, m0 !! L = Some obj ∧ o ∈ source_refs (data obj).

Record inv (m : gmap positive DocumentObject) (A : list oid) : Prop := {
  inv_wf : wf m;
  inv_old : ∀ x obj0, m0 !! x = Some obj0 → ∃ obj, m !! x = Some obj ∧ grown m0 obj0 obj;
  inv_new : ∀ x, m0 !! x = None → is_Some (m !! x) → x ∈ A;
  inv_all : ∀ a, a ∈ A → ∃ L o, dem L o ∧ find_link m (Group_of m L) o = Some a
}.

Lemma inv_link m A L o :
  inv m A → dem L o →
  ∃ obj0 obj g n r v c,
    m0 !! L = Some obj0 ∧ m !! L = Some obj ∧ data obj0 = RosLink g r v c
    ∧ data obj = RosLink (g ++ n) r v c ∧ Name obj = Name obj0
    ∧ o ∈ r ++ v ++ c.
Proof.
  intros Hinv Hd. pose proof (dem_link _ _ Hd) as Hl.
  apply is_link_true in Hl as (obj0 & g & r & v & c & H0 & Hd0).
  destruct (inv_old _ _ Hinv _ _ H0) as (obj & Hm & Hn & _ & _ & Hg).
  rewrite Hd0 in Hg. destruct Hg as (n & Hg & _).
  destruct (dem_source _ _ Hd) as (obj0' & H0' & Ho). simplify_eq.
  rewrite Hd0 in Ho. exists obj0, obj, g, n, r, v, c. done.
Qed.

Lemma inv_found m A L o a :
  inv m A → dem L o → find_link m (Group_of m L) o = Some a → inv m (A ++ [a]).
Proof.
  intros [Hwf Hold Hnew Hall] Hd Hf. split; [done|done| |].
  - intros x H0 Hx. apply elem_of_app. left. by apply Hnew.
  - intros b [Hb|Hb%list_elem_of_singleton]%elem_of_app; [by apply Hall|].
    subst. eauto.
Qed.

(** The step of the loop that makes a proxy. *)
Lemma inv_step m A L o p lobj pobj pl :
  inv m A → dem L o →
  m !! L = Some lobj → m !! p = None →
  data pobj = AppLink (Some o) pl →
  Name pobj = getUniqueObjectName (names (mkDocument m [] [])) (Label pobj) →
  find_link m (Group_of m L) o = None →
  let m' := <[L := with_group (Group_of m L ++ [p]) lobj]> (<[p := pobj]> m) in
  inv m' (A ++ [p]) ∧ stable m m' ∧ find_link m' (Group_of m' L) o = Some p.
Proof.
  intros Hinv Hd Hl Hp Hpobj Hname Hnone m'.
  destruct (inv_link _ _ _ _ Hinv Hd)
    as (obj0 & lobj' & g & n & r & v & c & H0 & Hl' & Hd0 & Hdl & Hnm & Ho).
  simplify_eq.
  assert (HG : Group_of m L = g ++ n).
  { unfold Group_of. by rewrite Hl, Hdl. }
  rewrite HG in Hnone. unfold m'. rewrite HG.
  change (<[L:=_]> _) with (add_proxy m L p lobj pobj (g ++ n)).
  clear m'. set (m' := add_proxy _ _ _ _ _ _).
  pose proof (add_proxy_lookup m L p lobj pobj (g ++ n) r v c o pl Hl Hdl Hp Hpobj)
    as Hlook. fold m' in Hlook.
  destruct Hinv as [Hwf Hold Hnew Hall].
  pose proof Hwf as (Hn & Hc & Hown & Hs).
  rewrite closed_spec in Hc.
  assert (Hmem : ∀ x q, q ∈ Group_of m x → q ≠ p).
  { intros x q Hq ->. unfold Group_of in Hq.
    destruct (m !! x) as [obj|] eqn:Hx; [|by apply elem_of_nil in Hq].
    destruct (Hc x obj p Hx) as [? ?]; [by left|congruence]. }
  assert (Hlinked : ∀ x q, q ∈ Group_of m x →
            LinkedObject_of m' q = LinkedObject_of m q).
  { intros x q Hq. eapply add_proxy_LinkedObject_old; eauto. }
  assert (Hstable : stable m m').
  { intros L' o' a Hf. destruct (decide (L' = L)) as [->|Hne].
    - unfold m'. erewrite add_proxy_Group_link by eauto. rewrite HG in Hf.
      eapply find_link_stable; [|done]. intros q Hq.
      apply (Hlinked L). by rewrite HG.
    - unfold m'. erewrite add_proxy_Group_other by eauto.
      rewrite <- (app_nil_r (Group_of m L')).
      eapply find_link_stable; [|done]. intros q Hq. by apply (Hlinked L'). }
  assert (Hfound : find_link m' (Group_of m' L) o = Some p).
  { unfold m'. erewrite add_proxy_Group_link by eauto.
    eapply find_link_snoc; [|done|].
    - intros q Hq. apply (Hlinked L). by rewrite HG.
    - eapply add_proxy_LinkedObject_new; eauto. }
  split; [|done]. split.
  - eapply add_proxy_wf; eauto. intros x obj Hx Heq.
    apply (host_fresh (names (mkDocument m [] [])) (Label pobj)).
    rewrite <- Hname. apply elem_of_names. exists x, obj. by rewrite Heq.
  - intros x obj0' Hx0. destruct (Hold _ _ Hx0) as (obj & Hx & Hg).
    destruct (decide (x = L)) as [->|Hne].
    + simplify_eq. exists (with_group ((g ++ n) ++ [p]) lobj). split.
      * apply Hlook. auto.
      * destruct Hg as (? & ? & ? & Hg). unfold grown, with_group.
        rewrite Hdl, Hd0. cbn. do 3 (split; [done|]).
        rewrite Hd0 in Hg. destruct Hg as (n' & Hg & Hfa).
        rewrite Hdl in Hg. injection Hg as Hg%app_inv_head. subst n'.
        exists (n ++ [p]). split; [by rewrite (assoc_L (++))|].
        apply Forall_app. split; [done|]. apply Forall_singleton.
        destruct (m0 !! p) as [pobj0|] eqn:E; [|done].
        destruct (Hold _ _ E) as (? & ? & _). congruence.
    + exists obj. split; [|done]. apply Hlook. right. right.
      split; [done|]. split; [|done]. intros ->. congruence.
  - intros x Hx0 [obj Hx]. apply elem_of_app.
    apply Hlook in Hx.
    destruct Hx as [[-> _]|[[-> _]|(_ & _ & Hx)]].
    + congruence.
    + right. by left.
    + left. apply Hnew; eauto.
  - intros a [Ha|Ha%list_elem_of_singleton]%elem_of_app.
    + destruct (Hall _ Ha) as (L' & o' & Hd' & Hf'). exists L', o'.
      split; [done|]. by apply Hstable.
    + subst. eauto.
Qed.

End creation.

Lemma touched_by_refl d P : touched_by d d P.
Proof. exists []. split; [by rewrite app_nil_r|]. by intros x prop ?%elem_of_nil. Qed.

Lemma touched_by_trans d1 d2 d3 P :
  touched_by d1 d2 P → touched_by d2 d3 P → touched_by d1 d3 P.
Proof.
  intros (n1 & H1 & P1) (n2 & H2 & P2). exists (n1 ++ n2). split.
  - by rewrite H2, H1, (assoc_L (++)).
  - intros x prop [?|?]%elem_of_app; eauto.
Qed.

Lemma is_link_not_robot m x : is_link m x = true → is_robot m x = false.
Proof.
  unfold is_link, is_robot. destruct (m !! x) as [obj|]; [|done].
  by destruct (data obj).
Qed.

Section loops.

Variable getUniqueObjectName : gset string → string → string.
Variable getSubObject : oid → string → Placement.
Variable warn_bound : bool.
Hypothesis host_fresh : fresh_names getUniqueObjectName.

Variable m0 : gmap positive DocumentObject.
Variable dem : oid → oid → Prop.
Hypothesis dem_link : ∀ L o, dem L o → is_link m0 L = true.
Hypothesis dem_source :
  ∀ L o, dem L o → ∃ obj, m0 !! L = Some obj ∧ o ∈ source_refs (data obj).

Abbreviation inv := (inv m0 dem).
Abbreviation quiet := (λ x : oid, is_robot m0 x = false).
Abbreviation _add_links_lod_from :=
  (_add_links_lod_from getUniqueObjectName getSubObject warn_bound).
Abbreviation _add_links_lod :=
  (_add_links_lod getUniqueObjectName getSubObject warn_bound).
Abbreviation add_links := (add_links getUniqueObjectName getSubObject warn_bound).

(** Every object of the list has its proxy among [added]. *)
Definition covered (m : gmap positive DocumentObject) (link : oid)
  (objs added : list oid) : Prop :=
  ∀ o, o ∈ objs → ∃ a, a ∈ added ∧ find_link m (Group_of m link) o = Some a.

Lemma add_links_lod_from_inv link objs lod all acc d res d' :
  inv (objects d) (all ++ acc) → (∀ o, o ∈ objs → dem link o) →
  _add_links_lod_from link objs lod acc d = (Ok res, d') →
  inv (objects d') (all ++ res) ∧ stable (objects d) (objects d')
  ∧ touched_by d d' quiet
  ∧ ∃ added, res = acc ++ added ∧ covered (objects d') link objs added.
Proof.
  revert acc d. induction objs as [|o objs IH]; intros acc d Hinv Hdem H.
  - injection H as <- <-. split; [done|]. split; [apply stable_refl|].
    split; [apply touched_by_refl|].
    exists []. split; [by rewrite app_nil_r|]. by intros o ?%elem_of_nil.
  - cbn [Robot._add_links_lod_from] in H.
    apply bind_Ok in H as (found & d1 & H1 & H).
    apply existing_link_run in H1 as [-> H1].
    destruct (H1 _ eq_refl) as [Hfound _]. clear H1.
    assert (Hd : dem link o) by (apply Hdem; left).
    assert (Hdem' : ∀ o', o' ∈ objs → dem link o')
      by (intros o' Ho'; apply Hdem; by right).
    destruct found as [l|].
    + symmetry in Hfound.
      apply IH in H as (Hinv' & Hst & Htb & added & -> & Hcov); [|..|done].
      * split; [done|]. split; [done|]. split; [done|]. exists ([l] ++ added).
        split; [by rewrite (assoc_L (++))|].
        intros o' [->|Ho']%elem_of_cons.
        -- exists l. split; [by left|]. by apply Hst.
        -- destruct (Hcov _ Ho') as (a & Ha & Hf). exists a.
           split; [by right|done].
      * rewrite (assoc_L (++)). by eapply inv_found.
    + symmetry in Hfound.
      apply bind_Ok in H as (p & d1 & H1 & H).
      destruct (inv_link _ _ dem_link dem_source _ _ _ _ Hinv Hd)
        as (obj0 & lobj & g & n & r & v & c & H0 & Hl & Hd0 & Hdl & Hnm & Ho).
      pose proof (inv_wf _ _ _ _ Hinv) as (_ & Hc & _).
      rewrite closed_spec in Hc.
      assert (Hfr : objects d !! fresh (dom (objects d)) = None).
      { apply not_elem_of_dom, is_fresh. }
      apply new_lod_link_run in H1
        as (lobj' & oobj & Hl' & Hoo & -> & _ & _ & Hm1 & _ & Ht1).
      * rewrite Hl in Hl'. injection Hl' as <-.
        set (pobj := mkObject _ _ _ _) in Hm1.
        destruct (inv_step getUniqueObjectName host_fresh m0 dem dem_link
                    dem_source (objects d) (all ++ acc) link o
                    (fresh (dom (objects d))) lobj pobj _
                    Hinv Hd Hl Hfr eq_refl eq_refl Hfound)
          as (Hinv1 & Hst1 & Hf1).
        rewrite <- Hm1 in Hinv1, Hst1, Hf1.
        apply IH in H as (Hinv' & Hst & Htb & added & -> & Hcov); [|..|done].
        -- split; [done|]. split; [by eapply stable_trans|].
           split.
           { eapply touched_by_trans; [|done]. eexists. split; [done|].
             intros x prop Hx.
             assert (x = fresh (dom (objects d)) ∨ x = link) as [->| ->]
               by set_solver.
             - unfold is_robot.
               destruct (m0 !! fresh (dom (objects d))) as [fobj|] eqn:E; [|done].
               destruct (inv_old _ _ _ _ Hinv _ _ E) as (? & ? & _). congruence.
             - apply is_link_not_robot. by eapply dem_link. }
           eexists ([_] ++ added). split; [by rewrite (assoc_L (++))|].
           intros o' [->|Ho']%elem_of_cons.
           ++ eexists. split; [by left|]. by apply Hst.
           ++ destruct (Hcov _ Ho') as (a & Ha & Hf). exists a.
              split; [by right|done].
        -- by rewrite (assoc_L (++)).
      * intros Hin. unfold Group_of in Hin. rewrite Hl in Hin.
        destruct (Hc link lobj (fresh (dom (objects d))) Hl) as [? ?];
          [by left|congruence].
      * intros Heq. rewrite Heq in Hfr.
        destruct (Hc link lobj o Hl) as [? Ho']; [|congruence].
        right. by rewrite Hdl.
Qed.

Lemma add_links_lod_inv link objs lod all d res d' :
  inv (objects d) all → (∀ o, o ∈ objs → dem link o) →
  _add_links_lod link objs lod d = (Ok res, d') →
  inv (objects d') (all ++ res) ∧ stable (objects d) (objects d')
  ∧ touched_by d d' quiet
  ∧ covered (objects d') link objs res.
Proof.
  intros Hinv Hdem H. unfold Robot._add_links_lod in H.
  apply bind_Ok in H as (doc & d1 & H1 & H).
  apply get_object_run in H1 as [-> _].
  eapply (add_links_lod_from_inv _ _ _ all []) in H
    as (Hinv' & Hst & Htb & added & -> & Hcov); [done| |done].
  by rewrite app_nil_r.
Qed.

(** The three readers of the sources of a link. *)
Definition reads (get : oid → M (list oid)) (field : ObjectData → list oid) : Prop :=
  (∀ l d objs d', get l d = (Ok objs, d') →
     d' = d ∧ ∃ obj, objects d !! l = Some obj ∧ objs = field (data obj))
  ∧ (∀ g g' r v c, field (RosLink g r v c) = field (RosLink g' r v c)).

Lemma add_links_inv get field lod links all d res d' :
  reads get field →
  (∀ l obj o, l ∈ links → m0 !! l = Some obj → o ∈ field (data obj) → dem l o) →
  (∀ l, l ∈ links → is_link m0 l = true) →
  inv (objects d) all →
  add_links get lod links all d = (Ok res, d') →
  inv (objects d') res ∧ stable (objects d) (objects d')
  ∧ touched_by d d' quiet
  ∧ ∃ added, res = all ++ added
      ∧ ∀ l obj, l ∈ links → m0 !! l = Some obj →
          covered (objects d') l (field (data obj)) added.
Proof.
  intros [Hget Hfield] Hdem Hlinks. revert all d.
  induction links as [|l links IH]; intros all d Hinv H.
  - injection H as <- <-. split; [done|]. split; [apply stable_refl|].
    split; [apply touched_by_refl|].
    exists []. split; [by rewrite app_nil_r|]. by intros l obj ?%elem_of_nil.
  - cbn [Robot.add_links] in H.
    apply bind_Ok in H as (objs & d1 & H1 & H).
    apply Hget in H1 as (-> & lobj & Hl & ->).
    apply bind_Ok in H as (added1 & d1 & H1 & H).
    assert (Hlk : is_link m0 l = true) by (apply Hlinks; left).
    apply is_link_true in Hlk as (obj0 & g & r & v & c & H0 & Hd0).
    destruct (inv_old _ _ _ _ Hinv _ _ H0) as (lobj' & Hl' & _ & _ & _ & Hg).
    simplify_eq. rewrite Hd0 in Hg. destruct Hg as (n & Hg & _).
    assert (Hf : field (data lobj) = field (data obj0)).
    { rewrite Hg, Hd0. apply Hfield. }
    apply add_links_lod_inv with (all := all) in H1
      as (Hinv1 & Hst1 & Htb1 & Hcov1); [|done|].
    + apply IH in H as (Hinv' & Hst & Htb & added & -> & Hcov); [| | |done].
      * split; [done|]. split; [by eapply stable_trans|].
        split; [by eapply touched_by_trans|].
        exists (added1 ++ added). split; [by rewrite (assoc_L (++))|].
        intros l' obj' [->|Hl']%elem_of_cons Hobj'.
        -- simplify_eq. intros o Ho. rewrite <- Hf in Ho.
           destruct (Hcov1 _ Ho) as (a & Ha & Hfa). exists a.
           split; [apply elem_of_app; by left|]. by apply Hst.
        -- intros o Ho. destruct (Hcov l' obj' Hl' Hobj' o Ho) as (a & Ha & Hfa).
           exists a. split; [apply elem_of_app; by right|done].
      * intros l' obj' o Hl'. apply Hdem. by right.
      * intros l' Hl'. apply Hlinks. by right.
    + intros o Ho. rewrite Hf in Ho. eapply Hdem; [by left|done|done].
Qed.

End loops.

(** ** The removal of proxies *)

Lemma remove_ids_lookup gone m x :
  remove_ids gone m !! x =
  if decide (x ∈ gone) then None else scrub gone <$> m !! x.
Proof.
  unfold remove_ids. rewrite lookup_fmap.
  destruct (decide (x ∈ gone)) as [Hx|Hx].
  - rewrite map_lookup_filter_None_2; [done|]. right. intros obj _. cbn. auto.
  - destruct (m !! x) as [obj|] eqn:E.
    + by rewrite (map_lookup_filter_Some_2 _ _ _ obj).
    + rewrite map_lookup_filter_None_2; [done|]. by left.
Qed.

Lemma keep_keep g1 g2 l : keep g2 (keep g1 l) = keep (g1 ∪ g2) l.
Proof.
  unfold keep. rewrite list_filter_filter. apply list_filter_iff.
  intros x. set_solver.
Qed.

Lemma keep_ref_keep_ref g1 g2 r : keep_ref g2 (keep_ref g1 r) = keep_ref (g1 ∪ g2) r.
Proof.
  destruct r as [o|]; [|done]. unfold keep_ref.
  repeat case_bool_decide; set_solver.
Qed.

Lemma scrub_scrub g1 g2 obj : scrub g2 (scrub g1 obj) = scrub (g1 ∪ g2) obj.
Proof.
  unfold scrub. cbn. f_equal.
  - rewrite list_filter_filter. apply list_filter_iff. intros x. set_solver.
  - destruct (data obj); cbn; by rewrite ?keep_keep, ?keep_ref_keep_ref.
Qed.

Lemma remove_ids_union g1 g2 m :
  remove_ids g2 (remove_ids g1 m) = remove_ids (g1 ∪ g2) m.
Proof.
  apply map_eq. intros x. rewrite !remove_ids_lookup.
  destruct (decide (x ∈ g2)), (decide (x ∈ g1)), (decide (x ∈ g1 ∪ g2));
    try done; try set_solver.
  destruct (m !! x); [|done]. cbn. by rewrite scrub_scrub.
Qed.

Lemma keep_empty l : keep ∅ l = l.
Proof.
  unfold keep. induction l as [|x l IH]; [done|].
  rewrite filter_cons_True by set_solver. by rewrite IH.
Qed.

Lemma remove_ids_empty m : remove_ids ∅ m = m.
Proof.
  apply map_eq. intros x. rewrite remove_ids_lookup.
  destruct (decide (x ∈ ∅)); [set_solver|].
  destruct (m !! x) as [[nm lb ps dt]|]; [|done]. cbn. f_equal.
  unfold scrub. cbn. f_equal.
  - induction ps as [|q ps IH]; [done|].
    rewrite filter_cons_True by set_solver. by rewrite IH.
  - destruct dt; cbn; rewrite ?keep_empty; try done.
    + by destruct LinkedObject.
    + by destruct Parent, Child.
Qed.

Lemma remove_ids_unique_names gone m :
  unique_names m → unique_names (remove_ids gone m).
Proof.
  rewrite !unique_names_spec. intros H x y ox oy Hx Hy Hn.
  rewrite remove_ids_lookup in Hx, Hy.
  destruct (decide (x ∈ gone)), (decide (y ∈ gone)); try done.
  destruct (m !! x) as [ox'|] eqn:Ex; [|done].
  destruct (m !! y) as [oy'|] eqn:Ey; [|done].
  cbn in Hx, Hy. simplify_eq. by apply (H x y ox' oy').
Qed.

Lemma removeObject_run name d :
  ∃ d', removeObject name d = (Ok tt, d').
Proof. unfold removeObject. eauto. Qed.

Lemma removeObject_unique o obj d r d' :
  unique_names (objects d) → objects d !! o = Some obj →
  removeObject (Name obj) d = (r, d') →
  r = Ok tt ∧ objects d' = remove_ids {[o]} (objects d).
Proof.
  rewrite unique_names_spec. intros Hn Ho. unfold removeObject.
  intros [= <- <-]. split; [done|]. cbn [objects].
  assert (Hdom : dom (filter (λ kv : positive * DocumentObject, Name kv.2 = Name obj)
                        (objects d)) = {[o]}).
  { apply set_eq. intros x. rewrite elem_of_dom, elem_of_singleton. split.
    - intros [ox [Hx Hnm]%map_lookup_filter_Some]. cbn in Hnm. by eapply Hn.
    - intros ->. exists obj. by apply map_lookup_filter_Some. }
  rewrite Hdom. unfold remove_ids. f_equal.
  apply map_filter_strong_ext. intros x ox. cbn.
  split; intros [Hnm Hx]; (split; [|done]).
  - intros ->%elem_of_singleton. congruence.
  - intros Heq. apply Hnm. apply elem_of_singleton. by eapply Hn.
Qed.

Lemma remove_objects_run gone d d' :
  unique_names (objects d) →
  remove_objects gone d = (Ok tt, d') →
  objects d' = remove_ids (list_to_set gone) (objects d)
  ∧ ∀ o, o ∈ gone → is_Some (objects d !! o).
Proof.
  revert d. induction gone as [|o gone IH]; intros d Hn H.
  - injection H as <-. split; [by rewrite remove_ids_empty|].
    by intros o ?%elem_of_nil.
  - cbn [remove_objects] in H.
    apply bind_Ok in H as (name & d1 & H1 & H).
    apply get_Name_run in H1 as (-> & obj & Ho & <-).
    apply bind_Ok in H as ([] & d1 & H1 & H).
    apply (removeObject_unique o) in H1 as [_ H1]; [|done..].
    apply IH in H as [H Hin].
    + split.
      * by rewrite H, H1, remove_ids_union.
      * intros o' [->|Ho']%elem_of_cons; [by eauto|].
        destruct (Hin _ Ho') as [obj' Ho'']. rewrite H1 in Ho''.
        rewrite remove_ids_lookup in Ho''. case_decide; [done|].
        destruct (objects d !! o'); [by eauto|done].
    + rewrite H1. by apply remove_ids_unique_names.
Qed.

(** ** The pass as a whole *)

Lemma reads_Real : reads get_Real Real_of.
Proof.
  split; [|done]. intros l d objs d' H. unfold get_Real in H.
  apply bind_Ok in H as (obj & d1 & H1 & H).
  apply get_object_run in H1 as [-> H1]. cbv beta delta [ret raise] in H.
  destruct (data obj) eqn:E; simplify_eq. split; [done|].
  exists obj. by rewrite E.
Qed.

Lemma reads_Visual : reads get_Visual Visual_of.
Proof.
  split; [|done]. intros l d objs d' H. unfold get_Visual in H.
  apply bind_Ok in H as (obj & d1 & H1 & H).
  apply get_object_run in H1 as [-> H1]. cbv beta delta [ret raise] in H.
  destruct (data obj) eqn:E; simplify_eq. split; [done|].
  exists obj. by rewrite E.
Qed.

Lemma reads_Collision : reads get_Collision Collision_of.
Proof.
  split; [|done]. intros l d objs d' H. unfold get_Collision in H.
  apply bind_Ok in H as (obj & d1 & H1 & H).
  apply get_object_run in H1 as [-> H1]. cbv beta delta [ret raise] in H.
  destruct (data obj) eqn:E; simplify_eq. split; [done|].
  exists obj. by rewrite E.
Qed.

Lemma linked_objects_run links acc d r d' :
  linked_objects links acc d = (r, d') →
  d' = d ∧ ∀ current, r = Ok current →
    current = acc ++ mjoin (Group_of (objects d) <$> links).
Proof.
  revert acc. induction links as [|l links IH]; intros acc H.
  - injection H as <- <-. split; [done|]. intros ? [= <-]. by rewrite app_nil_r.
  - cbn [linked_objects] in H.
    apply bind_run in H as [(g & d1 & H1 & H)|(e & H1 & ->)].
    + apply get_Group_run in H1 as (-> & <- & _).
      apply IH in H as [-> H]. split; [done|]. intros current ->.
      rewrite (H _ eq_refl). cbn. by rewrite (assoc_L (++)).
    + split; [|done]. unfold get_Group in H1.
      apply bind_run in H1 as [(obj & d1 & H1 & H)|(e' & H1 & _)];
        apply get_object_run in H1 as [-> _]; [|done].
      cbv beta delta [ret raise] in H. by destruct (data obj); simplify_eq.
Qed.

Lemma hasattr_run x name d r d' :
  hasattr x name d = (r, d') →
  d' = d ∧ ∀ b, r = Ok b →
    ∃ obj, objects d !! x = Some obj
           ∧ b = match flag name (data obj) with Some _ => true | None => false end.
Proof.
  unfold hasattr. intros H.
  apply bind_run in H as [(obj & d1 & H1 & H)|(e & H1 & ->)];
    apply get_object_run in H1 as [-> H1]; [|done].
  injection H as <- <-. split; [done|]. intros b [= <-]. eauto.
Qed.

Lemma get_flag_run x name d b d' :
  get_flag x name d = (Ok b, d') →
  d' = d ∧ ∃ obj, objects d !! x = Some obj ∧ flag name (data obj) = Some b.
Proof.
  unfold get_flag. intros H. apply bind_Ok in H as (obj & d1 & H1 & H).
  apply get_object_run in H1 as [-> H1]. cbv beta delta [ret raise] in H.
  destruct (flag name (data obj)) eqn:E; simplify_eq. eauto.
Qed.

Lemma flags_of_Some m robot a b c :
  flags_of m robot = Some (a, b, c) ↔
  ∃ obj g, m !! robot = Some obj ∧ data obj = RosRobot g (Some a) (Some b) (Some c).
Proof.
  unfold flags_of. split.
  - destruct (m !! robot) as [obj|]; [|done].
    destruct (data obj) as [| | |g [?|] [?|] [?|]|] eqn:E; try done.
    intros [= -> -> ->]. eauto.
  - by intros (obj & g & -> & ->).
Qed.

Lemma flags_of_robot m robot flags :
  flags_of m robot = Some flags →
  ∃ obj g a b c, m !! robot = Some obj
    ∧ data obj = RosRobot g (Some a) (Some b) (Some c) ∧ flags = (a, b, c).
Proof.
  destruct flags as [[a b] c]. intros (obj & g & ? & ?)%flags_of_Some.
  exists obj, g, a, b, c. done.
Qed.

Lemma asked_link m robot flags L o : asked m robot flags L o → is_link m L = true.
Proof.
  intros [HL _]. unfold links_of in HL. by apply list_elem_of_filter in HL as [? _].
Qed.

Lemma demanded_sources_refs flags dt o :
  o ∈ demanded_sources flags dt → o ∈ source_refs dt.
Proof.
  destruct dt; try done. destruct flags as [[[] []] []]; cbn; set_solver.
Qed.

Lemma asked_source m robot flags L o :
  asked m robot flags L o → ∃ obj, m !! L = Some obj ∧ o ∈ source_refs (data obj).
Proof.
  intros [_ (obj & Hm & Ho)]. exists obj. split; [done|].
  by eapply demanded_sources_refs.
Qed.

Lemma inv_init m dem : wf m → inv m dem m [].
Proof.
  intros Hwf. split; [done| | |].
  - intros x obj Hx. exists obj. split; [done|]. unfold grown.
    do 3 (split; [done|]). destruct (data obj); try done.
    exists []. by rewrite app_nil_r.
  - intros x -> [? ?]. done.
  - by intros a ?%elem_of_nil.
Qed.

Section pass.

Variable getUniqueObjectName : gset string → string → string.
Variable getSubObject : oid → string → Placement.
Variable warn_bound : bool.
Hypothesis host_fresh : fresh_names getUniqueObjectName.

Abbreviation add_links := (add_links getUniqueObjectName getSubObject warn_bound).
Abbreviation reset_group_of :=
  (reset_group_of getUniqueObjectName getSubObject warn_bound).

Variable m0 : gmap positive DocumentObject.
Variable robot : oid.
Variable flags : bool * bool * bool.
Hypothesis robot_flags : flags_of m0 robot = Some flags.

Abbreviation dem := (asked m0 robot flags).
Abbreviation inv := (inv m0 dem).
Abbreviation quiet := (λ x : oid, is_robot m0 x = false).

(** One of the three [if self.robot.Show...:] blocks. *)
Lemma phase_run get field lod (show : bool) all d res d' :
  reads get field →
  (show = true → ∀ l obj o, l ∈ links_of m0 robot → m0 !! l = Some obj →
     o ∈ field (data obj) → dem l o) →
  inv (objects d) all →
  (if show then add_links get lod (links_of m0 robot) all else ret all) d
  = (Ok res, d') →
  inv (objects d') res ∧ stable (objects d) (objects d')
  ∧ touched_by d d' quiet
  ∧ ∃ added, res = all ++ added
      ∧ (show = true → ∀ l obj, l ∈ links_of m0 robot → m0 !! l = Some obj →
           covered (objects d') l (field (data obj)) added).
Proof.
  intros Hreads Hdem Hinv H. destruct show.
  - eapply add_links_inv in H as (Hinv' & Hst & Htb & added & -> & Hcov);
      eauto using asked_link, asked_source.
    + split; [done|]. split; [done|]. split; [done|]. eauto.
    + intros l Hl. unfold links_of in Hl.
      by apply list_elem_of_filter in Hl as [? _].
  - injection H as <- <-. split; [done|]. split; [apply stable_refl|].
    split; [apply touched_by_refl|]. exists []. by rewrite app_nil_r.
Qed.

Lemma inv_flag m all :
  inv m all →
  ∃ obj obj0, m0 !! robot = Some obj0 ∧ m !! robot = Some obj
              ∧ data obj = data obj0.
Proof.
  intros Hinv. destruct flags as [[a b] c].
  apply flags_of_Some in robot_flags as (obj0 & g & H0 & Hd0).
  destruct (inv_old _ _ _ _ Hinv _ _ H0) as (obj & Hm & _ & _ & _ & Hg).
  rewrite Hd0 in Hg. exists obj, obj0. by rewrite Hd0.
Qed.

Lemma covered_stable m m' l objs added more :
  stable m m' → covered m l objs added → covered m' l objs (added ++ more).
Proof.
  intros Hst Hc o Ho. destruct (Hc o Ho) as (a & Ha & Hf). exists a.
  split; [apply elem_of_app; by left|by apply Hst].
Qed.

End pass.

Section whole_pass.

Variable getUniqueObjectName : gset string → string → string.
Variable getSubObject : oid → string → Placement.
Variable warn_bound : bool.
Hypothesis host_fresh : fresh_names getUniqueObjectName.

Abbreviation reset_group_of :=
  (reset_group_of getUniqueObjectName getSubObject warn_bound).

Lemma reset_group_of_run robot flags d d' :
  wf (objects d) → flags_of (objects d) robot = Some flags →
  reset_group_of robot d = (Ok tt, d') →
  ∃ d1 all,
    inv (objects d) (asked (objects d) robot flags) (objects d1) all
    ∧ stable (objects d) (objects d1)
    ∧ touched_by d d1 (λ x, is_robot (objects d) x = false)
    ∧ (∀ L o, asked (objects d) robot flags L o →
         ∃ a, a ∈ all ∧ find_link (objects d1) (Group_of (objects d1) L) o = Some a)
    ∧ remove_objects
        (remove_dups (list_difference
           (mjoin (Group_of (objects d) <$> links_of (objects d) robot)) all)) d1
      = (Ok tt, d').
Proof.
  intros Hwf Hflags H. pose proof Hflags as robot_flags.
  destruct flags as [[a b] c].
  apply flags_of_Some in Hflags as (robj & grp & Hr & Hrd).
  set (dem := asked (objects d) robot (a, b, c)).
  pose proof (phase_run getUniqueObjectName getSubObject warn_bound host_fresh
                (objects d) robot (a, b, c)) as phase_run.
  pose proof (inv_flag (objects d) robot (a, b, c) robot_flags) as inv_flag.
  unfold Robot.reset_group_of in H.
  apply bind_Ok in H as (has_real & d1 & H1 & H).
  apply hasattr_run in H1 as [-> H1].
  destruct (H1 _ eq_refl) as (? & Hr1 & ->). clear H1.
  apply bind_Ok in H as (has_visual & d1 & H1 & H).
  apply hasattr_run in H1 as [-> H1].
  destruct (H1 _ eq_refl) as (? & Hr2 & ->). clear H1.
  apply bind_Ok in H as (has_collision & d1 & H1 & H).
  apply hasattr_run in H1 as [-> H1].
  destruct (H1 _ eq_refl) as (? & Hr3 & ->). clear H1.
  simplify_eq. rewrite Hrd in H.
  cbn [flag String.eqb Ascii.eqb Bool.eqb negb orb] in H.
  apply bind_Ok in H as (group & d1 & H1 & H).
  apply get_Group_run in H1 as (-> & <- & _).
  apply bind_Ok in H as (links & d1 & H1 & H).
  injection H1 as <- <-.
  change (filter _ (Group_of (objects d) robot)) with (links_of (objects d) robot) in H.
  apply bind_Ok in H as (current & d1 & H1 & H).
  apply linked_objects_run in H1 as [-> H1].
  specialize (H1 _ eq_refl). cbn [app] in H1. subst current.
  pose proof (inv_init (objects d) dem Hwf) as Hinv0.
  (* real *)
  apply bind_Ok in H as (show_real & d1 & H1 & H).
  apply get_flag_run in H1 as (-> & ? & Hr1 & Hf1).
  simplify_eq. rewrite Hrd in Hf1.
  cbn [flag String.eqb Ascii.eqb Bool.eqb] in Hf1. injection Hf1 as <-.
  apply bind_Ok in H as (all1 & d1 & H1 & H).
  eapply (phase_run _ Real_of) in H1
    as (Hinv1 & Hst1 & Htb1 & added1 & -> & Hcov1); [|apply reads_Real| |done].
  2:{ intros -> l obj o Hl Hobj Ho. split; [done|]. exists obj. split; [done|].
      destruct (data obj); try done. cbn in *. set_solver. }
  cbn [app] in *.
  (* visual *)
  apply bind_Ok in H as (show_visual & d2 & H2 & H).
  apply get_flag_run in H2 as (-> & ? & Hr2 & Hf2).
  destruct (inv_flag _ _ Hinv1) as (? & ? & Hr0 & Hr2' & Hd2).
  simplify_eq. rewrite Hd2, Hrd in Hf2.
  cbn [flag String.eqb Ascii.eqb Bool.eqb] in Hf2. injection Hf2 as <-.
  apply bind_Ok in H as (all2 & d2 & H2 & H).
  eapply (phase_run _ Visual_of) in H2
    as (Hinv2 & Hst2 & Htb2 & added2 & -> & Hcov2); [|apply reads_Visual| |done].
  2:{ intros -> l obj o Hl Hobj Ho. split; [done|]. exists obj. split; [done|].
      destruct (data obj); try done. cbn in *. set_solver. }
  (* collision *)
  apply bind_Ok in H as (show_collision & d3 & H3 & H).
  apply get_flag_run in H3 as (-> & ? & Hr3 & Hf3).
  destruct (inv_flag _ _ Hinv2) as (? & ? & Hr0 & Hr3' & Hd3).
  simplify_eq. rewrite Hd3, Hrd in Hf3.
  cbn [flag String.eqb Ascii.eqb Bool.eqb] in Hf3. injection Hf3 as <-.
  apply bind_Ok in H as (all3 & d3 & H3 & H).
  eapply (phase_run _ Collision_of) in H3
    as (Hinv3 & Hst3 & Htb3 & added3 & -> & Hcov3); [|apply reads_Collision| |done].
  2:{ intros -> l obj o Hl Hobj Ho. split; [done|]. exists obj. split; [done|].
      destruct (data obj); try done. cbn in *. set_solver. }
  exists d3, ((added1 ++ added2) ++ added3).
  split; [done|]. split; [eauto using stable_trans|].
  split; [eauto using touched_by_trans|]. split; [|done].
  intros L o [HL (obj & Hobj & Ho)].
  pose proof (covered_stable) as covered_stable.
  destruct (data obj) as [| |g r v cc| |] eqn:Ed; try by apply elem_of_nil in Ho.
  cbn in Ho. rewrite !elem_of_app in Ho. destruct Ho as [Ho|[Ho|Ho]].
  - destruct a; [|by apply elem_of_nil in Ho].
    rewrite <- (assoc_L (++)).
    eapply covered_stable; [eapply stable_trans; [exact Hst2|exact Hst3]| |].
    + by eapply Hcov1.
    + by rewrite Ed.
  - destruct b; [|by apply elem_of_nil in Ho].
    destruct (Hcov2 eq_refl L obj HL Hobj o) as (y & Hy & Hfy); [by rewrite Ed|].
    exists y. split; [set_solver|]. by apply Hst3.
  - destruct c; [|by apply elem_of_nil in Ho].
    destruct (Hcov3 eq_refl L obj HL Hobj o) as (y & Hy & Hfy); [by rewrite Ed|].
    exists y. split; [set_solver|]. done.
Qed.

End whole_pass.

(** ** The document after the pass *)

Lemma group_refs_scrub gone dt :
  group_refs (scrub_data gone dt) = keep gone (group_refs dt).
Proof. by destruct dt. Qed.

Lemma remove_ids_Group gone m x :
  x ∉ gone → Group_of (remove_ids gone m) x = keep gone (Group_of m x).
Proof.
  intros Hx. unfold Group_of. rewrite remove_ids_lookup.
  rewrite decide_False by done. destruct (m !! x) as [obj|]; [|done].
  cbn. apply group_refs_scrub.
Qed.

Lemma remove_ids_LinkedObject gone m x :
  x ∉ gone →
  LinkedObject_of (remove_ids gone m) x = keep_ref gone (LinkedObject_of m x).
Proof.
  intros Hx. unfold LinkedObject_of. rewrite remove_ids_lookup.
  rewrite decide_False by done. destruct (m !! x) as [obj|]; [|done].
  cbn. by destruct (data obj).
Qed.

Lemma remove_ids_LinkPlacement gone m x :
  x ∉ gone → LinkPlacement_of (remove_ids gone m) x = LinkPlacement_of m x.
Proof.
  intros Hx. unfold LinkPlacement_of. rewrite remove_ids_lookup.
  rewrite decide_False by done. destruct (m !! x) as [obj|]; [|done].
  cbn. by destruct (data obj).
Qed.

Lemma remove_ids_is_link gone m x :
  is_link (remove_ids gone m) x = true ↔ (x ∉ gone) ∧ is_link m x = true.
Proof.
  unfold is_link. rewrite remove_ids_lookup. case_decide; [naive_solver|].
  destruct (m !! x) as [obj|]; [|naive_solver]. cbn.
  destruct (data obj); naive_solver.
Qed.

Lemma remove_ids_is_robot gone m x :
  is_robot (remove_ids gone m) x = true → is_robot m x = true.
Proof.
  unfold is_robot. rewrite remove_ids_lookup. case_decide; [done|].
  destruct (m !! x) as [obj|]; [|done]. cbn. by destruct (data obj).
Qed.

Lemma keep_ref_Some gone r o : keep_ref gone r = Some o → r = Some o ∧ o ∉ gone.
Proof.
  destruct r as [o'|]; [|done]. unfold keep_ref. case_bool_decide; [done|].
  by intros [= ->].
Qed.

Lemma keep_ref_notin gone o : o ∉ gone → keep_ref gone (Some o) = Some o.
Proof. intros Ho. unfold keep_ref. by rewrite bool_decide_eq_false_2. Qed.

Lemma elem_of_keep gone l x : x ∈ keep gone l ↔ (x ∉ gone) ∧ x ∈ l.
Proof. unfold keep. apply (list_elem_of_filter (λ o, o ∉ gone)). Qed.

(** What is found before the removal is found after it, when it stays. *)
Lemma find_link_keep gone m g o a :
  a ∉ gone → o ∉ gone →
  find_link m g o = Some a →
  find_link (remove_ids gone m) (keep gone g) o = Some a.
Proof.
  intros Ha Ho. induction g as [|p g IH]; [done|]. cbn [find_link].
  unfold keep in *. case_bool_decide as Hp.
  - intros [= ->]. rewrite filter_cons_True by done. cbn [find_link].
    rewrite remove_ids_LinkedObject, Hp, keep_ref_notin by done.
    by rewrite bool_decide_eq_true_2.
  - intros Hf. destruct (decide (p ∈ gone)) as [Hpg|Hpg].
    + rewrite filter_cons_False by (by intros ?). by apply IH.
    + rewrite filter_cons_True by done. cbn [find_link].
      rewrite remove_ids_LinkedObject by done.
      rewrite bool_decide_eq_false_2; [by apply IH|].
      by intros [? _]%keep_ref_Some.
Qed.


Lemma grown_LinkedObject m0 m x obj0 obj :
  m0 !! x = Some obj0 → m !! x = Some obj → grown m0 obj0 obj →
  LinkedObject_of m x = LinkedObject_of m0 x
  ∧ LinkPlacement_of m x = LinkPlacement_of m0 x.
Proof.
  intros H0 Hm (_ & _ & _ & Hg). unfold LinkedObject_of, LinkPlacement_of.
  rewrite H0, Hm. destruct (data obj0); try (by rewrite Hg).
  by destruct Hg as (n & -> & _).
Qed.

Lemma keep_all gone' (l : list oid) :
  (∀ x, x ∈ l → x ∉ gone') → keep gone' l = l.
Proof.
  intros H. unfold keep. induction l as [|x l IH]; [done|].
  rewrite filter_cons_True by (apply H; left).
  rewrite IH; [done|]. intros y Hy. apply H. by right.
Qed.

Lemma filter_ext_in (P Q : oid → Prop) `{∀ x, Decision (P x)} `{∀ x, Decision (Q x)}
    (l : list oid) :
  (∀ x, x ∈ l → P x ↔ Q x) → filter P l = filter Q l.
Proof.
  intros HPQ. induction l as [|x l IH]; [done|].
  assert (IH' : filter P l = filter Q l).
  { apply IH. intros y Hy. apply HPQ. by right. }
  destruct (decide (P x)) as [HP|HP].
  - rewrite !filter_cons_True; [by rewrite IH'| |done]. apply HPQ; [left|done].
  - rewrite !filter_cons_False; [done| |done]. intros HQ. apply HP, HPQ; [left|done].
Qed.


Section after.

#[local] Set Default Proof Using "All".

Variable m0 m1 : gmap positive DocumentObject.
Variable robot : oid.
Variable flags : bool * bool * bool.
Variable A : list oid.
Variable gone : gset positive.

Abbreviation dem := (asked m0 robot flags).
Abbreviation links := (links_of m0 robot).
Abbreviation m2 := (remove_ids gone m1).

Hypothesis Hwf0 : wf m0.
Hypothesis Hflags : flags_of m0 robot = Some flags.
Hypothesis Hinv : inv m0 dem m1 A.
Hypothesis Hst : stable m0 m1.
Hypothesis Hcov :
  ∀ L o, dem L o → ∃ a, a ∈ A ∧ find_link m1 (Group_of m1 L) o = Some a.
Hypothesis Hgone :
  ∀ x, x ∈ gone ↔ (∃ L, L ∈ links ∧ x ∈ Group_of m0 L) ∧ x ∉ A.

Lemma links_spec L :
  L ∈ links ↔
  L ∈ Group_of m0 robot
  ∧ ∃ obj g r v c, m0 !! L = Some obj ∧ data obj = RosLink g r v c.
Proof.
  unfold links_of. rewrite list_elem_of_filter, is_link_true. naive_solver.
Qed.

Lemma A_spec x :
  x ∈ A ↔ ∃ L o, dem L o ∧ find_link m1 (Group_of m1 L) o = Some x.
Proof.
  split; [apply (inv_all _ _ _ _ Hinv)|].
  intros (L & o & Hd & Hf). destruct (Hcov L o Hd) as (a & Ha & Hfa). congruence.
Qed.

Lemma link_grown L :
  L ∈ links →
  ∃ obj0 obj g n r v c,
    m0 !! L = Some obj0 ∧ m1 !! L = Some obj
    ∧ data obj0 = RosLink g r v c ∧ data obj = RosLink (g ++ n) r v c
    ∧ Forall (λ q, m0 !! q = None) n.
Proof.
  intros (_ & obj0 & g & r & v & c & H0 & Hd0)%links_spec.
  destruct (inv_old _ _ _ _ Hinv _ _ H0) as (obj & Hm & _ & _ & _ & Hg).
  rewrite Hd0 in Hg. destruct Hg as (n & Hg & Hn).
  exists obj0, obj, g, n, r, v, c. done.
Qed.

Lemma link_Group L :
  L ∈ links →
  ∃ n, Group_of m1 L = Group_of m0 L ++ n ∧ Forall (λ q, m0 !! q = None) n.
Proof.
  intros (obj0 & obj & g & n & r & v & c & H0 & H1 & Hd0 & Hd1 & Hn)%link_grown.
  exists n. unfold Group_of. by rewrite H0, H1, Hd0, Hd1.
Qed.

Lemma old_proxy L p :
  L ∈ links → p ∈ Group_of m0 L →
  ∃ pl, LinkPlacement_of m0 p = Some pl ∧ LinkPlacement_of m1 p = Some pl
        ∧ LinkedObject_of m1 p = LinkedObject_of m0 p.
Proof.
  intros (_ & obj0 & g & r & v & c & H0 & Hd0)%links_spec Hp.
  destruct Hwf0 as (_ & _ & _ & Hpx & _). rewrite proxies_only_spec in Hpx.
  unfold Group_of in Hp. rewrite H0, Hd0 in Hp. cbn in Hp.
  destruct (Hpx L obj0 p H0) as [pl Hpl]; [by rewrite Hd0|].
  exists pl. split; [done|].
  assert (∃ pobj0, m0 !! p = Some pobj0) as [pobj0 Hp0].
  { unfold LinkPlacement_of in Hpl. destruct (m0 !! p); [by eauto|done]. }
  destruct (inv_old _ _ _ _ Hinv _ _ Hp0) as (pobj & Hp1 & Hg).
  destruct (grown_LinkedObject _ _ _ _ _ Hp0 Hp1 Hg) as [-> ->]. done.
Qed.

Lemma gone_old x : x ∈ gone → ∃ L, L ∈ links ∧ x ∈ Group_of m0 L.
Proof. by intros [? _]%Hgone. Qed.

Lemma gone_proxy x : x ∈ gone → is_Some (LinkPlacement_of m0 x).
Proof.
  intros (L & HL & Hx)%gone_old.
  destruct (old_proxy L x HL Hx) as (pl & ? & _). eauto.
Qed.

Lemma link_not_gone L : L ∈ links → L ∉ gone.
Proof.
  intros (_ & obj0 & g & r & v & c & H0 & Hd0)%links_spec [pl Hpl]%gone_proxy.
  unfold LinkPlacement_of in Hpl. by rewrite H0, Hd0 in Hpl.
Qed.

Lemma robot_not_gone : robot ∉ gone.
Proof.
  intros [pl Hpl]%gone_proxy.
  destruct (flags_of_robot _ _ _ Hflags) as (obj & g & a & b & c & H0 & Hd0 & _).
  unfold LinkPlacement_of in Hpl. by rewrite H0, Hd0 in Hpl.
Qed.

Lemma source_not_gone L o : dem L o → o ∉ gone.
Proof.
  intros Hd (L' & HL' & Ho)%gone_old.
  destruct (asked_source _ _ _ _ _ Hd) as (obj & Hobj & Hsrc).
  apply links_spec in HL' as (_ & obj' & g & r & v & c & H0' & Hd0').
  destruct Hwf0 as (_ & _ & _ & _ & Hs). rewrite sources_external_spec in Hs.
  apply (Hs L L' obj obj' o Hobj H0' Hsrc).
  unfold Group_of in Ho. rewrite H0' in Ho. by rewrite Hd0' in Ho |- *.
Qed.

Lemma robot_group_not_gone x : x ∈ Group_of m0 robot → x ∉ gone.
Proof.
  intros Hx (L & HL & HxL)%gone_old.
  destruct (flags_of_robot _ _ _ Hflags) as (robj & g & a & b & c & Hr & Hrd & _).
  apply links_spec in HL as (_ & obj & g' & r & v & c' & H0 & Hd0).
  destruct Hwf0 as (_ & _ & Ho & _). rewrite one_owner_spec in Ho.
  unfold Group_of in Hx, HxL. rewrite Hr in Hx. rewrite H0 in HxL.
  assert (robot = L) as -> by (by eapply Ho). congruence.
Qed.

(** A survivor of the group of a link is the proxy of a demanded source. *)
Lemma survivor L p :
  L ∈ links → p ∈ Group_of m2 L →
  (p ∉ gone) ∧ p ∈ Group_of m1 L
  ∧ ∃ o, dem L o ∧ find_link m1 (Group_of m1 L) o = Some p.
Proof.
  intros HL Hp. rewrite remove_ids_Group in Hp by by apply link_not_gone.
  apply elem_of_keep in Hp as [Hpg Hp1]. split; [done|]. split; [done|].
  assert (HpA : p ∈ A).
  { destruct (link_Group L HL) as (n & Hn & Hnew). rewrite Hn in Hp1.
    apply elem_of_app in Hp1 as [Hp0|Hpn].
    - destruct (decide (p ∈ A)) as [|HnA]; [done|]. destruct Hpg.
      apply Hgone. eauto.
    - rewrite Forall_forall in Hnew. apply (inv_new _ _ _ _ Hinv).
      + by apply Hnew.
      + pose proof (inv_wf _ _ _ _ Hinv) as (_ & Hc & _).
        rewrite closed_spec in Hc.
        destruct (link_grown L HL)
          as (obj0 & obj & g & n' & r & v & c & H0 & H1 & Hd0 & Hd1 & _).
        apply (Hc L obj p H1). left. rewrite Hd1. cbn.
        unfold Group_of in Hn. rewrite H0, H1, Hd0, Hd1 in Hn. cbn in Hn.
        rewrite Hn. apply elem_of_app. by right. }
  apply A_spec in HpA as (L' & o & Hd & Hf). exists o.
  assert (L' = L) as ->; [|done].
  pose proof (inv_wf _ _ _ _ Hinv) as (_ & _ & Ho & _).
  rewrite one_owner_spec in Ho.
  apply find_link_Some in Hf as [Hin _].
  destruct Hd as [HL' _].
  destruct (link_grown L HL) as (? & obj & ? & ? & ? & ? & ? & _ & H1 & _ & Hd1 & _).
  destruct (link_grown L' HL') as (? & obj' & ? & ? & ? & ? & ? & _ & H1' & _ & Hd1' & _).
  unfold Group_of in Hin, Hp1. rewrite H1' in Hin. rewrite H1 in Hp1.
  by apply (Ho L' L obj' obj p).
Qed.

Lemma found_after L o a :
  dem L o → find_link m1 (Group_of m1 L) o = Some a → a ∈ A →
  find_link m2 (Group_of m2 L) o = Some a ∧ a ∉ gone.
Proof.
  intros Hd Hf Ha. assert (Hag : a ∉ gone) by (by intros [_ ?]%Hgone).
  split; [|done]. destruct Hd as [HL Hdm].
  rewrite remove_ids_Group by by apply link_not_gone.
  apply find_link_keep; [done| |done]. by apply (source_not_gone L).
Qed.

Lemma robot_after :
  ∃ obj0 obj2, m0 !! robot = Some obj0 ∧ m2 !! robot = Some obj2
               ∧ data obj2 = data obj0.
Proof.
  destruct (flags_of_robot _ _ _ Hflags) as (obj0 & g & a & b & c & H0 & Hd0 & _).
  destruct (inv_old _ _ _ _ Hinv _ _ H0) as (obj & H1 & _ & _ & _ & Hg).
  rewrite Hd0 in Hg. exists obj0, (scrub gone obj).
  split; [done|]. split.
  - rewrite remove_ids_lookup, decide_False by apply robot_not_gone.
    by rewrite H1.
  - cbn. rewrite Hg, Hd0. cbn. f_equal. apply keep_all.
    intros x Hx. apply robot_group_not_gone. unfold Group_of.
    by rewrite H0, Hd0.
Qed.

Lemma flags_after : flags_of m2 robot = Some flags.
Proof.
  destruct robot_after as (obj0 & obj2 & H0 & H2 & Hd).
  unfold flags_of in *. rewrite H2, Hd. by rewrite H0 in Hflags.
Qed.

Lemma is_link_grown x :
  is_Some (m0 !! x) → is_link m1 x = is_link m0 x.
Proof.
  intros [obj0 H0]. destruct (inv_old _ _ _ _ Hinv _ _ H0) as (obj & H1 & _ & _ & _ & Hg).
  unfold is_link. rewrite H0, H1.
  destruct (data obj0); try (by rewrite Hg). by destruct Hg as (n & -> & _).
Qed.

Lemma links_after : links_of m2 robot = links.
Proof.
  destruct robot_after as (obj0 & obj2 & H0 & H2 & Hd).
  assert (HG : Group_of m2 robot = Group_of m0 robot).
  { unfold Group_of. by rewrite H0, H2, Hd. }
  unfold links_of. rewrite HG.
  apply filter_ext_in. intros x Hx0.
  rewrite remove_ids_is_link, is_link_grown.
  - split; [by intros [_ ?]|]. split; [|done]. by apply robot_group_not_gone.
  - destruct Hwf0 as (_ & Hc & _). rewrite closed_spec in Hc.
    apply (Hc robot obj0 x H0). left. unfold Group_of in Hx0.
    by rewrite H0 in Hx0.
Qed.



Lemma demanded_after L o :
  L ∈ links → demanded m2 flags L o ↔ demanded m0 flags L o.
Proof.
  intros HL.
  destruct (link_grown L HL)
    as (obj0 & obj & g & n & r & v & c & H0 & H1 & Hd0 & Hd1 & _).
  assert (H2 : m2 !! L = Some (scrub gone obj)).
  { rewrite remove_ids_lookup, decide_False by by apply link_not_gone.
    by rewrite H1. }
  unfold demanded. split.
  - intros (obj2 & Hobj2 & Ho). exists obj0. split; [done|].
    rewrite H2 in Hobj2. injection Hobj2 as <-. cbn in Ho.
    rewrite Hd1 in Ho. rewrite Hd0. cbn in *.
    destruct flags as [[[] []] []]; cbn in *;
      rewrite ?elem_of_app, ?elem_of_keep in *; naive_solver.
  - intros (obj0' & Hobj0 & Ho). assert (Hng : o ∉ gone).
    { apply (source_not_gone L). split; [done|]. by exists obj0'. }
    exists (scrub gone obj). split; [done|]. simplify_eq.
    cbn. rewrite Hd1. rewrite Hd0 in Ho. cbn in *.
    destruct flags as [[[] []] []]; cbn in *;
      rewrite ?elem_of_app, ?elem_of_keep in *; naive_solver.
Qed.

(** After a pass the document needs none. *)
Lemma after_settled : settled m2 robot flags.
Proof.
  split; [apply flags_after|]. rewrite links_after. split.
  - intros L p HL Hp.
    destruct (survivor L p HL Hp) as (Hpg & Hp1 & o & Hd & Hf).
    split.
    + rewrite remove_ids_LinkPlacement by done.
      pose proof (inv_wf _ _ _ _ Hinv) as (_ & _ & _ & Hpx & _).
      rewrite proxies_only_spec in Hpx.
      destruct (link_grown L HL)
        as (obj0 & obj & g & n & r & v & c & H0 & H1 & Hd0 & Hd1 & _).
      apply (Hpx L obj p H1). unfold Group_of in Hp1.
      rewrite H1 in Hp1. by rewrite Hd1 in Hp1 |- *.
    + exists o. split.
      * apply demanded_after; [done|]. by destruct Hd.
      * apply found_after; [done|done|]. apply A_spec. eauto.
  - intros L o HL Hd. apply demanded_after in Hd; [|done].
    destruct (Hcov L o) as (a & Ha & Hf); [by split|].
    destruct (found_after L o a) as [-> _]; [by split|done|done|]. eauto.
Qed.

End after.

(** ** A pass on a document that needs none *)

Lemma hasattr_Ok x name d obj :
  objects d !! x = Some obj →
  hasattr x name d
  = (Ok (match flag name (data obj) with Some _ => true | None => false end), d).
Proof. intros Hx. unfold hasattr, bind, get_object. by rewrite Hx. Qed.

Lemma get_flag_Ok x name d obj b :
  objects d !! x = Some obj → flag name (data obj) = Some b →
  get_flag x name d = (Ok b, d).
Proof. intros Hx Hf. unfold get_flag, bind, get_object. by rewrite Hx, Hf. Qed.

Lemma get_Group_Ok x d :
  is_link (objects d) x = true ∨ is_robot (objects d) x = true →
  get_Group x d = (Ok (Group_of (objects d) x), d).
Proof.
  unfold get_Group, bind, get_object, Group_of, is_link, is_robot.
  destruct (objects d !! x) as [obj|]; [|by intros [?|?]].
  destruct (data obj); by intros [?|?].
Qed.

Lemma linked_objects_Ok links acc d :
  (∀ l, l ∈ links → is_link (objects d) l = true) →
  linked_objects links acc d
  = (Ok (acc ++ mjoin (Group_of (objects d) <$> links)), d).
Proof.
  revert acc. induction links as [|l links IH]; intros acc Hl.
  - cbn. by rewrite app_nil_r.
  - cbn [linked_objects].
    pose proof (get_Group_Ok l d (or_introl (Hl l (list_elem_of_here _ _)))) as Hg.
    rewrite (bind_eq _ _ _ _ _ Hg).
    rewrite IH by (intros l' ?; apply Hl; by right).
    cbn. by rewrite (assoc_L (++)).
Qed.

Lemma existing_link_Ok link o d :
  is_link (objects d) link = true →
  (∀ p, p ∈ Group_of (objects d) link → is_Some (LinkPlacement_of (objects d) p)) →
  Robot._existing_link link o d
  = (Ok (find_link (objects d) (Group_of (objects d) link) o), d).
Proof.
  intros Hl Hp. unfold Robot._existing_link.
  rewrite (bind_eq _ _ _ _ _ (get_Group_Ok link d (or_introl Hl))).
  apply existing_link_in_Ok. by apply Forall_forall.
Qed.

Section settled.

Variable getUniqueObjectName : gset string → string → string.
Variable getSubObject : oid → string → Placement.
Variable warn_bound : bool.

Abbreviation _add_links_lod_from :=
  (_add_links_lod_from getUniqueObjectName getSubObject warn_bound).
Abbreviation _add_links_lod :=
  (_add_links_lod getUniqueObjectName getSubObject warn_bound).
Abbreviation add_links := (add_links getUniqueObjectName getSubObject warn_bound).
Abbreviation reset_group_of :=
  (reset_group_of getUniqueObjectName getSubObject warn_bound).

Lemma add_links_lod_from_settled link objs lod acc d :
  is_link (objects d) link = true →
  (∀ p, p ∈ Group_of (objects d) link → is_Some (LinkPlacement_of (objects d) p)) →
  (∀ o, o ∈ objs → is_Some (find_link (objects d) (Group_of (objects d) link) o)) →
  _add_links_lod_from link objs lod acc d
  = (Ok (acc ++ omap (find_link (objects d) (Group_of (objects d) link)) objs), d).
Proof.
  intros Hl Hp. revert acc. induction objs as [|o objs IH]; intros acc Hf.
  - cbn. by rewrite app_nil_r.
  - cbn [Robot._add_links_lod_from].
    rewrite (bind_eq _ _ _ _ _ (existing_link_Ok link o d Hl Hp)).
    destruct (Hf o) as [a Ha]; [by left|]. rewrite Ha.
    rewrite IH by (intros o' ?; apply Hf; by right).
    cbn. rewrite Ha. by rewrite <- (assoc_L (++)).
Qed.

Lemma add_links_lod_settled link objs lod d :
  is_link (objects d) link = true →
  (∀ p, p ∈ Group_of (objects d) link → is_Some (LinkPlacement_of (objects d) p)) →
  (∀ o, o ∈ objs → is_Some (find_link (objects d) (Group_of (objects d) link) o)) →
  _add_links_lod link objs lod d
  = (Ok (omap (find_link (objects d) (Group_of (objects d) link)) objs), d).
Proof.
  intros Hl Hp Hf. unfold Robot._add_links_lod.
  pose proof Hl as (obj & ? & ? & ? & ? & Hobj & _)%is_link_true.
  rewrite (bind_eq _ _ _ _ _ (get_object_Ok link d obj Hobj)).
  by rewrite add_links_lod_from_settled.
Qed.

(** Reading the sources of a link gives the field of its data. *)
Definition reads_back (get : oid → M (list oid)) (field : ObjectData → list oid)
  : Prop :=
  ∀ l d obj, objects d !! l = Some obj → is_link (objects d) l = true →
    get l d = (Ok (field (data obj)), d).

Lemma add_links_settled get field lod links all d :
  reads_back get field →
  (∀ l, l ∈ links → is_link (objects d) l = true) →
  (∀ l p, l ∈ links → p ∈ Group_of (objects d) l →
     is_Some (LinkPlacement_of (objects d) p)) →
  (∀ l obj o, l ∈ links → objects d !! l = Some obj → o ∈ field (data obj) →
     is_Some (find_link (objects d) (Group_of (objects d) l) o)) →
  ∃ res, add_links get lod links all d = (Ok res, d)
    ∧ ∀ x, x ∈ res ↔
        x ∈ all
        ∨ ∃ l obj o, l ∈ links ∧ objects d !! l = Some obj ∧ o ∈ field (data obj)
            ∧ find_link (objects d) (Group_of (objects d) l) o = Some x.
Proof.
  intros Hget. revert all. induction links as [|l links IH]; intros all Hl Hp Hf.
  - exists all. split; [done|]. intros x. split; [by left|].
    intros [?|(? & ? & ? & ?%elem_of_nil & _)]; done.
  - cbn [Robot.add_links].
    assert (Hll : is_link (objects d) l = true) by (apply Hl; left).
    pose proof Hll as (obj & ? & ? & ? & ? & Hobj & _)%is_link_true.
    rewrite (bind_eq _ _ _ _ _ (Hget l d obj Hobj Hll)).
    rewrite (bind_eq _ _ _ _ _ (add_links_lod_settled l _ lod d Hll
               (λ p, Hp l p (list_elem_of_here _ _))
               (λ o, Hf l obj o (list_elem_of_here _ _) Hobj))).
    destruct (IH (all ++ omap (find_link (objects d) (Group_of (objects d) l))
                    (field (data obj)))) as (res & Hres & Hmem).
    + intros l' ?. apply Hl. by right.
    + intros l' p ?. apply Hp. by right.
    + intros l' obj' o ?. apply Hf. by right.
    + exists res. split; [done|]. intros y. rewrite Hmem.
      rewrite elem_of_app, list_elem_of_omap. split.
      * intros [[?|(o & Ho & Hfo)]|(l' & obj' & o & Hl' & Hrest)].
        -- by left.
        -- right. exists l, obj, o. split; [left|done].
        -- right. exists l', obj', o. split; [by right|done].
      * intros [?|(l' & obj' & o & [->|Hl']%elem_of_cons & Hobj' & Ho & Hfo)].
        -- left. by left.
        -- simplify_eq. left. right. eauto.
        -- right. eauto 10.
Qed.

Lemma reads_back_Real : reads_back get_Real Real_of.
Proof.
  intros l d obj Hobj (obj' & ? & ? & ? & ? & Hobj' & Hd)%is_link_true.
  simplify_eq. unfold get_Real, bind, get_object. by rewrite Hobj, Hd.
Qed.

Lemma reads_back_Visual : reads_back get_Visual Visual_of.
Proof.
  intros l d obj Hobj (obj' & ? & ? & ? & ? & Hobj' & Hd)%is_link_true.
  simplify_eq. unfold get_Visual, bind, get_object. by rewrite Hobj, Hd.
Qed.

Lemma reads_back_Collision : reads_back get_Collision Collision_of.
Proof.
  intros l d obj Hobj (obj' & ? & ? & ? & ? & Hobj' & Hd)%is_link_true.
  simplify_eq. unfold get_Collision, bind, get_object. by rewrite Hobj, Hd.
Qed.

Lemma list_difference_nil (l k : list oid) :
  (∀ x, x ∈ l → x ∈ k) → list_difference l k = [].
Proof.
  intros H. destruct (list_difference l k) as [|x rest] eqn:E; [done|].
  assert (Hx : x ∈ list_difference l k) by (rewrite E; left).
  apply list_elem_of_difference in Hx as [Hx Hn]. destruct Hn. by apply H.
Qed.

(** One of the three blocks on a settled document. *)
Lemma phase_settled get field lod (show : bool) robot flags all d :
  reads_back get field →
  settled (objects d) robot flags →
  (show = true → ∀ l obj o, objects d !! l = Some obj → o ∈ field (data obj) →
     o ∈ demanded_sources flags (data obj)) →
  ∃ res,
    (if show then add_links get lod (links_of (objects d) robot) all else ret all) d
    = (Ok res, d)
    ∧ (∀ x, x ∈ all → x ∈ res)
    ∧ (show = true → ∀ l obj o, l ∈ links_of (objects d) robot →
         objects d !! l = Some obj → o ∈ field (data obj) →
         ∀ x, find_link (objects d) (Group_of (objects d) l) o = Some x → x ∈ res).
Proof.
  intros Hget (Hflags & Hprox & Hfound) Hdem. destruct show.
  - destruct (add_links_settled get field lod (links_of (objects d) robot) all d Hget)
      as (res & Hres & Hmem).
    + intros l Hl. unfold links_of in Hl. by apply list_elem_of_filter in Hl as [? _].
    + intros l p Hl Hp. by destruct (Hprox l p Hl Hp).
    + intros l obj o Hl Hobj Ho. apply Hfound; [done|]. exists obj.
      split; [done|]. by eapply Hdem.
    + exists res. split; [done|]. split.
      * intros x Hx. apply Hmem. by left.
      * intros _ l obj o Hl Hobj Ho x Hx. apply Hmem. right. eauto 10.
  - exists all. split; [done|]. split; [done|]. done.
Qed.

Lemma settled_noop robot flags d :
  settled (objects d) robot flags → reset_group_of robot d = (Ok tt, d).
Proof.
  intros Hs. pose proof Hs as (Hflags & Hprox & Hfound).
  destruct (flags_of_robot _ _ _ Hflags) as (robj & g & a & b & c & Hr & Hrd & ->).
  unfold Robot.reset_group_of.
  rewrite !(bind_eq _ _ _ _ _ (hasattr_Ok robot _ d robj Hr)).
  rewrite Hrd. cbn [flag String.eqb Ascii.eqb Bool.eqb negb orb].
  assert (Hrob : is_robot (objects d) robot = true).
  { unfold is_robot. by rewrite Hr, Hrd. }
  rewrite (bind_eq _ _ _ _ _ (get_Group_Ok robot d (or_intror Hrob))).
  unfold get_links at 1. cbv beta. unfold bind at 1.
  fold (links_of (objects d) robot).
  assert (Hlinks : ∀ l, l ∈ links_of (objects d) robot → is_link (objects d) l = true).
  { intros l Hl. unfold links_of in Hl.
    by apply list_elem_of_filter in Hl as [? _]. }
  rewrite (bind_eq _ _ _ _ _ (linked_objects_Ok _ [] d Hlinks)).
  assert (Hfa : flag "ShowReal" (data robj) = Some a) by (by rewrite Hrd).
  assert (Hfb : flag "ShowVisual" (data robj) = Some b) by (by rewrite Hrd).
  assert (Hfc : flag "ShowCollision" (data robj) = Some c) by (by rewrite Hrd).
  rewrite (bind_eq _ _ _ _ _ (get_flag_Ok robot "ShowReal" d robj a Hr Hfa)).
  destruct (phase_settled get_Real Real_of "real" a robot (a, b, c) [] d
              reads_back_Real Hs) as (res1 & H1 & Hsub1 & Hin1).
  { intros -> l obj o _ Ho. destruct (data obj); try done. cbn in *. set_solver. }
  rewrite (bind_eq _ _ _ _ _ H1).
  rewrite (bind_eq _ _ _ _ _ (get_flag_Ok robot "ShowVisual" d robj b Hr Hfb)).
  destruct (phase_settled get_Visual Visual_of "visual" b robot (a, b, c) res1 d
              reads_back_Visual Hs) as (res2 & H2 & Hsub2 & Hin2).
  { intros -> l obj o _ Ho. destruct (data obj); try done. cbn in *. set_solver. }
  rewrite (bind_eq _ _ _ _ _ H2).
  rewrite (bind_eq _ _ _ _ _ (get_flag_Ok robot "ShowCollision" d robj c Hr Hfc)).
  destruct (phase_settled get_Collision Collision_of "collision" c robot (a, b, c)
              res2 d reads_back_Collision Hs) as (res3 & H3 & Hsub3 & Hin3).
  { intros -> l obj o _ Ho. destruct (data obj); try done. cbn in *. set_solver. }
  rewrite (bind_eq _ _ _ _ _ H3).
  rewrite list_difference_nil; [done|].
  intros x (grp & Hx & (L & -> & HL)%list_elem_of_fmap)%list_elem_of_join.
  destruct (Hprox L x HL Hx) as (_ & o & (obj & Hobj & Ho) & Hf).
  destruct (data obj) as [| |g' r v cc| |] eqn:Ed; try by apply elem_of_nil in Ho.
  cbn in Ho. rewrite !elem_of_app in Ho. destruct Ho as [Ho|[Ho|Ho]].
  - destruct a; [|by apply elem_of_nil in Ho].
    apply Hsub3, Hsub2. eapply (Hin1 eq_refl L obj o); [done|done| |done].
    by rewrite Ed.
  - destruct b; [|by apply elem_of_nil in Ho].
    apply Hsub3. eapply (Hin2 eq_refl L obj o); [done|done| |done].
    by rewrite Ed.
  - destruct c; [|by apply elem_of_nil in Ho].
    eapply (Hin3 eq_refl L obj o); [done|done| |done]. by rewrite Ed.
Qed.

End settled.

(** * The reconciliation *)

Section reconciliation.

Variable getUniqueObjectName : gset string → string → string.
Variable getSubObject : oid → string → Placement.
Variable warn_bound : bool.
Hypothesis host_fresh : fresh_names getUniqueObjectName.

Abbreviation reset_group_of :=
  (Robot.reset_group_of getUniqueObjectName getSubObject warn_bound).
Abbreviation reset_group := (Robot.reset_group getUniqueObjectName getSubObject warn_bound).
Abbreviation _existing_link := Robot._existing_link.

Lemma reset_group_self (self : instance) robot d :
  self !! "robot" = Some (VObj robot) →
  reset_group self d = reset_group_of robot d.
Proof.
  intros Hs. unfold Robot.reset_group, bind, lift, getattr. by rewrite Hs.
Qed.

(** What a pass that returns has done: the proxies [all] it asked for, the
    document [m1] with the new ones, and the objects [gone] it removed. *)
Lemma pass_facts robot flags d d' :
  wf (objects d) → flags_of (objects d) robot = Some flags →
  reset_group_of robot d = (Ok tt, d') →
  ∃ m1 all gone,
    inv (objects d) (asked (objects d) robot flags) m1 all
    ∧ stable (objects d) m1
    ∧ (∀ L o, asked (objects d) robot flags L o →
         ∃ a, a ∈ all ∧ find_link m1 (Group_of m1 L) o = Some a)
    ∧ (∀ x, x ∈ gone ↔
         (∃ L, L ∈ links_of (objects d) robot ∧ x ∈ Group_of (objects d) L)
         ∧ x ∉ all)
    ∧ objects d' = remove_ids gone m1.
Proof.
  intros Hwf Hflags H.
  destruct (reset_group_of_run _ _ _ host_fresh _ _ _ _ Hwf Hflags H)
    as (d1 & all & Hinv & Hst & _ & Hcov & Hrm).
  pose proof (inv_wf _ _ _ _ Hinv) as (Hn & _).
  apply remove_objects_run in Hrm as [Hrm _]; [|done].
  eexists (objects d1), all, _. do 3 (split; [done|]). split; [|done].
  intros x. rewrite elem_of_list_to_set, elem_of_remove_dups,
    list_elem_of_difference, list_elem_of_join.
  split.
  - intros [(l & Hx & (L & -> & HL)%list_elem_of_fmap) ?]. eauto.
  - intros [(L & HL & Hx) ?]. split; [|done]. eexists. split; [done|].
    apply list_elem_of_fmap. eauto.
Qed.

(** X19: after a pass that returns no link of the robot has two proxies
    for one source object, whichever flags are set; and what
    [_existing_link] returns is the first proxy of the group whose
    [LinkedObject] is the object itself, by identity. *)
Theorem reset_group_dedup (self : instance) robot flags d d' :
  wf (objects d) →
  self !! "robot" = Some (VObj robot) →
  flags_of (objects d) robot = Some flags →
  reset_group self d = (Ok tt, d') →
  (∀ L p q o,
     L ∈ links_of (objects d') robot →
     p ∈ Group_of (objects d') L → q ∈ Group_of (objects d') L →
     LinkedObject_of (objects d') p = Some o →
     LinkedObject_of (objects d') q = Some o →
     p = q)
  ∧ (∀ link o found d1 d2,
       _existing_link link o d1 = (Ok found, d2) →
       found = find_link (objects d1) (Group_of (objects d1) link) o).
Proof.
  intros Hwf Hself Hflags H. rewrite (reset_group_self _ _ _ Hself) in H.
  split.
  - destruct (pass_facts _ _ _ _ Hwf Hflags H)
      as (m1 & all & gone & Hinv & Hst & Hcov & Hgone & ->).
    intros L p q o HL Hp Hq Hpo Hqo.
    rewrite (links_after _ _ _ _ _ _ Hwf Hflags Hinv Hst Hcov Hgone) in HL.
    destruct (survivor _ _ _ _ _ _ Hwf Hflags Hinv Hst Hcov Hgone L p HL Hp)
      as (Hpg & _ & op & _ & Hfp).
    destruct (survivor _ _ _ _ _ _ Hwf Hflags Hinv Hst Hcov Hgone L q HL Hq)
      as (Hqg & _ & oq & _ & Hfq).
    rewrite remove_ids_LinkedObject in Hpo, Hqo by done.
    apply keep_ref_Some in Hpo as [Hpo _]. apply keep_ref_Some in Hqo as [Hqo _].
    pose proof (find_link_Some _ _ _ _ Hfp) as [_ Hp1].
    pose proof (find_link_Some _ _ _ _ Hfq) as [_ Hq1].
    assert (op = o) as -> by congruence. assert (oq = o) as -> by congruence.
    congruence.
  - intros link o found d1 d2 Hrun.
    apply existing_link_run in Hrun as [_ Hrun]. by apply Hrun.
Qed.


(** X18: a pass that returns leaves nothing to do.  A second call on the
    document the first one leaves returns that very document: no proxy
    made, none removed, no property written, no warning. *)
Theorem reset_group_idempotent (self : instance) robot flags d d' :
  wf (objects d) →
  self !! "robot" = Some (VObj robot) →
  flags_of (objects d) robot = Some flags →
  reset_group self d = (Ok tt, d') →
  reset_group self d' = (Ok tt, d').
Proof.
  intros Hwf Hself Hflags H. rewrite !(reset_group_self _ _ _ Hself) in *.
  destruct (pass_facts _ _ _ _ Hwf Hflags H)
    as (m1 & all & gone & Hinv & Hst & Hcov & Hgone & Hobj).
  apply (settled_noop _ _ _ robot flags). rewrite Hobj.
  by apply (after_settled _ _ _ _ _ _ Hwf Hflags Hinv Hst Hcov Hgone).
Qed.

End reconciliation.

(** * Re-entrance *)

Lemma scrub_notifications_robot gone (m : gmap positive DocumentObject) x prop :
  (x, prop) ∈ scrub_notifications gone m → is_robot m x = true →
  ∃ o, o ∈ gone ∧ o ∈ Group_of m x.
Proof.
  unfold scrub_notifications. intros Hin Hrob.
  apply list_elem_of_bind in Hin as ([y obj] & Hin & Hy).
  apply list_elem_of_fmap in Hin as (prop' & [= -> ->] & Hprop).
  apply elem_of_map_to_list in Hy.
  unfold is_robot in Hrob. unfold Group_of. rewrite Hy in Hrob |- *.
  destruct (data obj) as [| | |g a b c|] eqn:Ed; try done. cbn in Hprop |- *.
  case_bool_decide as Hk; [by apply elem_of_nil in Hprop|].
  destruct (Forall_Exists_dec (λ o, o ∉ gone) (λ o, o ∈ gone)
              (λ o, match decide (o ∈ gone) with
                    | left H => right H
                    | right H => left H
                    end) g) as [Hall|Hex].
  - destruct Hk. apply keep_all. by apply Forall_forall.
  - apply Exists_exists in Hex as (o & ? & ?). eauto.
Qed.

Lemma removeObject_touched o obj d d' :
  unique_names (objects d) → objects d !! o = Some obj →
  removeObject (Name obj) d = (Ok tt, d') →
  touched_by d d' (λ x, is_robot (objects d') x = true → o ∈ Group_of (objects d) x).
Proof.
  intros Hn Ho H. unfold removeObject in H.
  injection H as <-. cbn [touched objects]. eexists. split; [done|].
  intros x prop Hin Hrob.
  assert (Hdom : dom (filter (λ kv : positive * DocumentObject, Name kv.2 = Name obj)
                        (objects d)) = {[o]}).
  { rewrite unique_names_spec in Hn.
    apply set_eq. intros y. rewrite elem_of_dom, elem_of_singleton. split.
    - intros [oy [Hy Hnm]%map_lookup_filter_Some]. cbn in Hnm. by eapply Hn.
    - intros ->. exists obj. by apply map_lookup_filter_Some. }
  rewrite Hdom in Hin, Hrob.
  set (rest := filter _ (objects d)) in *.
  assert (Hsub : ∀ y oy, rest !! y = Some oy → objects d !! y = Some oy).
  { intros y oy Hy. by apply map_lookup_filter_Some in Hy as [? _]. }
  apply scrub_notifications_robot in Hin as (o' & ->%elem_of_singleton & Hg).
  - unfold Group_of in Hg |- *.
    destruct (rest !! x) as [ox|] eqn:E; [|by apply elem_of_nil in Hg].
    by rewrite (Hsub _ _ E).
  - unfold is_robot in Hrob |- *. rewrite lookup_fmap in Hrob.
    destruct (rest !! x) as [ox|]; [|done]. cbn in Hrob. by destruct (data ox).
Qed.

Lemma remove_objects_touched gone d d' :
  unique_names (objects d) →
  remove_objects gone d = (Ok tt, d') →
  touched_by d d' (λ x, is_robot (objects d') x = true →
                        ∃ o, o ∈ gone ∧ o ∈ Group_of (objects d) x).
Proof.
  revert d. induction gone as [|o gone IH]; intros d Hn H.
  - injection H as <-. apply touched_by_refl.
  - cbn [remove_objects] in H.
    apply bind_Ok in H as (name & d1 & H1 & H).
    apply get_Name_run in H1 as (-> & obj & Ho & <-).
    apply bind_Ok in H as ([] & d1 & H1 & H).
    pose proof (removeObject_touched o obj d d1 Hn Ho H1) as Ht1.
    apply (removeObject_unique o) in H1 as [_ H1]; [|done..].
    assert (Hn1 : unique_names (objects d1)).
    { rewrite H1. by apply remove_ids_unique_names. }
    pose proof (remove_objects_run _ _ _ Hn1 H) as [H2 _].
    specialize (IH d1 Hn1 H).
    destruct Ht1 as (n1 & Ht1 & P1). destruct IH as (n2 & Ht2 & P2).
    exists (n1 ++ n2). split; [by rewrite Ht2, Ht1, (assoc_L (++))|].
    intros x prop [Hx|Hx]%elem_of_app Hrob.
    + exists o. split; [left|]. apply (P1 x prop Hx).
      rewrite H2 in Hrob. by apply remove_ids_is_robot in Hrob.
    + destruct (P2 x prop Hx Hrob) as (o' & Ho' & Hg). exists o'.
      split; [by right|]. rewrite H1 in Hg.
      assert (Hxo : x ∉ ({[o]} : gset positive)).
      { intros Hxo. rewrite H2, H1 in Hrob. unfold is_robot in Hrob.
        rewrite !remove_ids_lookup in Hrob. case_decide; [done|].
        by rewrite decide_True in Hrob. }
      rewrite remove_ids_Group in Hg by done.
      by apply elem_of_keep in Hg as [_ ?].
Qed.

Lemma robot_grown m0 dem m A x :
  inv m0 dem m A → is_robot m x = true → is_robot m0 x = true.
Proof.
  intros Hinv Hrob. unfold is_robot in *.
  destruct (m !! x) as [obj|] eqn:Hm; [|done].
  destruct (m0 !! x) as [obj0|] eqn:H0.
  - destruct (inv_old _ _ _ _ Hinv _ _ H0) as (obj' & Hm' & _ & _ & _ & Hg).
    simplify_eq. destruct (data obj0); try (by rewrite Hg in Hrob).
    destruct Hg as (n & Hg & _). by rewrite Hg in Hrob.
  - assert (HA : x ∈ A) by (apply (inv_new _ _ _ _ Hinv); eauto).
    apply (inv_all _ _ _ _ Hinv) in HA as (L & o & _ & Hf).
    apply find_link_Some in Hf as [_ Hlo]. unfold LinkedObject_of in Hlo.
    rewrite Hm in Hlo. by destruct (data obj).
Qed.

(** Once the queue holds no change of a robot, delivery ends without a
    further pass. *)
Lemma deliver_quiet getUniqueObjectName getSubObject warn_bound resets d :
  (∀ x prop, (x, prop) ∈ touched d → is_robot (objects d) x = false) →
  deliver getUniqueObjectName getSubObject warn_bound (S (length (touched d))) resets d
  = Some (Ok resets, mkDocument (objects d) (warnings d) []).
Proof.
  destruct d as [m w q]. cbn [touched objects warnings].
  induction q as [|[x prop] q IH]; intros Hq; [done|].
  cbn [length]. cbn [deliver touched objects warnings].
  rewrite (Hq x prop) by left. apply IH. intros y p Hy. apply (Hq y p). by right.
Qed.

Section chain.

Variable getUniqueObjectName : gset string → string → string.
Variable getSubObject : oid → string → Placement.
Variable warn_bound : bool.
Hypothesis host_fresh : fresh_names getUniqueObjectName.

Abbreviation reset_group_of :=
  (Robot.reset_group_of getUniqueObjectName getSubObject warn_bound).
Abbreviation reset_group := (Robot.reset_group getUniqueObjectName getSubObject warn_bound).
Abbreviation onChanged := (Robot.onChanged getUniqueObjectName getSubObject warn_bound).
Abbreviation deliver := (Robot.deliver getUniqueObjectName getSubObject warn_bound).

(** A pass that returns queues no change of a robot. *)
Lemma reset_group_of_quiet robot flags d d' :
  wf (objects d) → flags_of (objects d) robot = Some flags →
  reset_group_of robot d = (Ok tt, d') →
  touched_by d d' (λ x, is_robot (objects d') x = false).
Proof.
  intros Hwf Hflags H.
  destruct (reset_group_of_run _ _ _ host_fresh _ _ _ _ Hwf Hflags H)
    as (d1 & all & Hinv & Hst & (n1 & Ht1 & P1) & Hcov & Hrm).
  pose proof (inv_wf _ _ _ _ Hinv) as (Hn & _ & Ho & _).
  destruct (remove_objects_run _ _ _ Hn Hrm) as [Hobj _].
  destruct (remove_objects_touched _ _ _ Hn Hrm) as (n2 & Ht2 & P2).
  exists (n1 ++ n2). split; [by rewrite Ht2, Ht1, (assoc_L (++))|].
  intros x prop Hx. destruct (is_robot (objects d') x) eqn:Hrob; [|done].
  exfalso. assert (Hrob1 : is_robot (objects d1) x = true).
  { rewrite Hobj in Hrob. by apply remove_ids_is_robot in Hrob. }
  apply elem_of_app in Hx as [Hx|Hx].
  - apply P1 in Hx. apply (robot_grown _ _ _ _ _ Hinv) in Hrob1. congruence.
  - destruct (P2 x prop Hx Hrob) as (o & Ho' & Hg).
    apply elem_of_remove_dups, list_elem_of_difference in Ho' as [Ho' _].
    apply list_elem_of_join in Ho' as (grp & Hog & (L & -> & HL)%list_elem_of_fmap).
    unfold links_of in HL. apply list_elem_of_filter in HL as [HL _].
    pose proof HL as (obj0 & g & r & v & c & H0 & Hd0)%is_link_true.
    destruct (inv_old _ _ _ _ Hinv _ _ H0) as (obj & H1 & _ & _ & _ & Hgr).
    rewrite Hd0 in Hgr. destruct Hgr as (n & Hgr & _).
    rewrite one_owner_spec in Ho. unfold Group_of in Hog, Hg.
    rewrite H0, Hd0 in Hog. cbn in Hog.
    unfold is_robot in Hrob1.
    destruct (objects d1 !! x) as [ox|] eqn:Ex; [|done].
    assert (x = L) as ->.
    { apply (Ho x L ox obj o Ex H1 Hg). rewrite Hgr. cbn.
      apply elem_of_app. by left. }
    simplify_eq. by rewrite Hgr in Hrob1.
Qed.

(** Without its three flags the robot is left alone. *)
Lemma reset_group_of_uninitialized robot d :
  is_robot (objects d) robot = true → flags_of (objects d) robot = None →
  reset_group_of robot d = (Ok tt, d).
Proof.
  intros Hrob Hflags. unfold is_robot, flags_of in *.
  destruct (objects d !! robot) as [obj|] eqn:Hr; [|done].
  unfold Robot.reset_group_of.
  rewrite !(bind_eq _ _ _ _ _ (hasattr_Ok robot _ d obj Hr)).
  destruct (data obj) as [| | |g [a|] [b|] [c|]|]; try done.
Qed.

(** C7: the changes that one change of a flag or of the group of a robot
    sets off come to an end, and [reset_group] runs once at most: the pass
    writes the groups of links and the properties of proxies, never a
    property of a robot. *)
Theorem reset_group_chain_terminates robot prop d :
  wf (objects d) → touched d = [(robot, prop)] →
  ∃ fuel out, deliver fuel 0 d = Some out ∧ ∀ n, out.1 = Ok n → (n ≤ 1)%nat.
Proof.
  intros Hwf Hq. destruct d as [m w q]. cbn in Hq, Hwf. subst q.
  destruct (is_robot m robot) eqn:Hrob.
  2:{ exists 2, (Ok 0, mkDocument m w []). cbn. rewrite Hrob. split; [done|].
      intros n [= <-]. lia. }
  set (d1 := mkDocument m w []).
  assert (Hname : ∃ name, get_Name robot d1 = (Ok name, d1)).
  { unfold get_Name, bind, get_object, is_robot in *. cbn.
    destruct (m !! robot); [eauto|done]. }
  destruct Hname as [name Hname].
  assert (Hon : onChanged (Robot.__init__ robot) robot prop d1
                = if triggers prop then reset_group_of robot d1 else (Ok tt, d1)).
  { unfold Robot.onChanged. rewrite (bind_eq _ _ _ _ _ Hname).
    unfold triggers. cbn. by case_bool_decide. }
  assert (Hend : ∀ k (d2 : Document),
            touched_by d1 d2 (λ x, is_robot (objects d2) x = false) →
            ∃ fuel out, Robot.deliver getUniqueObjectName getSubObject warn_bound
                          fuel k d2 = Some out ∧ out.1 = Ok k).
  { intros k d2 (new & Ht & Hnew). eexists _, _.
    split; [apply deliver_quiet|done].
    intros x p Hx. rewrite Ht in Hx. cbn in Hx. eauto. }
  destruct (triggers prop) eqn:Htr.
  - destruct (reset_group_of robot d1) as [[[]|e] d2] eqn:Hrun.
    + assert (Htb : touched_by d1 d2 (λ x, is_robot (objects d2) x = false)).
      { destruct (flags_of m robot) as [flags|] eqn:Hflags.
        - by apply (reset_group_of_quiet robot flags).
        - rewrite reset_group_of_uninitialized in Hrun by done.
          injection Hrun as <-. apply touched_by_refl. }
      destruct (Hend 1 d2 Htb) as (fuel & out & Hd & Hout).
      exists (S fuel), out. split.
      * cbn [Robot.deliver touched objects warnings]. rewrite Hrob.
        fold d1. rewrite Hon, Htr. done.
      * intros n Hn. rewrite Hout in Hn. injection Hn as <-. lia.
    + exists 1, (Raise e, d2). split.
      * cbn [Robot.deliver touched objects warnings]. rewrite Hrob.
        fold d1. by rewrite Hon.
      * intros n Hn. discriminate.
  - destruct (Hend 0 d1 (touched_by_refl _ _)) as (fuel & out & Hd & Hout).
    exists (S fuel), out. split.
    + cbn [Robot.deliver touched objects warnings]. rewrite Hrob.
      fold d1. rewrite Hon, Htr. done.
    + intros n Hn. rewrite Hout in Hn. injection Hn as <-. lia.
Qed.

End chain.

(** * One synchronization *)

Lemma unique_names_insert_new m p pobj :
  unique_names m → m !! p = None →
  (∀ x obj, m !! x = Some obj → Name obj ≠ Name pobj) →
  unique_names (<[p := pobj]> m).
Proof.
  rewrite !unique_names_spec. intros Hu Hp Hnew x y ox oy Hx Hy Hn.
  destruct (decide (x = p)) as [->|Hxp], (decide (y = p)) as [->|Hyp]; [done|..].
  - rewrite lookup_insert_eq in Hx. rewrite lookup_insert_ne in Hy by done.
    simplify_eq. by destruct (Hnew y oy Hy).
  - rewrite lookup_insert_eq in Hy. rewrite lookup_insert_ne in Hx by done.
    simplify_eq. by destruct (Hnew x ox Hx).
  - rewrite lookup_insert_ne in Hx, Hy by done. by eapply Hu.
Qed.

Lemma unique_names_same_name m x obj obj' :
  unique_names m → m !! x = Some obj → Name obj' = Name obj →
  unique_names (<[x := obj']> m).
Proof.
  rewrite !unique_names_spec. intros Hu Hm Hn a b oa ob Ha Hb Hab.
  destruct (decide (a = x)) as [->|Hax], (decide (b = x)) as [->|Hbx]; [done|..].
  - rewrite lookup_insert_eq in Ha. rewrite lookup_insert_ne in Hb by done.
    simplify_eq. apply (Hu x b obj ob Hm Hb). congruence.
  - rewrite lookup_insert_eq in Hb. rewrite lookup_insert_ne in Ha by done.
    simplify_eq. apply (Hu a x oa obj Ha Hm). congruence.
  - rewrite lookup_insert_ne in Ha, Hb by done. by eapply Hu.
Qed.

Section synchronization.

Variable getUniqueObjectName : gset string → string → string.
Variable getSubObject : oid → string → Placement.

(** The objects that were not in [m0] carry the label [label] and a name
    the host made from it; those that were keep their names. *)
Definition named (label : string) (m0 m : gmap positive DocumentObject) : Prop :=
  (∀ x obj, m0 !! x = Some obj → ∃ obj', m !! x = Some obj' ∧ Name obj' = Name obj)
  ∧ (∀ p pobj, m0 !! p = None → m !! p = Some pobj →
       Label pobj = label ∧ ∃ used, Name pobj = getUniqueObjectName used label).

Lemma named_refl label m : named label m m.
Proof. split; [by eauto|]. intros p pobj Hn Hs. congruence. Qed.

Lemma named_new label m0 m p pobj :
  named label m0 m → m !! p = None →
  Label pobj = label → (∃ used, Name pobj = getUniqueObjectName used label) →
  named label m0 (<[p := pobj]> m).
Proof.
  intros [H1 H2] Hp Hl Hn. split.
  - intros x obj Hx. destruct (H1 x obj Hx) as (obj' & Hx' & ?).
    exists obj'. split; [|done]. rewrite lookup_insert_ne; [done|]. congruence.
  - intros q qobj Hq0 Hq. destruct (decide (p = q)) as [->|Hne].
    + rewrite lookup_insert_eq in Hq. by injection Hq as <-.
    + rewrite lookup_insert_ne in Hq by done. eauto.
Qed.

Lemma named_old label m0 m x obj obj' :
  named label m0 m → is_Some (m0 !! x) → m !! x = Some obj → Name obj' = Name obj →
  named label m0 (<[x := obj']> m).
Proof.
  intros [H1 H2] [obj0 H0] Hx Hn. split.
  - intros y oy Hy. destruct (decide (x = y)) as [->|Hne].
    + rewrite lookup_insert_eq. destruct (H1 y oy Hy) as (? & ? & ?).
      eexists. split; [done|]. congruence.
    + rewrite lookup_insert_ne by done. eauto.
  - intros q qobj Hq0 Hq. rewrite lookup_insert_ne in Hq by congruence. eauto.
Qed.

Section warn.

Variable warn_bound : bool.

Abbreviation _add_links_lod_from :=
  (Robot._add_links_lod_from getUniqueObjectName getSubObject warn_bound).
Abbreviation _add_links_lod :=
  (Robot._add_links_lod getUniqueObjectName getSubObject warn_bound).

Lemma add_links_lod_from_named link lobj0 objs lod acc m0 d r d' :
  m0 !! link = Some lobj0 →
  named (lod_name lod (Name lobj0)) m0 (objects d) →
  _add_links_lod_from link objs lod acc d = (r, d') →
  named (lod_name lod (Name lobj0)) m0 (objects d').
Proof.
  intros Hl0. revert acc d. induction objs as [|o objs IH]; intros acc d Hnm H.
  - by injection H as <- <-.
  - cbn [Robot._add_links_lod_from] in H.
    apply bind_run in H as [(found & d1 & H1 & H)|(e & H1 & ->)];
      apply existing_link_run in H1 as [-> _]; [|done].
    destruct found as [l|]; [by eapply IH|].
    apply bind_run in H as [(p & d1 & H1 & H)|(e & H1 & ->)].
    + apply (IH (acc ++ [p]) d1); [|done].
      apply new_lod_link_outcome in H1.
      destruct (proj1 Hnm link lobj0 Hl0) as (lobj & Hl & Hname).
      rewrite Hl, Hname in H1.
      destruct H1 as (pobj & Hlab & Hnam & [(lobj' & _ & Hn' & ->)|(-> & _)]).
      * apply (named_old _ _ _ link lobj lobj'); [|by exists lobj0| |congruence].
        -- apply named_new; eauto. apply not_elem_of_dom, is_fresh.
        -- rewrite lookup_insert_ne; [done|]. intros <-.
           pose proof (is_fresh (dom (objects d))) as Hf.
           apply not_elem_of_dom in Hf. congruence.
      * apply named_new; eauto. apply not_elem_of_dom, is_fresh.
    + apply new_lod_link_outcome in H1.
      destruct (proj1 Hnm link lobj0 Hl0) as (lobj & Hl & Hname).
      rewrite Hl, Hname in H1.
      destruct H1 as (pobj & Hlab & Hnam & [(lobj' & _ & Hn' & ->)|(-> & _)]).
      * apply (named_old _ _ _ link lobj lobj'); [|by exists lobj0| |congruence].
        -- apply named_new; eauto. apply not_elem_of_dom, is_fresh.
        -- rewrite lookup_insert_ne; [done|]. intros <-.
           pose proof (is_fresh (dom (objects d))) as Hf.
           apply not_elem_of_dom in Hf. congruence.
      * apply named_new; eauto. apply not_elem_of_dom, is_fresh.
Qed.

(** The names stay unique, whatever the outcome. *)
Lemma new_lod_link_unique_names link o lod d r d' :
  fresh_names getUniqueObjectName → unique_names (objects d) →
  Robot.new_lod_link getUniqueObjectName getSubObject warn_bound link o lod d
  = (r, d') →
  unique_names (objects d').
Proof.
  intros Hfresh Hu H. apply new_lod_link_outcome in H.
  destruct (objects d !! link) as [lobj|] eqn:Hl; [|by destruct H as [-> _]].
  destruct H as (pobj & _ & Hname & Hd').
  assert (Hfr : objects d !! fresh (dom (objects d)) = None).
  { apply not_elem_of_dom, is_fresh. }
  assert (Hp : unique_names (<[fresh (dom (objects d)) := pobj]> (objects d))).
  { apply unique_names_insert_new; [done|done|].
    intros x obj Hx Heq. apply (Hfresh (names d) (lod_name lod (Name lobj))).
    rewrite <- Hname, <- Heq. apply elem_of_names. eauto. }
  destruct Hd' as [(lobj' & _ & Hn' & ->)|(-> & _)]; [|done].
  apply (unique_names_same_name _ link lobj lobj'); [done| |done].
  rewrite lookup_insert_ne; [done|]. congruence.
Qed.

Lemma add_links_lod_from_unique_names link objs lod acc d r d' :
  fresh_names getUniqueObjectName → unique_names (objects d) →
  _add_links_lod_from link objs lod acc d = (r, d') →
  unique_names (objects d').
Proof.
  intros Hfresh. revert acc d. induction objs as [|o objs IH]; intros acc d Hu H.
  - by injection H as <- <-.
  - cbn [Robot._add_links_lod_from] in H.
    apply bind_run in H as [(found & d1 & H1 & H)|(e & H1 & ->)];
      apply existing_link_run in H1 as [-> _]; [|done].
    destruct found as [l|]; [by eapply IH|].
    apply bind_run in H as [(p & d1 & H1 & H)|(e & H1 & ->)].
    + eapply IH; [|done]. by eapply new_lod_link_unique_names.
    + by eapply new_lod_link_unique_names.
Qed.

(** C8, amended: whatever the outcome of [_add_links_lod], every object
    it has added to the document has the label [lod], underscore, the name
    of the link, "000", and the name that the host made when asked for that
    same text.  So any two of them have the same label and were asked the
    same name; but their names differ, the host giving no name that is in
    use. *)
Theorem add_links_lod_names link objs lod d r d' lobj :
  fresh_names getUniqueObjectName → unique_names (objects d) →
  objects d !! link = Some lobj →
  _add_links_lod link objs lod d = (r, d') →
  lod_name lod (Name lobj) = lod +:+ "_" +:+ Name lobj +:+ "000"
  ∧ (∀ p pobj, objects d !! p = None → objects d' !! p = Some pobj →
       Label pobj = lod_name lod (Name lobj)
       ∧ (∃ used, Name pobj = getUniqueObjectName used (lod_name lod (Name lobj)))
       ∧ ∀ x obj, objects d !! x = Some obj → Name pobj ≠ Name obj)
  ∧ (∀ p q pobj qobj,
       objects d !! p = None → objects d !! q = None →
       objects d' !! p = Some pobj → objects d' !! q = Some qobj →
       Label pobj = Label qobj ∧ (p ≠ q → Name pobj ≠ Name qobj)).
Proof.
  intros Hfresh Hu Hl H. split; [done|].
  assert (Hnm : named (lod_name lod (Name lobj)) (objects d) (objects d')
                ∧ unique_names (objects d')).
  { unfold Robot._add_links_lod in H.
    apply bind_run in H as [(doc & d1 & H1 & H)|(e & H1 & ->)];
      apply get_object_run in H1 as [-> _]; [|split; [apply named_refl|done]].
    split; [eapply add_links_lod_from_named; [done|apply named_refl|done]|].
    by eapply add_links_lod_from_unique_names. }
  destruct Hnm as [[Hold Hnew] Hu']. rewrite unique_names_spec in Hu'. split.
  - intros p pobj Hp Hp'. destruct (Hnew p pobj Hp Hp') as [Hlab Hused].
    split; [done|]. split; [done|]. intros x obj Hx Heq.
    destruct (Hold x obj Hx) as (obj' & Hx' & Hn).
    assert (p = x) by (apply (Hu' p x pobj obj' Hp' Hx'); congruence).
    congruence.
  - intros p q pobj qobj Hp Hq Hp' Hq'.
    destruct (Hnew p pobj Hp Hp') as [-> _].
    destruct (Hnew q qobj Hq Hq') as [-> _]. split; [done|].
    intros Hpq Heq. apply Hpq. by apply (Hu' p q pobj qobj).
Qed.

End warn.

(** Were [warn] bound, an object with more than one structural parent
    and no proxy yet would get its proxy without an exception: one warning
    given, the proxy placed as the sub-object of the first of the parents,
    not at the identity, linked to the object and in the group of the
    link. *)
Lemma add_links_lod_several_parents link o lod d oobj parent subname more :
  wf (objects d) → is_link (objects d) link = true →
  objects d !! o = Some oobj →
  Parents oobj = (parent, subname) :: more → more ≠ [] →
  find_link (objects d) (Group_of (objects d) link) o = None →
  ∃ p d',
    Robot._add_links_lod getUniqueObjectName getSubObject true link [o] lod d
    = (Ok [p], d')
    ∧ warnings d'
      = warnings d ++ ["Wrong object type. " +:+ Name oobj
                       +:+ ".Parents has more than one entry"]
    ∧ LinkPlacement_of (objects d') p = Some (getSubObject parent subname)
    ∧ LinkedObject_of (objects d') p = Some o
    ∧ Group_of (objects d') link = Group_of (objects d) link ++ [p].
Proof.
  intros Hwf Hlink Ho Hpar Hmore Hnone.
  pose proof Hwf as (_ & Hc & _ & Hpx & _).
  rewrite closed_spec in Hc. rewrite proxies_only_spec in Hpx.
  pose proof Hlink as (lobj & g & r & v & c & Hl & Hd)%is_link_true.
  assert (HG : Group_of (objects d) link = g).
  { unfold Group_of. by rewrite Hl, Hd. }
  assert (Hfr : objects d !! fresh (dom (objects d)) = None).
  { apply not_elem_of_dom, is_fresh. }
  assert (Hne : link ≠ fresh (dom (objects d))) by congruence.
  assert (Hprox : ∀ p, p ∈ Group_of (objects d) link →
            is_Some (LinkPlacement_of (objects d) p)).
  { intros p Hp. apply (Hpx link lobj p Hl). rewrite HG in Hp. by rewrite Hd. }
  assert (Hlen : length (Parents oobj) ≠ 1).
  { rewrite Hpar. destruct more; cbn; [done|lia]. }
  unfold Robot._add_links_lod.
  rewrite (bind_eq _ _ _ _ _ (get_object_Ok link d lobj Hl)).
  cbn [Robot._add_links_lod_from].
  rewrite (bind_eq _ _ _ _ _ (existing_link_Ok link o d Hlink Hprox)).
  rewrite Hnone.
  destruct (Robot.new_lod_link getUniqueObjectName getSubObject true link o lod d)
    as [[p|e] d1] eqn:Hrun.
  - rewrite (bind_eq _ _ _ _ _ Hrun). exists p, d1. split; [done|].
    apply new_lod_link_run in Hrun
      as (lobj' & oobj' & Hl' & Ho' & -> & _ & _ & Hm1 & Hw & _).
    + simplify_eq. rewrite Hpar in Hm1. cbn [placement_for] in Hm1.
      rewrite bool_decide_eq_true_2 in Hw by done.
      split; [done|].
      unfold LinkPlacement_of, LinkedObject_of, Group_of. rewrite Hm1.
      rewrite !lookup_insert_eq, !lookup_insert_ne, !lookup_insert_eq by done.
      unfold with_group. rewrite Hl, Hd. done.
    + intros Hin. destruct (Hc link lobj (fresh (dom (objects d))) Hl) as [? ?];
        [|congruence]. left. unfold Group_of in Hin. by rewrite Hl in Hin.
    + intros Heq. rewrite Heq in Hfr. congruence.
  - exfalso. apply new_lod_link_outcome in Hrun. rewrite Hl in Hrun.
    destruct Hrun as (pobj & _ & _ & [(lobj' & ? & _)|(_ & e' & [= ->] & Hwhy)]).
    + done.
    + destruct Hwhy as [[_ Hno]|[(_ & ? & _)|(_ & Hno)]];
        [congruence|done|by eapply Hno].
Qed.

(** X12: as the module stands, [warn] is not bound: for an object without
    proxy whose parents are not exactly one, [_add_links_lod] raises
    [NameError]; no warning is given, and the object just made stays in the
    document, linked to nothing and in no group. *)
Lemma add_links_lod_unbound_warn link o lod d oobj :
  wf (objects d) → is_link (objects d) link = true →
  objects d !! o = Some oobj → length (Parents oobj) ≠ 1 →
  find_link (objects d) (Group_of (objects d) link) o = None →
  ∃ p d',
    Robot._add_links_lod getUniqueObjectName getSubObject false link [o] lod d
    = (Raise (NameError "warn"), d')
    ∧ warnings d' = warnings d
    ∧ objects d !! p = None
    ∧ is_Some (objects d' !! p)
    ∧ LinkedObject_of (objects d') p = None
    ∧ Group_of (objects d') link = Group_of (objects d) link.
Proof.
  intros Hwf Hlink Ho Hlen Hnone.
  pose proof Hwf as (_ & _ & _ & Hpx & _). rewrite proxies_only_spec in Hpx.
  pose proof Hlink as (lobj & g & r & v & c & Hl & Hd)%is_link_true.
  assert (Hfr : objects d !! fresh (dom (objects d)) = None).
  { apply not_elem_of_dom, is_fresh. }
  assert (Hne : link ≠ fresh (dom (objects d))) by congruence.
  assert (Hprox : ∀ p, p ∈ Group_of (objects d) link →
            is_Some (LinkPlacement_of (objects d) p)).
  { intros p Hp. apply (Hpx link lobj p Hl). unfold Group_of in Hp.
    rewrite Hl in Hp. by destruct (data lobj). }
  unfold Robot._add_links_lod.
  rewrite (bind_eq _ _ _ _ _ (get_object_Ok link d lobj Hl)).
  cbn [Robot._add_links_lod_from].
  rewrite (bind_eq _ _ _ _ _ (existing_link_Ok link o d Hlink Hprox)).
  rewrite Hnone. unfold bind.
  rewrite (new_lod_link_unbound getUniqueObjectName getSubObject
             link o lod d lobj oobj Hl Ho Hlen).
  eexists (fresh (dom (objects d))), _. split; [reflexivity|].
  cbn [objects warnings]. split; [done|]. split; [done|].
  unfold LinkedObject_of, Group_of.
  rewrite lookup_insert_eq, lookup_insert_ne by done. cbn [data].
  split; [by eexists|]. done.
Qed.

End synchronization.

(** * A worked document *)

Lemma example_name_fresh : fresh_names example_name.
Proof.
  intros used name. unfold example_name. case_bool_decide; [apply is_fresh|done].
Qed.

Lemma example_wf : wf (objects example_document).
Proof. apply (bool_decide_unpack _). by vm_compute. Qed.

Lemma example_pass_Ok : example_pass = (Ok tt, example_after).
Proof. by vm_compute. Qed.

Lemma ambiguous_wf : wf (objects ambiguous_document).
Proof. apply (bool_decide_unpack _). by vm_compute. Qed.

(** X19 on the worked document. *)
Lemma reset_group_dedup_witness :
  (∀ L p q o,
     L ∈ links_of (objects example_after) 1 →
     p ∈ Group_of (objects example_after) L →
     q ∈ Group_of (objects example_after) L →
     LinkedObject_of (objects example_after) p = Some o →
     LinkedObject_of (objects example_after) q = Some o →
     p = q)
  ∧ (∀ link o found d1 d2,
       Robot._existing_link link o d1 = (Ok found, d2) →
       found = find_link (objects d1) (Group_of (objects d1) link) o).
Proof.
  exact (reset_group_dedup example_name example_placement false example_name_fresh
           (Robot.__init__ 1) 1%positive (true, true, false)
           example_document example_after
           example_wf eq_refl eq_refl example_pass_Ok).
Defined.




(** X18 on the worked document. *)
Lemma reset_group_idempotent_witness :
  Robot.reset_group example_name example_placement false (Robot.__init__ 1)
    example_after
  = (Ok tt, example_after).
Proof.
  exact (reset_group_idempotent example_name example_placement false
           example_name_fresh (Robot.__init__ 1) 1%positive (true, true, false)
           example_document example_after
           example_wf eq_refl eq_refl example_pass_Ok).
Defined.

(** C7 on the worked document, after a change of [ShowVisual]. *)
Lemma reset_group_chain_terminates_witness :
  ∃ fuel out,
    Robot.deliver example_name example_placement false fuel 0 example_changed
    = Some out
    ∧ ∀ n, out.1 = Ok n → (n ≤ 1)%nat.
Proof.
  exact (reset_group_chain_terminates example_name example_placement false
           example_name_fresh 1%positive "ShowVisual" example_changed
           example_wf eq_refl).
Defined.

(** C8, amended, on the worked document: the box and the cylinder get
    two proxies of "arm" in one call, both labelled "visual_arm000", under
    names that differ. *)
Lemma add_links_lod_names_witness :
  let out := Robot._add_links_lod example_name example_placement false
               3 [10; 11]%positive "visual" example_document in
  ∃ pobj qobj,
    objects out.2 !! 32%positive = Some pobj
    ∧ objects out.2 !! 33%positive = Some qobj
    ∧ Label pobj = "visual_arm000" ∧ Label qobj = "visual_arm000"
    ∧ Name pobj ≠ Name qobj.
Proof.
  intros out.
  destruct (add_links_lod_names example_name example_placement false
              3%positive [10; 11]%positive "visual" example_document out.1 out.2
              (mkObject "arm" "arm" [(1%positive, "arm.")]
                 (RosLink [] [12]%positive [] [11]%positive))
              example_name_fresh (proj1 example_wf)
              eq_refl (surjective_pairing out)) as (_ & Hnew & Hboth).
  assert (H32 : is_Some (objects out.2 !! 32%positive)) by (vm_compute; eauto).
  assert (H33 : is_Some (objects out.2 !! 33%positive)) by (vm_compute; eauto).
  destruct H32 as [pobj Hp], H33 as [qobj Hq]. exists pobj, qobj.
  split; [done|]. split; [done|].
  destruct (Hnew 32%positive pobj eq_refl Hp) as [Hlp _].
  destruct (Hnew 33%positive qobj eq_refl Hq) as [Hlq _].
  split; [by rewrite Hlp|]. split; [by rewrite Hlq|].
  destruct (Hboth 32%positive 33%positive pobj qobj eq_refl eq_refl Hp Hq) as [_ Hne].
  by apply Hne.
Defined.

(** C8, as stated, fails there: the second of the two proxies is not
    given the name "visual_arm000", which is in use, and the names of the
    two do not collide. *)
Lemma add_links_lod_names_differ :
  let out := Robot._add_links_lod example_name example_placement false
               3 [10; 11]%positive "visual" example_document in
  objects example_document !! 32%positive = None
  ∧ objects example_document !! 33%positive = None
  ∧ (Name <$> objects out.2 !! 32%positive) = Some "visual_arm000"
  ∧ (Name <$> objects out.2 !! 33%positive) = Some "0"
  ∧ (Label <$> objects out.2 !! 32%positive) = Some "visual_arm000"
  ∧ (Label <$> objects out.2 !! 33%positive) = Some "visual_arm000"
  ∧ "0" ≠ Robot.lod_name "visual" "arm".
Proof. cbv zeta. repeat split; try (by vm_compute). Qed.

(** C2 on the box with two parents: [_add_links_lod] raises [NameError]
    at [warn]; no warning has been given; the object just made is in the
    document, linked to nothing, and the group of the link is as it was;
    and [reset_group] fails with the same exception. *)
Theorem several_parents_raise :
  let out := Robot._add_links_lod example_name example_placement false 2
               [10]%positive "real" ambiguous_document in
  wf (objects ambiguous_document)
  ∧ (Parents <$> objects ambiguous_document !! 10%positive)
    = Some [(20%positive, "Box."); (21%positive, "Box.")]
  ∧ out.1 = Raise (NameError "warn")
  ∧ warnings out.2 = []
  ∧ objects ambiguous_document !! 22%positive = None
  ∧ (data <$> objects out.2 !! 22%positive) = Some (AppLink None Placement_identity)
  ∧ Group_of (objects out.2) 2 = []
  ∧ ambiguous_pass.1 = Raise (NameError "warn").
Proof.
  cbv zeta. split; [exact ambiguous_wf|]. repeat split; by vm_compute.
Qed.

(** C4 on the box with two parents, whose robot has its three flags: the
    first call raises, the second call raises again, and each leaves one
    more object in the document than it found. *)
Theorem reset_group_twice_raises :
  wf (objects ambiguous_document)
  ∧ flags_of (objects ambiguous_document) 1 = Some (true, false, false)
  ∧ ambiguous_pass.1 = Raise (NameError "warn")
  ∧ ambiguous_pass_again.1 = Raise (NameError "warn")
  ∧ size (objects ambiguous_document) = 5
  ∧ size (objects ambiguous_pass.2) = 6
  ∧ size (objects ambiguous_pass_again.2) = 7.
Proof.
  split; [exact ambiguous_wf|]. repeat split; by vm_compute.
Qed.



(** * Further properties of the reconciliation *)

(** ** Removal keeps a document well formed *)

Lemma source_refs_scrub gone dt p :
  p ∈ source_refs (scrub_data gone dt) → (p ∉ gone) ∧ p ∈ source_refs dt.
Proof.
  destruct dt; cbn; try by intros ?%elem_of_nil.
  rewrite !elem_of_app, !elem_of_keep. naive_solver.
Qed.

Lemma link_refs_scrub gone dt :
  link_refs (scrub_data gone dt) = keep gone (link_refs dt).
Proof. by destruct dt. Qed.

Lemma remove_ids_Some gone m x obj :
  remove_ids gone m !! x = Some obj →
  (x ∉ gone) ∧ ∃ obj0, m !! x = Some obj0 ∧ obj = scrub gone obj0.
Proof.
  rewrite remove_ids_lookup. case_decide; [done|].
  destruct (m !! x) as [obj0|]; [|done]. intros [= <-]. eauto.
Qed.

Lemma remove_ids_wf gone m : wf m → wf (remove_ids gone m).
Proof.
  intros (Hn & Hc & Ho & Hp & Hs). split; [by apply remove_ids_unique_names|].
  rewrite closed_spec in Hc. rewrite one_owner_spec in Ho.
  rewrite proxies_only_spec in Hp. rewrite sources_external_spec in Hs.
  split; [|split; [|split]].
  - apply closed_spec. intros x ox p (Hx & ox0 & Hx0 & ->)%remove_ids_Some Hp'.
    cbn [data scrub] in Hp'. rewrite group_refs_scrub, elem_of_keep in Hp'.
    assert (Hpg : (p ∉ gone) ∧ is_Some (m !! p)).
    { destruct Hp' as [[? ?]|[? ?]%source_refs_scrub]; split; eauto. }
    destruct Hpg as [Hpg [pobj Hpobj]].
    rewrite remove_ids_lookup, decide_False, Hpobj by done. by eexists.
  - apply one_owner_spec.
    intros x y ox oy p (_ & ox0 & Hx0 & ->)%remove_ids_Some
      (_ & oy0 & Hy0 & ->)%remove_ids_Some.
    cbn [data scrub]. rewrite !group_refs_scrub, !elem_of_keep.
    intros [_ ?] [_ ?]. by apply (Ho x y ox0 oy0 p).
  - apply proxies_only_spec. intros x ox p (_ & ox0 & Hx0 & ->)%remove_ids_Some.
    cbn [data scrub]. rewrite link_refs_scrub, elem_of_keep. intros [Hpg Hp'].
    rewrite remove_ids_LinkPlacement by done. by apply (Hp x ox0).
  - apply sources_external_spec.
    intros x y ox oy p (_ & ox0 & Hx0 & ->)%remove_ids_Some
      (_ & oy0 & Hy0 & ->)%remove_ids_Some.
    cbn [data scrub]. intros [_ Hsrc]%source_refs_scrub.
    rewrite link_refs_scrub, elem_of_keep. intros [_ ?].
    by apply (Hs x y ox0 oy0 p).
Qed.

(** ** More of what a pass leaves *)

Section kept.

#[local] Set Default Proof Using "All".

Variable m0 m1 : gmap positive DocumentObject.
Variable robot : oid.
Variable flags : bool * bool * bool.
Variable A : list oid.
Variable gone : gset positive.

Hypothesis Hwf0 : wf m0.
Hypothesis Hflags : flags_of m0 robot = Some flags.
Hypothesis Hinv : inv m0 (asked m0 robot flags) m1 A.
Hypothesis Hst : stable m0 m1.
Hypothesis Hcov :
  ∀ L o, asked m0 robot flags L o →
         ∃ a, a ∈ A ∧ find_link m1 (Group_of m1 L) o = Some a.
Hypothesis Hgone :
  ∀ x, x ∈ gone ↔
       (∃ L, L ∈ links_of m0 robot ∧ x ∈ Group_of m0 L) ∧ x ∉ A.

Lemma kept_wf : wf (remove_ids gone m1).
Proof. apply remove_ids_wf. exact (inv_wf _ _ _ _ Hinv). Qed.

(** Only what a link of the robot owns is removed. *)
Lemma kept_group x obj0 p :
  m0 !! x = Some obj0 → p ∈ group_refs (data obj0) → p ∈ gone →
  x ∈ links_of m0 robot.
Proof.
  intros H0 Hp (L & HL & HpL)%(gone_old m0 m1 robot flags A gone Hwf0 Hflags Hinv Hst Hcov Hgone).
  pose proof HL as (_ & lobj & g & r & v & c & Hl & Hd)%(links_spec m0 m1 robot flags A gone Hwf0 Hflags Hinv Hst Hcov Hgone).
  destruct Hwf0 as (_ & _ & Ho & _). rewrite one_owner_spec in Ho.
  unfold Group_of in HpL. rewrite Hl in HpL.
  by rewrite (Ho x L obj0 lobj p H0 Hl Hp HpL).
Qed.

Lemma kept_source x obj0 p :
  m0 !! x = Some obj0 → p ∈ source_refs (data obj0) → p ∉ gone.
Proof.
  intros H0 Hp (L & HL & HpL)%(gone_old m0 m1 robot flags A gone Hwf0 Hflags Hinv Hst Hcov Hgone).
  apply (links_spec m0 m1 robot flags A gone Hwf0 Hflags Hinv Hst Hcov Hgone) in HL
    as (_ & lobj & g & r & v & c & Hl & Hd).
  destruct Hwf0 as (_ & _ & _ & _ & Hs). rewrite sources_external_spec in Hs.
  apply (Hs x L obj0 lobj p H0 Hl Hp).
  unfold Group_of in HpL. rewrite Hl in HpL. by rewrite Hd in HpL |- *.
Qed.

(** A group that is not the group of a link of the robot gains nothing. *)
Lemma kept_new x obj0 obj1 g n r v c :
  m0 !! x = Some obj0 → m1 !! x = Some obj1 →
  data obj0 = RosLink g r v c → data obj1 = RosLink (g ++ n) r v c →
  Forall (λ q, m0 !! q = None) n →
  x ∉ links_of m0 robot → n = [].
Proof.
  intros H0 H1 Hd0 Hd1 Hn Hx. destruct n as [|q n]; [done|]. exfalso.
  apply Forall_cons in Hn as [Hq _].
  pose proof (inv_wf _ _ _ _ Hinv) as (_ & Hc & Ho & _).
  rewrite closed_spec in Hc. rewrite one_owner_spec in Ho.
  assert (Hqg : q ∈ group_refs (data obj1)).
  { rewrite Hd1. cbn. apply elem_of_app. right. by left. }
  assert (HqA : q ∈ A).
  { apply (inv_new _ _ _ _ Hinv); [done|]. apply (Hc x obj1 q H1). by left. }
  apply (inv_all _ _ _ _ Hinv) in HqA as (L & o & [HL _] & Hf).
  apply find_link_Some in Hf as [HqL _]. unfold Group_of in HqL.
  destruct (m1 !! L) as [lobj1|] eqn:HL1; [|by apply elem_of_nil in HqL].
  by rewrite (Ho x L obj1 lobj1 q H1 HL1 Hqg HqL) in Hx.
Qed.

(** What is no proxy is kept: a source or an assembly as it is, a robot
    as it is, a link with the sources it names. *)
Lemma kept_object x obj0 :
  m0 !! x = Some obj0 →
  match data obj0 with
  | Feature | RosRobot _ _ _ _ =>
      ∃ obj2, remove_ids gone m1 !! x = Some obj2
              ∧ Name obj2 = Name obj0 ∧ Label obj2 = Label obj0
              ∧ data obj2 = data obj0
  | RosLink g r v c =>
      ∃ obj2 g', remove_ids gone m1 !! x = Some obj2
              ∧ Name obj2 = Name obj0 ∧ Label obj2 = Label obj0
              ∧ data obj2 = RosLink g' r v c
              ∧ (x ∉ links_of m0 robot → g' = g)
  | _ => True
  end.
Proof.
  intros H0.
  destruct (inv_old _ _ _ _ Hinv _ _ H0) as (obj1 & H1 & Hn & Hl & _ & Hg).
  assert (Hx : data obj0 = Feature ∨ (∃ g a b c, data obj0 = RosRobot g a b c)
               ∨ (∃ g r v c, data obj0 = RosLink g r v c) →
               remove_ids gone m1 !! x = Some (scrub gone obj1)).
  { intros Hk. rewrite remove_ids_lookup, decide_False, H1; [done|].
    intros [pl Hpl]%(gone_proxy m0 m1 robot flags A gone Hwf0 Hflags Hinv Hst Hcov Hgone).
    unfold LinkPlacement_of in Hpl. rewrite H0 in Hpl.
    destruct Hk as [Hk|[(? & ? & ? & ? & Hk)|(? & ? & ? & ? & Hk)]];
      by rewrite Hk in Hpl. }
  destruct (data obj0) as [|lo pl|g r v c|g a b c|t p c o] eqn:Hd0; try done.
  - exists (scrub gone obj1). split; [apply Hx; by left|].
    split; [done|]. split; [done|]. cbn. by rewrite Hg.
  - destruct Hg as (n & Hg & Hnew).
    exists (scrub gone obj1), (keep gone (g ++ n)).
    split; [apply Hx; right; right; eauto|].
    split; [done|]. split; [done|]. split.
    + cbn. rewrite Hg. cbn. f_equal; apply keep_all; intros p Hp;
        apply (kept_source x obj0 p H0); rewrite Hd0; cbn; set_solver.
    + intros Hnl.
      rewrite (kept_new x obj0 obj1 g n r v c H0 H1 Hd0 Hg Hnew Hnl), app_nil_r.
      apply keep_all. intros p Hp Hpg. apply Hnl.
      apply (kept_group x obj0 p H0); [by rewrite Hd0|done].
  - exists (scrub gone obj1). split; [apply Hx; right; left; eauto|].
    split; [done|]. split; [done|]. cbn. rewrite Hg. cbn. f_equal.
    apply keep_all. intros p Hp Hpg.
    assert (HxL : x ∈ links_of m0 robot).
    { apply (kept_group x obj0 p H0); [by rewrite Hd0|done]. }
    apply (links_spec m0 m1 robot flags A gone Hwf0 Hflags Hinv Hst Hcov Hgone) in HxL
      as (_ & ? & ? & ? & ? & ? & ? & ?). congruence.
Qed.

(** What a pass adds is the proxy of a demanded source, in the group of
    its link. *)
Lemma kept_added x obj2 :
  m0 !! x = None → remove_ids gone m1 !! x = Some obj2 →
  ∃ L o, asked m0 robot flags L o
         ∧ find_link (remove_ids gone m1) (Group_of (remove_ids gone m1) L) o = Some x.
Proof.
  intros H0 (Hxg & obj1 & H1 & _)%remove_ids_Some.
  assert (HxA : x ∈ A) by (apply (inv_new _ _ _ _ Hinv); eauto).
  pose proof HxA as (L & o & Hd & Hf)%(inv_all _ _ _ _ Hinv).
  exists L, o. split; [done|].
  by destruct (found_after m0 m1 robot flags A gone Hwf0 Hflags Hinv Hst Hcov Hgone
                 L o x Hd Hf HxA).
Qed.

End kept.

(** ** The pass as its callers see it *)

Section pass_more.

Variable getUniqueObjectName : gset string → string → string.
Variable getSubObject : oid → string → Placement.
Variable warn_bound : bool.
Hypothesis host_fresh : fresh_names getUniqueObjectName.

Abbreviation reset_group := (Robot.reset_group getUniqueObjectName getSubObject warn_bound).

(** The groups after a pass: proxies of demanded sources, one for each. *)
Lemma pass_groups robot flags d d' :
  wf (objects d) → flags_of (objects d) robot = Some flags →
  Robot.reset_group_of getUniqueObjectName getSubObject warn_bound robot d = (Ok tt, d') →
  ∀ L, L ∈ links_of (objects d) robot →
    (∀ p, p ∈ Group_of (objects d') L →
       ∃ o, demanded (objects d) flags L o
            ∧ LinkedObject_of (objects d') p = Some o
            ∧ is_Some (LinkPlacement_of (objects d') p))
    ∧ (∀ o, demanded (objects d) flags L o →
         ∃ p, p ∈ Group_of (objects d') L
              ∧ LinkedObject_of (objects d') p = Some o).
Proof.
  intros Hwf Hflags H L HL.
  destruct (pass_facts _ _ _ host_fresh _ _ _ _ Hwf Hflags H)
    as (m1 & all & gone & Hinv & Hst & Hcov & Hgone & Hd').
  destruct (after_settled _ _ _ _ _ _ Hwf Hflags Hinv Hst Hcov Hgone)
    as (_ & Hmem & Hall).
  pose proof (links_after _ _ _ _ _ _ Hwf Hflags Hinv Hst Hcov Hgone) as Hlinks.
  pose proof (demanded_after _ _ _ _ _ _ Hwf Hflags Hinv Hst Hcov Hgone L) as Hdem.
  rewrite Hd'. rewrite <- Hlinks in HL. split.
  - intros p Hp. destruct (Hmem L p HL Hp) as (Hpl & o & Ho & Hf).
    exists o. apply find_link_Some in Hf as [_ Hlo].
    split; [|done]. apply Hdem; [by rewrite <- Hlinks|done].
  - intros o Ho. destruct (Hall L o HL) as [p Hf].
    { apply Hdem; [by rewrite <- Hlinks|done]. }
    exists p. by apply find_link_Some in Hf.
Qed.

Lemma pass_added robot flags d d' :
  wf (objects d) → flags_of (objects d) robot = Some flags →
  Robot.reset_group_of getUniqueObjectName getSubObject warn_bound robot d = (Ok tt, d') →
  ∀ x, objects d !! x = None → is_Some (objects d' !! x) →
    ∃ L o, L ∈ links_of (objects d) robot ∧ demanded (objects d) flags L o
           ∧ x ∈ Group_of (objects d') L
           ∧ LinkedObject_of (objects d') x = Some o.
Proof.
  intros Hwf Hflags H x H0 [obj2 H2].
  destruct (pass_facts _ _ _ host_fresh _ _ _ _ Hwf Hflags H)
    as (m1 & all & gone & Hinv & Hst & Hcov & Hgone & Hd').
  rewrite Hd' in H2 |- *.
  destruct (kept_added _ _ _ _ _ _ Hwf Hflags Hinv Hst Hcov Hgone x obj2 H0 H2)
    as (L & o & [HL Hdem] & Hf).
  exists L, o. by apply find_link_Some in Hf as [? ?].
Qed.

(** X2: a pass that returns leaves the document well formed: names stay
    unique, every reference resolves, no object is in two groups, the
    groups of links hold placed proxies only, and no source is a proxy. *)
Theorem reset_group_wf (self : instance) robot flags d d' :
  wf (objects d) →
  self !! "robot" = Some (VObj robot) →
  flags_of (objects d) robot = Some flags →
  reset_group self d = (Ok tt, d') →
  wf (objects d').
Proof.
  intros Hwf Hself Hflags H. rewrite (reset_group_self _ _ _ _ _ _ Hself) in H.
  destruct (pass_facts _ _ _ host_fresh _ _ _ _ Hwf Hflags H)
    as (m1 & all & gone & Hinv & Hst & Hcov & Hgone & ->).
  exact (kept_wf _ _ _ _ _ _ Hwf Hflags Hinv Hst Hcov Hgone).
Qed.

(** X3: after a pass that returns, the group of each link of the robot is
    made of placed proxies of the sources the flags ask for, every such
    source has its proxy there, and every object the pass has added is such
    a proxy. *)
Theorem reset_group_groups (self : instance) robot flags d d' :
  wf (objects d) →
  self !! "robot" = Some (VObj robot) →
  flags_of (objects d) robot = Some flags →
  reset_group self d = (Ok tt, d') →
  (∀ L, L ∈ links_of (objects d) robot →
     (∀ p, p ∈ Group_of (objects d') L →
        ∃ o, demanded (objects d) flags L o
             ∧ LinkedObject_of (objects d') p = Some o
             ∧ is_Some (LinkPlacement_of (objects d') p))
     ∧ (∀ o, demanded (objects d) flags L o →
          ∃ p, p ∈ Group_of (objects d') L
               ∧ LinkedObject_of (objects d') p = Some o))
  ∧ (∀ x, objects d !! x = None → is_Some (objects d' !! x) →
       ∃ L o, L ∈ links_of (objects d) robot ∧ demanded (objects d) flags L o
              ∧ x ∈ Group_of (objects d') L
              ∧ LinkedObject_of (objects d') x = Some o).
Proof.
  intros Hwf Hself Hflags H. rewrite (reset_group_self _ _ _ _ _ _ Hself) in H.
  split; [by apply (pass_groups robot flags d d')|by apply (pass_added robot flags d d')].
Qed.

(** X4: a pass that returns writes no source, no robot and no list of
    sources: an object that is a plain feature or a robot is in the document
    afterwards with its name, label and data; a link keeps its name, label,
    [Real], [Visual] and [Collision]; and a link that is not in the group of
    this robot keeps its group too. *)
Theorem reset_group_frame (self : instance) robot flags d d' :
  wf (objects d) →
  self !! "robot" = Some (VObj robot) →
  flags_of (objects d) robot = Some flags →
  reset_group self d = (Ok tt, d') →
  ∀ x obj, objects d !! x = Some obj →
    match data obj with
    | Feature | RosRobot _ _ _ _ =>
        ∃ obj', objects d' !! x = Some obj'
                ∧ Name obj' = Name obj ∧ Label obj' = Label obj
                ∧ data obj' = data obj
    | RosLink g r v c =>
        ∃ obj' g', objects d' !! x = Some obj'
                ∧ Name obj' = Name obj ∧ Label obj' = Label obj
                ∧ data obj' = RosLink g' r v c
                ∧ (x ∉ links_of (objects d) robot → g' = g)
    | _ => True
    end.
Proof.
  intros Hwf Hself Hflags H x obj Hx.
  rewrite (reset_group_self _ _ _ _ _ _ Hself) in H.
  destruct (pass_facts _ _ _ host_fresh _ _ _ _ Hwf Hflags H)
    as (m1 & all & gone & Hinv & Hst & Hcov & Hgone & ->).
  exact (kept_object _ _ _ _ _ _ Hwf Hflags Hinv Hst Hcov Hgone x obj Hx).
Qed.

(** X5: with the three flags off, a pass that returns empties the group
    of every link of the robot and adds no object. *)
Theorem reset_group_all_off (self : instance) robot d d' :
  wf (objects d) →
  self !! "robot" = Some (VObj robot) →
  flags_of (objects d) robot = Some (false, false, false) →
  reset_group self d = (Ok tt, d') →
  (∀ L, L ∈ links_of (objects d) robot → Group_of (objects d') L = [])
  ∧ (∀ x, is_Some (objects d' !! x) → is_Some (objects d !! x)).
Proof.
  intros Hwf Hself Hflags H. rewrite (reset_group_self _ _ _ _ _ _ Hself) in H.
  assert (Hno : ∀ L o, ¬ demanded (objects d) (false, false, false) L o).
  { intros L o (obj & _ & Ho). destruct (data obj); cbn in Ho; set_solver. }
  split.
  - intros L HL. destruct (pass_groups robot _ d d' Hwf Hflags H L HL) as [Hmem _].
    destruct (Group_of (objects d') L) as [|p g]; [done|].
    destruct (Hmem p) as (o & Ho & _); [by left|]. by destruct (Hno L o).
  - intros x Hx. destruct (objects d !! x) eqn:H0; [done|].
    destruct (pass_added robot _ d d' Hwf Hflags H x H0 Hx) as (L & o & _ & Ho & _).
    by destruct (Hno L o).
Qed.

(** X6: on a robot object that lacks one of [ShowReal], [ShowVisual] and
    [ShowCollision], [reset_group] returns at once: the document is as it
    was. *)
Theorem reset_group_uninitialized (self : instance) robot d :
  self !! "robot" = Some (VObj robot) →
  is_Some (objects d !! robot) →
  flags_of (objects d) robot = None →
  reset_group self d = (Ok tt, d).
Proof.
  intros Hself [obj Hr] Hflags. rewrite (reset_group_self _ _ _ _ _ _ Hself).
  unfold flags_of in Hflags. rewrite Hr in Hflags.
  unfold Robot.reset_group_of.
  rewrite !(bind_eq _ _ _ _ _ (hasattr_Ok robot _ d obj Hr)).
  destruct (data obj) as [| | |g [a|] [b|] [c|]|]; try done.
Qed.

(** X7: a pass that returns changes no property of a robot: every change
    it queues for notification is a change of another object. *)
Theorem reset_group_writes_no_robot (self : instance) robot flags d d' :
  wf (objects d) →
  self !! "robot" = Some (VObj robot) →
  flags_of (objects d) robot = Some flags →
  reset_group self d = (Ok tt, d') →
  ∃ new, touched d' = touched d ++ new
         ∧ ∀ x prop, (x, prop) ∈ new → is_robot (objects d') x = false.
Proof.
  intros Hwf Hself Hflags H. rewrite (reset_group_self _ _ _ _ _ _ Hself) in H.
  exact (reset_group_of_quiet _ _ _ host_fresh robot flags d d' Hwf Hflags H).
Qed.

End pass_more.



(** * Further properties of one synchronization *)

Lemma omap_Forall2 {A B} (f : A → option B) (l : list A) (k : list B) :
  Forall2 (λ a b, f a = Some b) l k → omap f l = k.
Proof. induction 1 as [|a b l k Hab _ IH]; [done|]. cbn. by rewrite Hab, IH. Qed.

Section found.

Variable getUniqueObjectName : gset string → string → string.
Variable getSubObject : oid → string → Placement.
Variable warn_bound : bool.
Hypothesis host_fresh : fresh_names getUniqueObjectName.

Variable m0 : gmap positive DocumentObject.
Variable dem : oid → oid → Prop.
Hypothesis dem_link : ∀ L o, dem L o → is_link m0 L = true.
Hypothesis dem_source :
  ∀ L o, dem L o → ∃ obj, m0 !! L = Some obj ∧ o ∈ source_refs (data obj).

Abbreviation _add_links_lod_from :=
  (Robot._add_links_lod_from getUniqueObjectName getSubObject warn_bound).

(** The loop, one object at a time. *)
Lemma add_links_lod_from_cons link o objs lod acc d res d' :
  _add_links_lod_from link (o :: objs) lod acc d = (Ok res, d') →
  ∃ a d1, _add_links_lod_from link [o] lod acc d = (Ok (acc ++ [a]), d1)
          ∧ _add_links_lod_from link objs lod (acc ++ [a]) d1 = (Ok res, d').
Proof.
  intros H. cbn [Robot._add_links_lod_from] in H |- *.
  apply bind_Ok in H as (found & d1 & H1 & H).
  pose proof H1 as [-> _]%existing_link_run.
  rewrite (bind_eq _ _ _ _ _ H1). destruct found as [l|].
  - by exists l, d.
  - apply bind_Ok in H as (p & d1 & Hn & H). exists p, d1.
    by rewrite (bind_eq _ _ _ _ _ Hn).
Qed.

(** The proxies returned are, in order, the ones found for the objects
    asked for. *)
Lemma add_links_lod_from_found link objs lod all acc d res d' :
  inv m0 dem (objects d) (all ++ acc) → (∀ o, o ∈ objs → dem link o) →
  _add_links_lod_from link objs lod acc d = (Ok res, d') →
  ∃ added, res = acc ++ added
    ∧ Forall2 (λ o p, find_link (objects d') (Group_of (objects d') link) o = Some p)
        objs added.
Proof.
  revert acc d. induction objs as [|o objs IH]; intros acc d Hinv Hdem H.
  - injection H as <- <-. exists []. by rewrite app_nil_r.
  - apply add_links_lod_from_cons in H as (a & d1 & H1 & H).
    destruct (add_links_lod_from_inv getUniqueObjectName getSubObject warn_bound
                host_fresh m0 dem dem_link dem_source
                link [o] lod all acc d (acc ++ [a]) d1 Hinv)
      as (Hinv1 & _ & _ & added1 & Ha & Hcov1);
      [by intros ? ->%list_elem_of_singleton; apply Hdem; left|done|].
    apply app_inv_head in Ha. subst added1.
    destruct (Hcov1 o) as (a' & ->%list_elem_of_singleton & Hf1); [by left|].
    destruct (add_links_lod_from_inv getUniqueObjectName getSubObject warn_bound
                host_fresh m0 dem dem_link dem_source
                link objs lod all (acc ++ [a]) d1 res d' Hinv1) as (_ & Hst & _);
      [by intros; apply Hdem; right|done|].
    destruct (IH (acc ++ [a]) d1 Hinv1) as (added & -> & HF);
      [by intros; apply Hdem; right|done|].
    exists (a :: added). split; [by rewrite <- (assoc_L (++))|].
    constructor; [by apply Hst|done].
Qed.

End found.

Section synchronization_more.

Variable getUniqueObjectName : gset string → string → string.
Variable getSubObject : oid → string → Placement.
Variable warn_bound : bool.

Abbreviation _add_links_lod :=
  (Robot._add_links_lod getUniqueObjectName getSubObject warn_bound).
Abbreviation _add_links_lod_from :=
  (Robot._add_links_lod_from getUniqueObjectName getSubObject warn_bound).
Abbreviation new_lod_link :=
  (Robot.new_lod_link getUniqueObjectName getSubObject warn_bound).

(** A call on sources of the link that returns: the document stays well
    formed, the link stays a link, and the proxies returned are the ones
    found for the objects, in order. *)
Lemma add_links_lod_found link lobj objs lod d res d' :
  fresh_names getUniqueObjectName →
  wf (objects d) → is_link (objects d) link = true →
  objects d !! link = Some lobj → objs ⊆ source_refs (data lobj) →
  _add_links_lod link objs lod d = (Ok res, d') →
  wf (objects d') ∧ is_link (objects d') link = true
  ∧ Forall2 (λ o p, find_link (objects d') (Group_of (objects d') link) o = Some p)
      objs res.
Proof.
  intros Hfresh Hwf Hlink Hl Hsrc H.
  set (dem := λ L o : oid, L = link ∧ o ∈ source_refs (data lobj)).
  assert (dem_link : ∀ L o, dem L o → is_link (objects d) L = true).
  { by intros L o [-> _]. }
  assert (dem_source : ∀ L o, dem L o →
            ∃ obj, objects d !! L = Some obj ∧ o ∈ source_refs (data obj)).
  { intros L o [-> ?]. eauto. }
  assert (Hdem : ∀ o, o ∈ objs → dem link o).
  { intros o Ho. split; [done|]. by apply Hsrc. }
  pose proof (inv_init (objects d) dem Hwf) as Hinv.
  unfold Robot._add_links_lod in H.
  rewrite (bind_eq _ _ _ _ _ (get_object_Ok link d lobj Hl)) in H.
  destruct (add_links_lod_from_inv getUniqueObjectName getSubObject warn_bound Hfresh _ dem dem_link dem_source
              link objs lod [] [] d res d' Hinv Hdem H) as (Hinv' & _).
  destruct (add_links_lod_from_found getUniqueObjectName getSubObject warn_bound Hfresh _ dem dem_link dem_source
              link objs lod [] [] d res d' Hinv Hdem H) as (added & -> & HF).
  split; [exact (inv_wf _ _ _ _ Hinv')|]. split; [|done].
  destruct (inv_old _ _ _ _ Hinv' _ _ Hl) as (lobj' & Hl' & _ & _ & _ & Hg).
  apply is_link_true in Hlink as (? & g & r & v & c & ? & Hd). simplify_eq.
  rewrite Hd in Hg. destruct Hg as (n & Hg & _).
  apply is_link_true. eauto 10.
Qed.

(** X8: [_add_links_lod] on sources of a link returns one proxy for each
    object asked for, in the order asked: the proxy is in the group of the
    link and its [LinkedObject] is the object; and an object asked for
    twice gets the same proxy twice. *)
Theorem add_links_lod_result link lobj objs lod d res d' :
  fresh_names getUniqueObjectName →
  wf (objects d) → is_link (objects d) link = true →
  objects d !! link = Some lobj → objs ⊆ source_refs (data lobj) →
  _add_links_lod link objs lod d = (Ok res, d') →
  Forall2 (λ o p, p ∈ Group_of (objects d') link
                  ∧ LinkedObject_of (objects d') p = Some o) objs res
  ∧ (∀ i j o, objs !! i = Some o → objs !! j = Some o → res !! i = res !! j).
Proof.
  intros Hfresh Hwf Hlink Hl Hsrc H.
  destruct (add_links_lod_found link lobj objs lod d res d' Hfresh Hwf Hlink Hl Hsrc H)
    as (_ & _ & HF).
  split.
  - eapply Forall2_impl; [exact HF|]. intros o p Hf. by apply find_link_Some in Hf.
  - intros i j o Hi Hj.
    destruct (Forall2_lookup_l _ _ _ _ _ HF Hi) as (p & -> & Hp).
    destruct (Forall2_lookup_l _ _ _ _ _ HF Hj) as (q & -> & Hq). congruence.
Qed.

(** X9: a second call of [_add_links_lod] for the same objects, under
    whichever label, returns the proxies of the first call and leaves the
    document as the first call left it. *)
Theorem add_links_lod_again link lobj objs lod lod' d res d' :
  fresh_names getUniqueObjectName →
  wf (objects d) → is_link (objects d) link = true →
  objects d !! link = Some lobj → objs ⊆ source_refs (data lobj) →
  _add_links_lod link objs lod d = (Ok res, d') →
  _add_links_lod link objs lod' d' = (Ok res, d').
Proof.
  intros Hfresh Hwf Hlink Hl Hsrc H.
  destruct (add_links_lod_found link lobj objs lod d res d' Hfresh Hwf Hlink Hl Hsrc H)
    as (Hwf' & Hlink' & HF).
  rewrite add_links_lod_settled; [by rewrite (omap_Forall2 _ _ _ HF)|done| |].
  - destruct Hwf' as (_ & _ & _ & Hpx & _). rewrite proxies_only_spec in Hpx.
    apply is_link_true in Hlink' as (lobj' & g & r & v & c & Hl' & Hd').
    intros p Hp. apply (Hpx link lobj' p Hl'). unfold Group_of in Hp.
    rewrite Hl' in Hp. by rewrite Hd' in Hp |- *.
  - intros o Ho. apply list_elem_of_lookup in Ho as [i Hi].
    destruct (Forall2_lookup_l _ _ _ _ _ HF Hi) as (p & _ & Hp). eauto.
Qed.

(** One step writes the new object and the link, nothing else. *)
Lemma new_lod_link_frame link o lod d r d' x obj :
  new_lod_link link o lod d = (r, d') →
  objects d !! x = Some obj → x ≠ link → objects d' !! x = Some obj.
Proof.
  intros H Hx Hne. apply new_lod_link_outcome in H.
  assert (Hfr : x ≠ fresh (dom (objects d))).
  { intros ->. assert (objects d !! fresh (dom (objects d)) = None)
      by apply not_elem_of_dom, is_fresh. congruence. }
  destruct (objects d !! link) as [lobj|]; [|by destruct H as [-> _]].
  destruct H as (pobj & _ & _ & [(lobj' & _ & _ & ->)|(-> & _)]);
    by rewrite ?lookup_insert_ne.
Qed.

Lemma add_links_lod_from_frame link objs lod acc d r d' x obj :
  _add_links_lod_from link objs lod acc d = (r, d') →
  objects d !! x = Some obj → x ≠ link → objects d' !! x = Some obj.
Proof.
  revert acc d. induction objs as [|o objs IH]; intros acc d H Hx Hne.
  - by injection H as <- <-.
  - cbn [Robot._add_links_lod_from] in H.
    apply bind_run in H as [(found & d1 & H1 & H)|(e & H1 & ->)];
      apply existing_link_run in H1 as [-> _]; [|done].
    destruct found as [l|]; [by eapply IH|].
    apply bind_run in H as [(p & d1 & H1 & H)|(e & H1 & ->)].
    + eapply IH; [done| |done]. by eapply new_lod_link_frame.
    + by eapply new_lod_link_frame.
Qed.

(** X10: whatever its outcome, [_add_links_lod] removes no object and
    writes no object that was there but the link, which keeps its name; on
    a link that is no more in the document it raises [ReferenceError] and
    does nothing. *)
Theorem add_links_lod_frame link objs lod d r d' :
  _add_links_lod link objs lod d = (r, d') →
  (∀ x obj, objects d !! x = Some obj → x ≠ link → objects d' !! x = Some obj)
  ∧ (∀ lobj, objects d !! link = Some lobj →
       ∃ lobj', objects d' !! link = Some lobj' ∧ Name lobj' = Name lobj)
  ∧ (objects d !! link = None → r = Raise (ReferenceError link) ∧ d' = d).
Proof.
  intros H. unfold Robot._add_links_lod in H.
  apply bind_run in H as [(lobj & d1 & H1 & H)|(e & H1 & ->)].
  - apply get_object_run in H1 as [-> Hl]. split; [|split].
    + intros x obj Hx Hne. by eapply add_links_lod_from_frame.
    + intros lobj0 Hl0. simplify_eq.
      eapply (add_links_lod_from_named getUniqueObjectName getSubObject warn_bound
                link lobj objs lod [] (objects d) d r d' Hl) in H as [Hold _];
        [|apply named_refl].
      by apply Hold.
    + intros. congruence.
  - apply get_object_raise in H1 as (-> & -> & Hn). split; [done|]. split; [|done].
    intros. congruence.
Qed.

End synchronization_more.

Lemma existing_link_in_raise g o d e d' :
  Robot._existing_link_in g o d = (Raise e, d') →
  exn_class e ∈ ["ReferenceError"; "AttributeError"].
Proof.
  induction g as [|q g IH]; intros H; [done|].
  cbn [Robot._existing_link_in] in H.
  apply bind_run in H as [(lo & d2 & H1 & H)|(e' & H1 & [= ->])].
  - apply get_LinkedObject_run in H1 as [-> _].
    case_bool_decide; [done|]. by apply IH.
  - unfold get_LinkedObject, bind, get_object in H1.
    destruct (objects d !! q) as [qobj|]; [|injection H1 as <- _; set_solver].
    destruct (data qobj); cbv in H1; simplify_eq; set_solver.
Qed.

(** X13: [_existing_link] never changes the document.  A proxy it
    returns is in the group of the link and its [LinkedObject] is the
    object; when it returns [None] no member of the group links to the
    object; and it raises no exception but [ReferenceError], on a deleted
    object, and [AttributeError], on an object without the property read. *)
Theorem existing_link_lookup link o d r d' :
  Robot._existing_link link o d = (r, d') →
  d' = d
  ∧ match r with
    | Ok (Some p) =>
        p ∈ Group_of (objects d) link ∧ LinkedObject_of (objects d) p = Some o
    | Ok None =>
        ∀ p, p ∈ Group_of (objects d) link → LinkedObject_of (objects d) p ≠ Some o
    | Raise e => exn_class e ∈ ["ReferenceError"; "AttributeError"]
    end.
Proof.
  intros H. pose proof H as [-> Hres]%existing_link_run. split; [done|].
  destruct r as [[p|]|e].
  - destruct (Hres _ eq_refl) as [Hf _]. symmetry in Hf. by apply find_link_Some in Hf.
  - destruct (Hres _ eq_refl) as [Hf _]. symmetry in Hf.
    intros p. by apply find_link_None.
  - unfold Robot._existing_link in H.
    apply bind_run in H as [(g & d1 & H1 & H)|(e' & H1 & [= ->])].
    + by apply existing_link_in_raise in H.
    + unfold get_Group, bind, get_object in H1.
      destruct (objects d !! link) as [lobj|]; [|simplify_eq; set_solver].
      destruct (data lobj); cbv in H1; simplify_eq; set_solver.
Qed.

Section one_parent.

Variable getUniqueObjectName : gset string → string → string.
Variable getSubObject : oid → string → Placement.
Variable warn_bound : bool.

(** X11: an object with exactly one structural parent and no proxy yet
    gets its proxy whether [warn] is bound or not: no warning is given,
    the proxy carries the label of the link and the level of detail, links
    to the object, is placed as the sub-object of the parent, and joins the
    group of the link at its end; the changes queued are those of its
    label, placement and link and of the group. *)
Theorem add_links_lod_one_parent link o lod d lobj oobj parent subname :
  wf (objects d) → is_link (objects d) link = true →
  objects d !! link = Some lobj →
  objects d !! o = Some oobj → Parents oobj = [(parent, subname)] →
  find_link (objects d) (Group_of (objects d) link) o = None →
  ∃ p pobj d',
    Robot._add_links_lod getUniqueObjectName getSubObject warn_bound link [o] lod d
    = (Ok [p], d')
    ∧ objects d !! p = None
    ∧ objects d' !! p = Some pobj
    ∧ Label pobj = lod_name lod (Name lobj)
    ∧ data pobj = AppLink (Some o) (getSubObject parent subname)
    ∧ Group_of (objects d') link = Group_of (objects d) link ++ [p]
    ∧ warnings d' = warnings d
    ∧ touched d' = touched d ++ [(p, "Label"); (p, "LinkPlacement");
                                 (p, "LinkedObject"); (link, "Group")].
Proof.
  intros Hwf Hlink Hl Ho Hpar Hnone.
  pose proof Hwf as (_ & Hc & _ & Hpx & _).
  rewrite closed_spec in Hc. rewrite proxies_only_spec in Hpx.
  pose proof Hlink as (lobj0 & g & r & v & c & Hl0 & Hd)%is_link_true.
  simplify_eq.
  assert (HG : Group_of (objects d) link = g).
  { unfold Group_of. by rewrite Hl, Hd. }
  assert (Hfr : objects d !! fresh (dom (objects d)) = None).
  { apply not_elem_of_dom, is_fresh. }
  assert (Hne : link ≠ fresh (dom (objects d))) by congruence.
  assert (Hprox : ∀ p, p ∈ Group_of (objects d) link →
            is_Some (LinkPlacement_of (objects d) p)).
  { intros p Hp. apply (Hpx link lobj p Hl). rewrite HG in Hp. by rewrite Hd. }
  unfold Robot._add_links_lod.
  rewrite (bind_eq _ _ _ _ _ (get_object_Ok link d lobj Hl)).
  cbn [Robot._add_links_lod_from].
  rewrite (bind_eq _ _ _ _ _ (existing_link_Ok link o d Hlink Hprox)).
  rewrite Hnone.
  destruct (Robot.new_lod_link getUniqueObjectName getSubObject warn_bound
              link o lod d) as [[p|e] d1] eqn:Hrun.
  - rewrite (bind_eq _ _ _ _ _ Hrun).
    apply new_lod_link_run in Hrun
      as (lobj' & oobj' & Hl' & Ho' & -> & _ & _ & Hm1 & Hw & Ht).
    + simplify_eq. rewrite Hpar in Hm1, Hw. cbn [placement_for length] in Hm1, Hw.
      rewrite bool_decide_eq_false_2, app_nil_r in Hw by (intros Hx; by apply Hx).
      eexists _, _, d1. split; [done|]. split; [done|].
      rewrite Hm1, lookup_insert_ne, lookup_insert_eq by done.
      split; [done|]. split; [done|]. split; [done|].
      split; [|done].
      unfold Group_of. rewrite lookup_insert_eq, Hl.
      unfold with_group. by rewrite Hd.
    + intros Hin. destruct (Hc link lobj (fresh (dom (objects d))) Hl) as [? ?];
        [|congruence]. left. unfold Group_of in Hin. by rewrite Hl in Hin.
    + intros Heq. rewrite Heq in Hfr. congruence.
  - exfalso. apply new_lod_link_outcome in Hrun. rewrite Hl in Hrun.
    destruct Hrun as (pobj & _ & _ & [(lobj' & ? & _)|(_ & e' & [= ->] & Hwhy)]).
    + done.
    + destruct Hwhy as [[_ Hno]|[(_ & _ & Hlen)|(_ & Hno)]];
        [congruence| |by eapply Hno].
      apply (Hlen oobj Ho). by rewrite Hpar.
Qed.

End one_parent.



(** * When the pass returns *)

Lemma remove_objects_returns l d :
  unique_names (objects d) → NoDup l →
  (∀ o, o ∈ l → is_Some (objects d !! o)) →
  ∃ d', remove_objects l d = (Ok tt, d').
Proof.
  revert d. induction l as [|o l IH]; intros d Hn Hnd Hex; [by eexists|].
  apply NoDup_cons in Hnd as [Hol Hnd].
  destruct (Hex o) as [obj Ho]; [by left|].
  cbn [remove_objects].
  assert (Hname : get_Name o d = (Ok (Name obj), d)).
  { unfold get_Name, bind, get_object. by rewrite Ho. }
  rewrite (bind_eq _ _ _ _ _ Hname).
  destruct (removeObject (Name obj) d) as [r d1] eqn:Hrm.
  destruct (removeObject_unique o obj d r d1 Hn Ho Hrm) as [-> Hd1].
  rewrite (bind_eq _ _ _ _ _ Hrm). apply IH; [|done|].
  - rewrite Hd1. by apply remove_ids_unique_names.
  - intros o' Ho'. rewrite Hd1, remove_ids_lookup.
    rewrite decide_False by set_solver.
    destruct (Hex o') as [obj' ->]; [by right|]. by eexists.
Qed.

Section returns.

Variable getUniqueObjectName : gset string → string → string.
Variable getSubObject : oid → string → Placement.
Variable warn_bound : bool.
Hypothesis host_fresh : fresh_names getUniqueObjectName.

Variable m0 : gmap positive DocumentObject.
Variable dem : oid → oid → Prop.
Hypothesis dem_link : ∀ L o, dem L o → is_link m0 L = true.
Hypothesis dem_source :
  ∀ L o, dem L o → ∃ obj, m0 !! L = Some obj ∧ o ∈ source_refs (data obj).
Hypothesis m0_closed : closed m0.

(** Either [warn] is bound or no object asked for needs it. *)
Hypothesis dem_parent :
  warn_bound = true
  ∨ ∀ L o oobj, dem L o → m0 !! o = Some oobj → length (Parents oobj) = 1.

Abbreviation new_lod_link :=
  (Robot.new_lod_link getUniqueObjectName getSubObject warn_bound).
Abbreviation _add_links_lod_from :=
  (Robot._add_links_lod_from getUniqueObjectName getSubObject warn_bound).
Abbreviation _add_links_lod :=
  (Robot._add_links_lod getUniqueObjectName getSubObject warn_bound).
Abbreviation add_links :=
  (Robot.add_links getUniqueObjectName getSubObject warn_bound).

Lemma inv_is_link m A L :
  inv m0 dem m A → is_link m0 L = true →
  is_link m L = true
  ∧ ∀ p, p ∈ Group_of m L → is_Some (LinkPlacement_of m p).
Proof.
  intros Hinv (obj0 & g & r & v & c & H0 & Hd0)%is_link_true.
  destruct (inv_old _ _ _ _ Hinv _ _ H0) as (obj & Hm & _ & _ & _ & Hg).
  rewrite Hd0 in Hg. destruct Hg as (n & Hg & _). split.
  - apply is_link_true. eauto 10.
  - pose proof (inv_wf _ _ _ _ Hinv) as (_ & _ & _ & Hpx & _).
    rewrite proxies_only_spec in Hpx. intros p Hp. apply (Hpx L obj p Hm).
    unfold Group_of in Hp. rewrite Hm in Hp. by rewrite Hg in Hp |- *.
Qed.

Lemma new_lod_link_returns link o lod A d :
  inv m0 dem (objects d) A → dem link o →
  ∃ p d1, new_lod_link link o lod d = (Ok p, d1).
Proof.
  intros Hinv Hd.
  destruct (new_lod_link link o lod d) as [[p|e] d1] eqn:Hrun; [by eauto|].
  exfalso.
  destruct (inv_link m0 dem dem_link dem_source _ _ _ _ Hinv Hd)
    as (obj0 & lobj & g & n & r & v & c & H0 & Hl & Hd0 & Hdl & _ & Ho).
  pose proof (proj1 (proj2 (inv_wf _ _ _ _ Hinv))) as Hc.
  rewrite closed_spec in Hc.
  assert (Hsrc : o ∈ source_refs (data obj0)) by (by rewrite Hd0).
  pose proof Hsrc as Hsrc'. rewrite Hd0 in Hsrc'.
  assert (is_Some (objects d !! o)) as [oobj Hoobj].
  { apply (Hc link lobj o Hl). right. by rewrite Hdl. }
  apply new_lod_link_outcome in Hrun. rewrite Hl in Hrun.
  destruct Hrun as (pobj & _ & _ & [(lobj' & ? & _)|(_ & e' & [= ->] & Hwhy)]);
    [done|].
  destruct Hwhy as [[_ Hno]|[(_ & Hwb & Hlen)|(_ & Hno)]].
  - congruence.
  - destruct dem_parent as [Hb|Hp]; [congruence|].
    apply (Hlen oobj Hoobj).
    assert (is_Some (m0 !! o)) as [oobj0 Ho0].
    { rewrite closed_spec in m0_closed. apply (m0_closed link obj0 o H0). by right. }
    destruct (inv_old _ _ _ _ Hinv _ _ Ho0) as (oobj' & Ho' & _ & _ & Hpar & _).
    simplify_eq. rewrite Hpar. by apply (Hp link o).
  - by eapply Hno.
Qed.

Lemma add_links_lod_from_returns link objs lod all acc d :
  inv m0 dem (objects d) (all ++ acc) → (∀ o, o ∈ objs → dem link o) →
  ∃ res d', _add_links_lod_from link objs lod acc d = (Ok res, d').
Proof.
  revert acc d. induction objs as [|o objs IH]; intros acc d Hinv Hdem;
    [by eexists _, _|].
  assert (Ho : dem link o) by (apply Hdem; left).
  destruct (inv_is_link _ _ link Hinv (dem_link _ _ Ho)) as [Hlink Hprox].
  pose proof (existing_link_Ok link o d Hlink Hprox) as Hex.
  cbn [Robot._add_links_lod_from]. rewrite (bind_eq _ _ _ _ _ Hex).
  destruct (find_link (objects d) (Group_of (objects d) link) o) as [l|] eqn:Hf.
  - apply IH; [|intros; apply Hdem; by right].
    rewrite (assoc_L (++)). by eapply inv_found.
  - destruct (new_lod_link_returns link o lod _ d Hinv Ho) as (p & d1 & Hn).
    rewrite (bind_eq _ _ _ _ _ Hn).
    apply IH; [|intros; apply Hdem; by right].
    assert (H1 : _add_links_lod_from link [o] lod acc d = (Ok (acc ++ [p]), d1)).
    { cbn [Robot._add_links_lod_from]. rewrite (bind_eq _ _ _ _ _ Hex).
      by rewrite (bind_eq _ _ _ _ _ Hn). }
    apply (add_links_lod_from_inv getUniqueObjectName getSubObject warn_bound
             host_fresh m0 dem dem_link dem_source link [o] lod all acc d
             (acc ++ [p]) d1 Hinv); [|done].
    by intros ? ->%list_elem_of_singleton.
Qed.

Lemma add_links_lod_returns link objs lod all d :
  inv m0 dem (objects d) all → is_link m0 link = true →
  (∀ o, o ∈ objs → dem link o) →
  ∃ res d', _add_links_lod link objs lod d = (Ok res, d').
Proof.
  intros Hinv Hlink Hdem.
  destruct (inv_is_link _ _ link Hinv Hlink) as [Hl _].
  apply is_link_true in Hl as (lobj & ? & ? & ? & ? & Hl & _).
  unfold Robot._add_links_lod.
  rewrite (bind_eq _ _ _ _ _ (get_object_Ok link d lobj Hl)).
  apply (add_links_lod_from_returns link objs lod all []); [|done].
  by rewrite app_nil_r.
Qed.

Lemma add_links_returns get field lod links all d :
  reads get field → reads_back get field →
  (∀ l obj o, l ∈ links → m0 !! l = Some obj → o ∈ field (data obj) → dem l o) →
  (∀ l, l ∈ links → is_link m0 l = true) →
  inv m0 dem (objects d) all →
  ∃ res d', add_links get lod links all d = (Ok res, d').
Proof.
  intros Hreads Hback Hdem Hlinks. pose proof Hreads as [_ Hfield].
  revert all d. induction links as [|l links IH]; intros all d Hinv;
    [by eexists _, _|].
  assert (Hlk : is_link m0 l = true) by (apply Hlinks; left).
  destruct (inv_is_link _ _ l Hinv Hlk) as [Hl _].
  pose proof Hlk as (obj0 & g & r & v & c & H0 & Hd0)%is_link_true.
  destruct (inv_old _ _ _ _ Hinv _ _ H0) as (lobj & Hlobj & _ & _ & _ & Hg).
  rewrite Hd0 in Hg. destruct Hg as (n & Hg & _).
  assert (Hf : field (data lobj) = field (data obj0)).
  { rewrite Hg, Hd0. apply Hfield. }
  assert (Hd : ∀ o, o ∈ field (data lobj) → dem l o).
  { intros o Ho. rewrite Hf in Ho. eapply Hdem; [by left|done|done]. }
  cbn [Robot.add_links].
  rewrite (bind_eq _ _ _ _ _ (Hback l d lobj Hlobj Hl)).
  destruct (add_links_lod_returns l (field (data lobj)) lod all d Hinv Hlk Hd)
    as (added & d1 & H1).
  rewrite (bind_eq _ _ _ _ _ H1).
  apply IH.
  - intros l' obj' o Hl'. apply Hdem. by right.
  - intros l' Hl'. apply Hlinks. by right.
  - by apply (add_links_lod_inv getUniqueObjectName getSubObject warn_bound
             host_fresh m0 dem dem_link dem_source l _ lod all d added d1 Hinv Hd).
Qed.

End returns.

Section pass_returns.

Variable getUniqueObjectName : gset string → string → string.
Variable getSubObject : oid → string → Placement.
Variable warn_bound : bool.
Hypothesis host_fresh : fresh_names getUniqueObjectName.

Abbreviation add_links :=
  (Robot.add_links getUniqueObjectName getSubObject warn_bound).
Abbreviation reset_group_of :=
  (Robot.reset_group_of getUniqueObjectName getSubObject warn_bound).
Abbreviation reset_group :=
  (Robot.reset_group getUniqueObjectName getSubObject warn_bound).

(** One of the three blocks returns, and the invariant goes on. *)
Lemma phase_returns m0 robot flags get field lod (show : bool) all d :
  wf m0 →
  (warn_bound = true
   ∨ ∀ L o oobj, asked m0 robot flags L o → m0 !! o = Some oobj →
       length (Parents oobj) = 1) →
  reads get field → reads_back get field →
  (show = true → ∀ l obj o, l ∈ links_of m0 robot → m0 !! l = Some obj →
     o ∈ field (data obj) → asked m0 robot flags l o) →
  inv m0 (asked m0 robot flags) (objects d) all →
  ∃ res d',
    (if show then add_links get lod (links_of m0 robot) all else ret all) d
    = (Ok res, d')
    ∧ inv m0 (asked m0 robot flags) (objects d') res.
Proof.
  intros Hwf Hpar Hreads Hback Hdem Hinv. destruct show; [|by eexists _, _].
  assert (Hlinks : ∀ l, l ∈ links_of m0 robot → is_link m0 l = true).
  { intros l Hl. unfold links_of in Hl. by apply list_elem_of_filter in Hl as [? _]. }
  destruct (add_links_returns getUniqueObjectName getSubObject warn_bound host_fresh
              m0 (asked m0 robot flags) (asked_link m0 robot flags)
              (asked_source m0 robot flags) (proj1 (proj2 Hwf)) Hpar
              get field lod (links_of m0 robot) all d Hreads Hback (Hdem eq_refl)
              Hlinks Hinv) as (res & d' & H).
  exists res, d'. split; [done|].
  by destruct (add_links_inv getUniqueObjectName getSubObject warn_bound host_fresh
                 m0 (asked m0 robot flags) (asked_link m0 robot flags)
                 (asked_source m0 robot flags) get field lod (links_of m0 robot)
                 all d res d' Hreads (Hdem eq_refl) Hlinks Hinv H).
Qed.

Lemma reset_group_of_returns robot flags d :
  wf (objects d) → flags_of (objects d) robot = Some flags →
  (warn_bound = true
   ∨ ∀ L o oobj, asked (objects d) robot flags L o →
       objects d !! o = Some oobj → length (Parents oobj) = 1) →
  ∃ d', reset_group_of robot d = (Ok tt, d').
Proof.
  intros Hwf Hflags Hpar.
  pose proof (inv_flag (objects d) robot flags Hflags) as inv_flag.
  pose proof (phase_returns (objects d) robot flags) as phase.
  destruct (flags_of_robot _ _ _ Hflags) as (robj & g & a & b & c & Hr & Hrd & ->).
  unfold Robot.reset_group_of.
  rewrite !(bind_eq _ _ _ _ _ (hasattr_Ok robot _ d robj Hr)).
  rewrite Hrd. cbn [flag String.eqb Ascii.eqb Bool.eqb negb orb].
  assert (Hrob : is_robot (objects d) robot = true).
  { unfold is_robot. by rewrite Hr, Hrd. }
  rewrite (bind_eq _ _ _ _ _ (get_Group_Ok robot d (or_intror Hrob))).
  unfold get_links at 1. cbv beta. unfold bind at 1.
  fold (links_of (objects d) robot).
  assert (Hlinks : ∀ l, l ∈ links_of (objects d) robot → is_link (objects d) l = true).
  { intros l Hl. unfold links_of in Hl.
    by apply list_elem_of_filter in Hl as [? _]. }
  rewrite (bind_eq _ _ _ _ _ (linked_objects_Ok _ [] d Hlinks)).
  assert (Hflag : ∀ d1 all, inv (objects d) (asked (objects d) robot (a, b, c))
                              (objects d1) all →
            ∀ name x, flag name (data robj) = Some x →
                      get_flag robot name d1 = (Ok x, d1)).
  { intros d1 all Hinv1 name x Hx.
    destruct (inv_flag _ _ Hinv1) as (robj1 & ? & ? & Hr1 & Hd1). simplify_eq.
    apply (get_flag_Ok robot name d1 robj1 x Hr1). by rewrite Hd1. }
  assert (Hsrc : ∀ (field : ObjectData → list oid),
            (∀ dt o, o ∈ field dt → o ∈ demanded_sources (a, b, c) dt) →
            ∀ l obj o, l ∈ links_of (objects d) robot → objects d !! l = Some obj →
              o ∈ field (data obj) → asked (objects d) robot (a, b, c) l o).
  { intros field Hfield l obj o Hl Hobj Ho. split; [done|]. exists obj. eauto. }
  pose proof (inv_init (objects d) (asked (objects d) robot (a, b, c)) Hwf) as Hinv0.
  rewrite (bind_eq _ _ _ _ _ (Hflag d [] Hinv0 "ShowReal" a ltac:(by rewrite Hrd))).
  destruct (phase get_Real Real_of "real" a [] d Hwf Hpar reads_Real reads_back_Real)
    as (all1 & d1 & H1 & Hinv1); [|done|].
  { intros -> . apply Hsrc. intros dt o Ho. destruct dt; try done. cbn in *. set_solver. }
  rewrite (bind_eq _ _ _ _ _ H1).
  rewrite (bind_eq _ _ _ _ _ (Hflag d1 _ Hinv1 "ShowVisual" b ltac:(by rewrite Hrd))).
  destruct (phase get_Visual Visual_of "visual" b all1 d1 Hwf Hpar reads_Visual
              reads_back_Visual) as (all2 & d2 & H2 & Hinv2); [|done|].
  { intros -> . apply Hsrc. intros dt o Ho. destruct dt; try done. cbn in *. set_solver. }
  rewrite (bind_eq _ _ _ _ _ H2).
  rewrite (bind_eq _ _ _ _ _ (Hflag d2 _ Hinv2 "ShowCollision" c ltac:(by rewrite Hrd))).
  destruct (phase get_Collision Collision_of "collision" c all2 d2 Hwf Hpar
              reads_Collision reads_back_Collision) as (all3 & d3 & H3 & Hinv3);
    [|done|].
  { intros -> . apply Hsrc. intros dt o Ho. destruct dt; try done. cbn in *. set_solver. }
  rewrite (bind_eq _ _ _ _ _ H3).
  apply remove_objects_returns.
  - exact (proj1 (inv_wf _ _ _ _ Hinv3)).
  - apply NoDup_remove_dups.
  - intros x [Hx _]%elem_of_remove_dups%list_elem_of_difference.
    apply list_elem_of_join in Hx as (grp & Hx & (L & -> & HL)%list_elem_of_fmap).
    specialize (Hlinks L HL).
    apply is_link_true in Hlinks as (lobj & ? & ? & ? & ? & Hl & Hd).
    destruct Hwf as (_ & Hc & _). rewrite closed_spec in Hc.
    destruct (Hc L lobj x Hl) as [xobj Hxobj].
    { left. unfold Group_of in Hx. by rewrite Hl in Hx. }
    destruct (inv_old _ _ _ _ Hinv3 _ _ Hxobj) as (xobj' & -> & _). by eexists.
Qed.

(** X1: [reset_group] returns, raising nothing, on a well-formed
    document whose robot has its three flags, when [warn] is bound or every
    source the flags ask for has exactly one structural parent. *)
Theorem reset_group_returns (self : instance) robot flags d :
  wf (objects d) →
  self !! "robot" = Some (VObj robot) →
  flags_of (objects d) robot = Some flags →
  (warn_bound = true
   ∨ ∀ L o oobj, L ∈ links_of (objects d) robot →
       demanded (objects d) flags L o →
       objects d !! o = Some oobj → length (Parents oobj) = 1) →
  ∃ d', reset_group self d = (Ok tt, d').
Proof.
  intros Hwf Hself Hflags Hpar.
  rewrite (reset_group_self _ _ _ _ _ _ Hself).
  apply (reset_group_of_returns robot flags d Hwf Hflags).
  destruct Hpar as [?|Hpar]; [by left|right].
  intros L o oobj [HL Hd]. by apply (Hpar L).
Qed.

End pass_returns.



(** * Further properties of the instance methods *)

Lemma try_flag robot robj name (f : bool → instance) so_far rest d :
  objects d !! robot = Some robj →
  try_AttributeError (let! b := get_robot_flag (VObj robot) name in ret (f b))
    so_far rest d
  = match flag name (data robj) with
    | Some b => rest (f b) d
    | None => (Ok so_far, d)
    end.
Proof.
  intros Hr. unfold try_AttributeError, get_robot_flag, get_flag, bind, get_object.
  rewrite Hr. by destruct (flag name (data robj)).
Qed.

(** X14: [onBeforeChange] on an instance bound to a robot object leaves
    the document as it is and lets no [AttributeError] out.  With the three
    flags there it records them as [previous_show_real],
    [previous_show_visual] and [previous_show_collision]; without
    [ShowReal] it records nothing; with [ShowReal] but without [ShowVisual]
    it has recorded the first only; and it writes no other attribute. *)
Theorem onBeforeChange_records (self : instance) feature prop robot robj d :
  is_Some (objects d !! feature) →
  self !! "robot" = Some (VObj robot) →
  objects d !! robot = Some robj →
  ∃ self',
    onBeforeChange self feature prop d = (Ok self', d)
    ∧ (∀ a b c, flags_of (objects d) robot = Some (a, b, c) →
         self' !! "previous_show_real" = Some (VBool a)
         ∧ self' !! "previous_show_visual" = Some (VBool b)
         ∧ self' !! "previous_show_collision" = Some (VBool c))
    ∧ (flag "ShowReal" (data robj) = None → self' = self)
    ∧ (∀ a, flag "ShowReal" (data robj) = Some a →
         flag "ShowVisual" (data robj) = None →
         self' = <["previous_show_real" := VBool a]> self)
    ∧ (∀ k, k ∉ ["previous_show_real"; "previous_show_visual";
                 "previous_show_collision"] → self' !! k = self !! k).
Proof.
  intros [fobj Hf] Hself Hr.
  assert (Hname : get_Name feature d = (Ok (Name fobj), d)).
  { unfold get_Name, bind, get_object. by rewrite Hf. }
  unfold onBeforeChange, getattr. rewrite Hself.
  rewrite (bind_eq _ _ _ _ _ Hname).
  assert (Hk : ∀ (k : string) l, k ∉ l → Forall (λ x, k ≠ x) l).
  { intros k l Hk. apply Forall_forall. intros x Hx ->. done. }
  unfold flags_of. rewrite Hr.
  destruct (data robj) as [| | |g [a|] [b|] [c|]|] eqn:E;
    repeat (rewrite (try_flag robot robj) by done; rewrite E;
            cbn [flag String.eqb Ascii.eqb Bool.eqb]);
    eexists; (split; [reflexivity|]);
    (split; [intros ? ? ? [= <- <- <-] || intros ? ? ? [=]; by simplify_map_eq|]);
    (split; [try done|]); (split; [intros ? [= <-] || intros ? [=]; try done|]);
    intros k Hin%Hk; repeat (apply Forall_cons in Hin as [? Hin]);
    by simplify_map_eq.
Qed.

(** X15: restoring an instance from the state it has just saved changes
    nothing. *)
Theorem setstate_getstate (self : instance) (state : value) :
  Robot.__getstate__ self = Ok state →
  Robot.__setstate__ self state = Ok self.
Proof.
  unfold Robot.__getstate__, Robot.__setstate__, getattr, result_bind,
    Robot.class_dict.
  destruct (self !! "type") as [type|] eqn:Ht; [|by rewrite lookup_empty].
  destruct (self !! "previous_link_count") as [count|] eqn:Hc;
    [|by rewrite lookup_empty].
  intros [= <-]. cbn. f_equal.
  rewrite (insert_id self "type" type Ht). by rewrite insert_id.
Qed.



(** * The further properties on the worked robot *)

Lemma example_off_wf : wf (objects example_off).
Proof. apply (bool_decide_unpack _). by vm_compute. Qed.

Lemma example_off_pass_Ok : example_off_pass = (Ok tt, example_off_pass.2).
Proof. by vm_compute. Qed.

(** Every source of the worked robot has one parent, the assembly. *)
Lemma example_one_parent L o oobj :
  L ∈ links_of (objects example_document) 1 →
  demanded (objects example_document) (true, true, false) L o →
  objects example_document !! o = Some oobj →
  length (Parents oobj) = 1.
Proof.
  intros HL (obj & Hobj & Ho) Hoobj.
  assert (Hall : Forall (λ L, ∀ obj, objects example_document !! L = Some obj →
             Forall (λ o, ∀ oobj, objects example_document !! o = Some oobj →
                                  length (Parents oobj) = 1)
               (demanded_sources (true, true, false) (data obj)))
            (links_of (objects example_document) 1)).
  { vm_compute links_of. repeat constructor; intros ? [= <-]; vm_compute demanded_sources;
      repeat constructor; by intros ? [= <-]. }
  rewrite Forall_forall in Hall. specialize (Hall L HL obj Hobj).
  rewrite Forall_forall in Hall. by apply (Hall o Ho oobj).
Qed.

(** X1 on the worked robot. *)
Lemma reset_group_returns_witness :
  ∃ d', Robot.reset_group example_name example_placement false (Robot.__init__ 1)
          example_document = (Ok tt, d').
Proof.
  exact (reset_group_returns example_name example_placement false example_name_fresh
           (Robot.__init__ 1) 1%positive (true, true, false) example_document
           example_wf eq_refl eq_refl (or_intror example_one_parent)).
Defined.

(** X2 on the worked robot. *)
Lemma reset_group_wf_witness : wf (objects example_after).
Proof.
  exact (reset_group_wf example_name example_placement false example_name_fresh
           (Robot.__init__ 1) 1%positive (true, true, false)
           example_document example_after
           example_wf eq_refl eq_refl example_pass_Ok).
Defined.

(** X3 on the worked robot: the cylinder, which "base" names in [Real]
    and had no proxy, has one after the pass. *)
Lemma reset_group_groups_witness :
  ∃ p, p ∈ Group_of (objects example_after) 2
       ∧ LinkedObject_of (objects example_after) p = Some 11%positive.
Proof.
  destruct (reset_group_groups example_name example_placement false example_name_fresh
              (Robot.__init__ 1) 1%positive (true, true, false)
              example_document example_after
              example_wf eq_refl eq_refl example_pass_Ok) as [Hgroups _].
  destruct (Hgroups 2%positive) as [_ Hone]; [by compute_done|].
  apply (Hone 11%positive). eexists. split; [reflexivity|]. by compute_done.
Defined.

(** X4 on the worked robot: the box is as it was. *)
Lemma reset_group_frame_witness :
  ∃ obj', objects example_after !! 10%positive = Some obj'
          ∧ Name obj' = "Box" ∧ Label obj' = "Box" ∧ data obj' = Feature.
Proof.
  exact (reset_group_frame example_name example_placement false example_name_fresh
           (Robot.__init__ 1) 1%positive (true, true, false)
           example_document example_after
           example_wf eq_refl eq_refl example_pass_Ok
           10%positive (mkObject "Box" "Box" [(20%positive, "Box.")] Feature) eq_refl).
Defined.

(** X5 on the worked robot with its flags off. *)
Lemma reset_group_all_off_witness :
  (∀ L, L ∈ links_of (objects example_off) 1 →
        Group_of (objects example_off_pass.2) L = [])
  ∧ (∀ x, is_Some (objects example_off_pass.2 !! x) →
          is_Some (objects example_off !! x)).
Proof.
  exact (reset_group_all_off example_name example_placement false example_name_fresh
           (Robot.__init__ 1) 1%positive example_off example_off_pass.2
           example_off_wf eq_refl eq_refl example_off_pass_Ok).
Defined.

(** X6 on the worked robot before it has [ShowVisual]. *)
Lemma reset_group_uninitialized_witness :
  Robot.reset_group example_name example_placement false (Robot.__init__ 1)
    example_unset
  = (Ok tt, example_unset).
Proof.
  apply (reset_group_uninitialized example_name example_placement false
           (Robot.__init__ 1) 1%positive example_unset eq_refl);
    [by eexists|reflexivity].
Defined.

(** X7 on the worked robot. *)
Lemma reset_group_writes_no_robot_witness :
  ∃ new, touched example_after = touched example_document ++ new
         ∧ ∀ x prop, (x, prop) ∈ new → is_robot (objects example_after) x = false.
Proof.
  exact (reset_group_writes_no_robot example_name example_placement false
           example_name_fresh (Robot.__init__ 1) 1%positive (true, true, false)
           example_document example_after
           example_wf eq_refl eq_refl example_pass_Ok).
Defined.

(** The sources of "base" asked for once more: the box has its proxy, the
    cylinder gets one, and the box asked for again gets the same. *)
Lemma example_base_real :
  Robot._add_links_lod example_name example_placement false 2
    [10; 11; 10]%positive "real" example_document
  = (Ok [30; 32; 30]%positive,
     (Robot._add_links_lod example_name example_placement false 2
        [10; 11; 10]%positive "real" example_document).2).
Proof. by vm_compute. Qed.

Lemma example_base_sources :
  [10; 11; 10]%positive
  ⊆ source_refs (RosLink [30; 31]%positive [10; 11]%positive [10]%positive []).
Proof. intros o Ho. cbn. set_solver. Qed.

(** X8 on the worked robot. *)
Lemma add_links_lod_result_witness :
  let d' := (Robot._add_links_lod example_name example_placement false 2
               [10; 11; 10]%positive "real" example_document).2 in
  Forall2 (λ o p, p ∈ Group_of (objects d') 2 ∧ LinkedObject_of (objects d') p = Some o)
    [10; 11; 10]%positive [30; 32; 30]%positive
  ∧ (∀ i j o, [10; 11; 10]%positive !! i = Some o →
              [10; 11; 10]%positive !! j = Some o →
              [30; 32; 30]%positive !! i = [30; 32; 30]%positive !! j).
Proof.
  exact (add_links_lod_result example_name example_placement false 2%positive
           (mkObject "base" "base" [(1%positive, "base.")]
              (RosLink [30; 31]%positive [10; 11]%positive [10]%positive []))
           [10; 11; 10]%positive "real" example_document [30; 32; 30]%positive _
           example_name_fresh example_wf eq_refl eq_refl example_base_sources
           example_base_real).
Defined.

(** X9 on the worked robot. *)
Lemma add_links_lod_again_witness :
  let d' := (Robot._add_links_lod example_name example_placement false 2
               [10; 11; 10]%positive "real" example_document).2 in
  Robot._add_links_lod example_name example_placement false 2
    [10; 11; 10]%positive "visual" d'
  = (Ok [30; 32; 30]%positive, d').
Proof.
  exact (add_links_lod_again example_name example_placement false 2%positive
           (mkObject "base" "base" [(1%positive, "base.")]
              (RosLink [30; 31]%positive [10; 11]%positive [10]%positive []))
           [10; 11; 10]%positive "real" "visual" example_document
           [30; 32; 30]%positive _
           example_name_fresh example_wf eq_refl eq_refl example_base_sources
           example_base_real).
Defined.

(** X10 on the box with two parents, where the call raises. *)
Lemma add_links_lod_frame_witness :
  let out := Robot._add_links_lod example_name example_placement false 2
               [10]%positive "real" ambiguous_document in
  (∀ x obj, objects ambiguous_document !! x = Some obj → x ≠ 2%positive →
            objects out.2 !! x = Some obj)
  ∧ (∀ lobj, objects ambiguous_document !! 2%positive = Some lobj →
       ∃ lobj', objects out.2 !! 2%positive = Some lobj' ∧ Name lobj' = Name lobj)
  ∧ (objects ambiguous_document !! 2%positive = None →
       out.1 = Raise (ReferenceError 2) ∧ out.2 = ambiguous_document).
Proof.
  intros out.
  exact (add_links_lod_frame example_name example_placement false 2%positive
           [10]%positive "real" ambiguous_document out.1 out.2
           (surjective_pairing out)).
Defined.

(** X11 on the worked robot: the cylinder, for "base". *)
Lemma add_links_lod_one_parent_witness :
  ∃ p pobj d',
    Robot._add_links_lod example_name example_placement false 2 [11]%positive "real"
      example_document
    = (Ok [p], d')
    ∧ objects example_document !! p = None
    ∧ objects d' !! p = Some pobj
    ∧ Label pobj = "real_base000"
    ∧ data pobj = AppLink (Some 11%positive) (example_placement 20 "Cylinder.")
    ∧ Group_of (objects d') 2 = Group_of (objects example_document) 2 ++ [p]
    ∧ warnings d' = warnings example_document
    ∧ touched d' = touched example_document
                   ++ [(p, "Label"); (p, "LinkPlacement"); (p, "LinkedObject");
                       (2%positive, "Group")].
Proof.
  exact (add_links_lod_one_parent example_name example_placement false
           2%positive 11%positive "real" example_document
           (mkObject "base" "base" [(1%positive, "base.")]
              (RosLink [30; 31]%positive [10; 11]%positive [10]%positive []))
           (mkObject "Cylinder" "Cylinder" [(20%positive, "Cylinder.")] Feature)
           20%positive "Cylinder."
           example_wf eq_refl eq_refl eq_refl eq_refl eq_refl).
Defined.

(** X12 on the box with two parents. *)
Lemma add_links_lod_unbound_warn_witness :
  ∃ p d',
    Robot._add_links_lod example_name example_placement false 2 [10]%positive "real"
      ambiguous_document
    = (Raise (NameError "warn"), d')
    ∧ warnings d' = warnings ambiguous_document
    ∧ objects ambiguous_document !! p = None
    ∧ is_Some (objects d' !! p)
    ∧ LinkedObject_of (objects d') p = None
    ∧ Group_of (objects d') 2 = Group_of (objects ambiguous_document) 2.
Proof.
  refine (add_links_lod_unbound_warn example_name example_placement
            2%positive 10%positive "real" ambiguous_document
            (mkObject "Box" "Box" [(20%positive, "Box."); (21%positive, "Box.")] Feature)
            ambiguous_wf eq_refl eq_refl _ eq_refl).
  cbn. lia.
Defined.

(** X13 on the worked robot: the proxy of the box in "base". *)
Lemma existing_link_lookup_witness :
  example_document = example_document
  ∧ 30%positive ∈ Group_of (objects example_document) 2
  ∧ LinkedObject_of (objects example_document) 30 = Some 10%positive.
Proof.
  exact (existing_link_lookup 2%positive 10%positive example_document
           (Ok (Some 30%positive)) example_document eq_refl).
Defined.

(** X14 on the worked robot. *)
Lemma onBeforeChange_records_witness :
  ∃ self',
    Robot.onBeforeChange (Robot.__init__ 1) 1 "ShowVisual" example_document
    = (Ok self', example_document)
    ∧ self' !! "previous_show_real" = Some (VBool true)
    ∧ self' !! "previous_show_visual" = Some (VBool true)
    ∧ self' !! "previous_show_collision" = Some (VBool false)
    ∧ self' !! "robot" = Some (VObj 1).
Proof.
  destruct (onBeforeChange_records (Robot.__init__ 1) 1%positive "ShowVisual"
              1%positive
              (mkObject "Robot" "Robot" []
                 (RosRobot [2; 3]%positive (Some true) (Some true) (Some false)))
              example_document (ex_intro _ _ eq_refl) eq_refl eq_refl)
    as (self' & Hrun & Hflags & _ & _ & Hother).
  exists self'. split; [exact Hrun|].
  destruct (Hflags true true false eq_refl) as (? & ? & ?).
  do 3 (split; [done|]).
  rewrite Hother; [reflexivity|]. by compute_done.
Defined.

(** X15 on a new instance. *)
Lemma setstate_getstate_witness :
  Robot.__setstate__ (Robot.__init__ 1) (VTuple [VStr "Ros::Robot"; VInt 0])
  = Ok (Robot.__init__ 1).
Proof.
  exact (setstate_getstate (Robot.__init__ 1) (VTuple [VStr "Ros::Robot"; VInt 0])
           eq_refl).
Defined.

(** * Facts about joint.py *)

(** C9: the kinematic types are exactly fixed, revolute and prismatic, at
    the ordinals 0, 1 and 2, and no other name has an ordinal. *)
Theorem type_enum_ordinals :
  Joint.type_enum = ["fixed"; "revolute"; "prismatic"]
  ∧ Joint.ordinal "fixed" = Some 0
  ∧ Joint.ordinal "revolute" = Some 1
  ∧ Joint.ordinal "prismatic" = Some 2
  ∧ ∀ name n, Joint.ordinal name = Some n ↔ Joint.type_enum !! n = Some name.
Proof.
  split; [reflexivity|]. do 3 (split; [reflexivity|]).
  intros name n. unfold Joint.ordinal, Joint.type_enum.
  cbn [Joint.ordinal_in fmap option_fmap option_map].
  destruct (String.eqb_spec "fixed" name) as [<-|H1].
  { destruct n as [|[|[|n]]]; split; intros H; try reflexivity; discriminate. }
  destruct (String.eqb_spec "revolute" name) as [<-|H2].
  { destruct n as [|[|[|n]]]; split; intros H; try reflexivity; discriminate. }
  destruct (String.eqb_spec "prismatic" name) as [<-|H3].
  { destruct n as [|[|[|n]]]; split; intros H; try reflexivity; discriminate. }
  split; [discriminate|].
  destruct n as [|[|[|n]]]; intros H; try discriminate; injection H as H; congruence.
Qed.

(** C1: on the joint "shoulder" of the scenario, [export_urdf] raises
    [AttributeError] for [self.name]; and on an instance given the missing
    attributes it returns the four children in order, but the parent and
    the child carry the text between the braces, not the labels. *)
Theorem export_urdf_shoulder (valid_urdf_name : string → string)
    (urdf_origin_from_placement : Placement → Element) :
  let d := shoulder_document (Some 1%positive) in
  let export := Joint.export_urdf valid_urdf_name urdf_origin_from_placement in
  export (Joint.__init__ 3) d = (Raise (AttributeError "name"), d)
  ∧ export (with_name_and_origin "shoulder" shoulder_origin (Joint.__init__ 3)) d
    = (Ok (Elem "joint"
             [("name", valid_urdf_name "shoulder"); ("type", "revolute")]
             [ Elem "parent" [("joint", "{valid_urdf_name(self.parent.Label)}")] [];
               Elem "child" [("joint", "{valid_urdf_name(self.child.Label)}")] [];
               urdf_origin_from_placement shoulder_origin;
               Elem "axis" [("xyz", "0 0 1")] [] ]), d)
  ∧ Joint.parent_xml ≠ Elem "parent" [("joint", "base")] []
  ∧ Joint.child_xml ≠ Elem "child" [("joint", "arm")] [].
Proof.
  repeat split; try reflexivity; discriminate.
Qed.



(** * Facts about robot.py *)

(** C10: what [__getstate__] saves is the pair of [type] and
    [previous_link_count]; [__setstate__] of that pair restores the two on
    any instance and touches no other attribute; a falsy state changes
    nothing; and no other attribute of the instance has a part in what is
    saved. *)
Theorem getstate_setstate_roundtrip (self : instance) (type count : value) :
  let saved := <["previous_link_count" := count]> (<["type" := type]> self) in
  Robot.__getstate__ saved = Ok (VTuple [type; count])
  ∧ (∀ other : instance,
       ∃ restored,
         Robot.__setstate__ other (VTuple [type; count]) = Ok restored
         ∧ restored !! "type" = Some type
         ∧ restored !! "previous_link_count" = Some count
         ∧ Robot.__getstate__ restored = Robot.__getstate__ saved
         ∧ ∀ a, a ≠ "type" → a ≠ "previous_link_count" → restored !! a = other !! a)
  ∧ (∀ (other : instance) state,
       truthy state = false → Robot.__setstate__ other state = Ok other)
  ∧ (∀ (other : instance) a v,
       a ≠ "type" → a ≠ "previous_link_count" →
       Robot.__getstate__ (<[a := v]> other) = Robot.__getstate__ other).
Proof.
  cbv zeta.
  assert (Hget : ∀ (i : instance) t c,
             i !! "type" = Some t → i !! "previous_link_count" = Some c →
             Robot.__getstate__ i = Ok (VTuple [t; c])).
  { intros i t c Ht Hc. unfold Robot.__getstate__, getattr. rewrite Ht. simpl.
    rewrite Hc. reflexivity. }
  split; [|split; [|split]].
  - apply Hget; by simplify_map_eq.
  - intros other. eexists. split; [reflexivity|].
    split; [by simplify_map_eq|]. split; [by simplify_map_eq|]. split.
    + rewrite (Hget _ type count) by (by simplify_map_eq).
      symmetry. apply Hget; by simplify_map_eq.
    + intros a H1 H2. by simplify_map_eq.
  - intros other state Hf. unfold Robot.__setstate__. rewrite Hf. reflexivity.
  - intros other a v H1 H2. unfold Robot.__getstate__, getattr.
    rewrite !lookup_insert_ne by done. reflexivity.
Qed.

(** * Further properties of joint.py *)

Section export_more.

Variable valid_urdf_name : string → string.
Variable urdf_origin_from_placement : Placement → Element.

Abbreviation export_urdf :=
  (Joint.export_urdf valid_urdf_name urdf_origin_from_placement).


(** X17: the outcome of [export_urdf] does not depend on the [Parent],
    the [Child] or the [Origin] of a joint object: it is the same on the
    document where they are replaced. *)
Theorem export_urdf_ignores_endpoints (self : instance) d j name label parents
    t p c o p' c' o' :
  objects d !! j = Some (mkObject name label parents (RosJoint t p c o)) →
  let d2 := mkDocument
              (<[j := mkObject name label parents (RosJoint t p' c' o')]> (objects d))
              (warnings d) (touched d) in
  (export_urdf self d2).1 = (export_urdf self d).1.
Proof.
  intros Hj d2. unfold Joint.export_urdf, bind, lift, ret, getattr.
  destruct (self !! "name") as [[| | |nm| | |]|]; cbn; try done.
  destruct (self !! "joint") as [[| | | | |j0|]|]; cbn; try done.
  unfold bind, get_object. cbn [objects d2].
  destruct (decide (j0 = j)) as [->|Hne].
  - rewrite lookup_insert_eq, Hj. cbn.
    destruct (Joint.type_enum !! t); cbn; [|done].
    by destruct (self !! "origin") as [[| | | | | |?]|].
  - rewrite lookup_insert_ne by done.
    destruct (objects d !! j0) as [obj|]; cbn; [|done].
    destruct (data obj) as [| | | |t0 ? ? ?]; cbn; try done.
    destruct (Joint.type_enum !! t0); cbn; [|done].
    by destruct (self !! "origin") as [[| | | | | |?]|].
Qed.

End export_more.



(** X17 on the joint "shoulder": with its parent unset the outcome is the
    same. *)
Lemma export_urdf_ignores_endpoints_witness :
  (Joint.export_urdf id (λ _, Elem "origin" [] [])
     (with_name_and_origin "shoulder" shoulder_origin (Joint.__init__ 3))
     (mkDocument
        (<[3%positive := mkObject "shoulder" "shoulder" []
                           (RosJoint 1 None None Placement_identity)]>
           (objects (shoulder_document (Some 1%positive)))) [] [])).1
  = (Joint.export_urdf id (λ _, Elem "origin" [] [])
       (with_name_and_origin "shoulder" shoulder_origin (Joint.__init__ 3))
       (shoulder_document (Some 1%positive))).1.
Proof.
  exact (export_urdf_ignores_endpoints id (λ _, Elem "origin" [] [])
           (with_name_and_origin "shoulder" shoulder_origin (Joint.__init__ 3))
           (shoulder_document (Some 1%positive)) 3%positive "shoulder" "shoulder" []
           1 (Some 1%positive) (Some 2%positive) shoulder_origin
           None None Placement_identity eq_refl).
Defined.
